(** * Git Smart HTTP server of the DWS git router: a shallow embedding

    The development follows [createGitRouter] and [formatInfoRefs] of the
    git HTTP server (routes [info/refs], [git-upload-pack] and
    [git-receive-pack], and the browsing route [contents/*]).  The router is
    the part of the git server whose source is at hand; the pack helpers
    ([../../git/pack]), the object store and the repository manager are
    imported by it.  They appear here as the fields of interfaces,
    [PktCodec] and [Backend] ([Browser] for the getters of the browsing
    route), and, where a statement is about what they compute, as
    definitions modelled from the specification (marked as such).

    Conventions: a [Buffer] is a list of bytes, a JavaScript string is a
    [string] (exact for ASCII text, where the length in UTF-16 code units
    and the length in bytes agree), JavaScript numbers that are indices or
    lengths are [Z]. *)

From Stdlib Require Import ZArith List String Ascii Bool Lia.
From Stdlib Require Import Strings.Byte.
From stdpp Require Import base option list strings gmap.

Local Open Scope Z_scope.

(** ** Buffers and strings *)

Definition Buffer := list byte.

(** [Buffer.from(s)] and [buf.toString()] on ASCII text. *)
Definition bufferFrom (s : string) : Buffer := list_byte_of_string s.
Definition bufferToString (b : Buffer) : string := string_of_list_byte b.

(** Outcome of a call that may throw: a value, or the name of the error. *)
Inductive Result (A : Type) : Type :=
  | Val (a : A)
  | Exn (name : string).
Arguments Val {A} a.
Arguments Exn {A} name.

Definition rmap {A B} (f : A -> B) (r : Result A) : Result B :=
  match r with
  | Val a => Val (f a)
  | Exn e => Exn e
  end.

(** ** Pkt-line codec

    The codec lives in the pack helpers, which the router imports.  The
    definitions of this module are modelled from the specification of the
    codec. *)

Module PktLine.

(** The lowercase hexadecimal digit of [d], for [0 <= d < 16]. *)
Definition hexDigit (d : Z) : byte :=
  nth (Z.to_nat d) (bufferFrom "0123456789abcdef") "0"%byte.

(** The value of a lowercase hexadecimal digit. *)
Definition hexVal (b : byte) : option Z :=
  let n := Z.of_N (Byte.to_N b) in
  if (48 <=? n) && (n <=? 57) then Some (n - 48)
  else if (97 <=? n) && (n <=? 102) then Some (n - 87)
  else None.

(** Base-16 digits of a non-negative number, most significant first:
    the digits of [n.toString(16)]. *)
Fixpoint digits16 (fuel : nat) (n : Z) (acc : list Z) : list Z :=
  match fuel with
  | O => acc
  | S f =>
      let acc' := (n mod 16) :: acc in
      if n / 16 =? 0 then acc' else digits16 f (n / 16) acc'
  end.

Definition toHex (n : Z) : Buffer :=
  map hexDigit (digits16 (S (Z.to_nat (Z.log2 n))) n []).

(** [s.padStart(w, c)]. *)
Definition padStart (w : nat) (c : byte) (l : Buffer) : Buffer :=
  repeat c (w - length l)%nat ++ l.

(** Modelled from the spec: [createPktLine] of the pack helpers, which the
    router imports.  "computes length = len(s) + 4 in lowercase hex,
    zero-padded to 4 digits, concatenated with s". *)
Definition createPktLine (s : string) : Buffer :=
  padStart 4 "0"%byte (toHex (Z.of_nat (String.length s) + 4)) ++ bufferFrom s.

(** Modelled from the spec: [createFlushPkt] "yields exactly 0000". *)
Definition createFlushPkt : Buffer := bufferFrom "0000".

(** The four-digit length field. *)
Definition parseLen (b3 b2 b1 b0 : byte) : option Z :=
  d3 ← hexVal b3; d2 ← hexVal b2; d1 ← hexVal b1; d0 ← hexVal b0;
  Some (((d3 * 16 + d2) * 16 + d1) * 16 + d0).

Definition MalformedRequestError : string := "MalformedRequestError".

(** Modelled from the spec: [parsePktLines] of the pack helpers.  "reads
    sequential pkt-lines until the buffer is exhausted or a flush-pkt is
    seen, returning payloads with flush boundaries elided"; "values outside
    [0004, fff0] in the length field are a framing error".  A truncated
    header or payload is a framing error as well.  Every step consumes at
    least four bytes, so the length of the buffer is enough fuel. *)
Fixpoint parsePktLinesFuel (fuel : nat) (buf : Buffer) : Result (list string) :=
  match buf with
  | [] => Val []
  | b3 :: b2 :: b1 :: b0 :: rest =>
      match parseLen b3 b2 b1 b0 with
      | None => Exn MalformedRequestError
      | Some n =>
          if n =? 0 then Val []
          else if (n <? 4) || (65520 <? n) then Exn MalformedRequestError
          else
            let k := Z.to_nat (n - 4) in
            if (length rest <? k)%nat then Exn MalformedRequestError
            else
              match fuel with
              | O => Exn MalformedRequestError
              | S f =>
                  rmap (cons (bufferToString (take k rest)))
                       (parsePktLinesFuel f (drop k rest))
              end
      end
  | _ => Exn MalformedRequestError
  end.

Definition parsePktLines (buf : Buffer) : Result (list string) :=
  parsePktLinesFuel (length buf) buf.

(** Value of a list of base-16 digits, most significant first. *)
Definition fromDigits (l : list Z) : Z := fold_left (fun a d => 16 * a + d) l 0.

Definition isDigit16 (d : Z) : Prop := 0 <= d < 16.

(** Largest payload of a pkt-line: [0xfff0 - 4]. *)
Definition maxPayload : Z := 65516.

(** A string of the pkt-line round trip: 7-bit characters, none of them
    NUL. *)
Definition isAsciiNoNul (s : string) : Prop :=
  Forall (fun c => (0 < nat_of_ascii c < 128)%nat) (list_ascii_of_string s).

End PktLine.

(** ** JavaScript helpers used by the router *)

(** [!x] on a value that is a string or [undefined]. *)
Definition falsy (x : option string) : bool :=
  match x with
  | Some (String _ _) => false
  | _ => true
  end.

(** [s.startsWith(p)]. *)
Definition startsWith (s p : string) : bool := String.prefix p s.

(** [s.slice(n)]. *)
Fixpoint dropString (n : nat) (s : string) : string :=
  match n, s with
  | S n', String _ s' => dropString n' s'
  | _, _ => s
  end.

(** [s.split(sep)] for a one-character separator. *)
Fixpoint split (sep : ascii) (s : string) : list string :=
  match s with
  | EmptyString => [EmptyString]
  | String c s' =>
      if Ascii.eqb c sep then EmptyString :: split sep s'
      else
        match split sep s' with
        | seg :: segs => String c seg :: segs
        | [] => [String c EmptyString]
        end
  end.

(** [s.replace(pat, rep)] for a string pattern: the first occurrence only. *)
Fixpoint replace (pat rep s : string) : string :=
  if String.prefix pat s then String.append rep (dropString (String.length pat) s)
  else
    match s with
    | EmptyString => EmptyString
    | String c s' => String c (replace pat rep s')
    end.

(** [parts.join(sep)]. *)
Fixpoint join (sep : string) (parts : list string) : string :=
  match parts with
  | [] => EmptyString
  | [p] => p
  | p :: ps => String.append p (String.append sep (join sep ps))
  end.

(** [c.repeat(n)]. *)
Fixpoint repeatString (c : ascii) (n : nat) : string :=
  match n with
  | O => EmptyString
  | S n' => String c (repeatString c n')
  end.

Definition NUL : ascii := ascii_of_nat 0.
Definition LF : ascii := ascii_of_nat 10.
Definition CR : ascii := ascii_of_nat 13.
Definition SPACE : ascii := ascii_of_nat 32.

(** The bytes of [p] are the first bytes of [b]. *)
Definition isPrefixOf (p b : Buffer) : bool :=
  (length p <=? length b)%nat && forallb (fun xy => Byte.eqb (fst xy) (snd xy)) (combine p b).

Fixpoint indexOfFrom (p b : Buffer) (i : Z) : Z :=
  if isPrefixOf p b then i
  else
    match b with
    | [] => -1
    | _ :: t => indexOfFrom p t (i + 1)
    end.

(** [buf.indexOf(pattern)]: the offset of the first occurrence, or [-1]. *)
Definition indexOf (b p : Buffer) : Z := indexOfFrom p b 0.

(** An offset argument of [subarray]: counted from the end when negative,
    clamped to the buffer. *)
Definition relativeIndex (len i : Z) : Z :=
  if i <? 0 then Z.max (len + i) 0 else Z.min i len.

(** [buf.subarray(start, end)]; [end] defaults to the length. *)
Definition subarray (b : Buffer) (start : Z) (end_ : option Z) : Buffer :=
  let len := Z.of_nat (length b) in
  let from := relativeIndex len start in
  let to := match end_ with Some e => relativeIndex len e | None => len end in
  take (Z.to_nat (to - from)) (drop (Z.to_nat from) b).

(** *** The regular expression of a ref-update command

    [/^([0-9a-f]{40}) ([0-9a-f]{40}) (.+)$/]: the dot does not match a line
    terminator, and without the [m] flag [$] is the end of the string. *)

Definition isLowerHex (c : ascii) : bool :=
  let n := nat_of_ascii c in
  ((48 <=? n) && (n <=? 57) || (97 <=? n) && (n <=? 102))%nat.

Definition isLineTerminator (c : ascii) : bool :=
  Ascii.eqb c LF || Ascii.eqb c CR.

Fixpoint allChars (f : ascii -> bool) (s : string) : bool :=
  match s with
  | EmptyString => true
  | String c s' => f c && allChars f s'
  end.

(** [k] characters of class [f], then the rest. *)
Fixpoint takeClass (f : ascii -> bool) (k : nat) (s : string) : option (string * string) :=
  match k with
  | O => Some (EmptyString, s)
  | S k' =>
      match s with
      | String c s' =>
          if f c then
            match takeClass f k' s' with
            | Some (a, r) => Some (String c a, r)
            | None => None
            end
          else None
      | EmptyString => None
      end
  end.

Definition expectSpace (s : string) : option string :=
  match s with
  | String c s' => if Ascii.eqb c SPACE then Some s' else None
  | EmptyString => None
  end.

Definition matchCommand (line : string) : option (string * string * string) :=
  match takeClass isLowerHex 40 line with
  | None => None
  | Some (g1, r1) =>
      match expectSpace r1 with
      | None => None
      | Some r2 =>
          match takeClass isLowerHex 40 r2 with
          | None => None
          | Some (g2, r3) =>
              match expectSpace r3 with
              | None => None
              | Some g3 =>
                  match g3 with
                  | EmptyString => None
                  | String _ _ =>
                      if allChars (fun c => negb (isLineTerminator c)) g3
                      then Some (g1, g2, g3)
                      else None
                  end
              end
          end
      end
  end.

(** ** Collaborators of the router *)

(** The pack helpers' pkt-line functions, as the router imports them. *)
Record PktCodec := {
  createPktLine : string -> Buffer;
  createPktLines : list string -> Buffer;
  createFlushPkt : Buffer;
  parsePktLines : Buffer -> Result (list string);
}.

(** Modelled from the spec: the codec of the specification.  [createPktLines]
    has no contract of its own there; the push reply is "one status pkt-line
    per ref", so every line is framed by [createPktLine]. *)
Definition specCodec : PktCodec := {|
  createPktLine := PktLine.createPktLine;
  createPktLines := fun lines => concat (map PktLine.createPktLine lines);
  createFlushPkt := PktLine.createFlushPkt;
  parsePktLines := PktLine.parsePktLines;
|}.

(** What the router reads of a repository: [repo.repoId], and
    [repo.visibility] (0 public, 1 private). *)
Record Repository := {
  repoId : string;
  visibility : Z;
}.

Record GitRef := {
  ref_oid : string;
  ref_name : string;
}.

(** The parsed view of a commit. *)
Record Commit := {
  commit_oid : string;
  tree : string;
  parents : list string;
  author : string;
  committer : string;
  message : string;
}.

(** The repository manager and the object store.  [Manager] is the state
    behind [repoManager] (repositories, access lists, branch tips), [Store]
    the state of one repository's object store.  [extractPackfile] returns
    the store it leaves behind together with the error it threw, if any. *)
Record Backend := {
  Manager : Type;
  Store : Type;
  getRepositoryByName : Manager -> string -> string -> option Repository;
  hasReadAccess : Manager -> string -> string -> bool;
  hasWriteAccess : Manager -> string -> string -> bool;
  getRefs : Manager -> string -> list GitRef;
  pushBranch :
    Manager -> string -> string -> string -> option string -> Z -> string ->
    Result Manager;
  getReachableObjects : Store -> string -> list string;
  walkCommits : Store -> string -> Z -> list Commit;
  createPackfile : Store -> list string -> Result Buffer;
  extractPackfile : Store -> Buffer -> Store * option string;
}.

(** The calls a handler makes on its collaborators, in the order it makes
    them. *)
Inductive Event :=
  | GetRepositoryByName (owner name : string)
  | HasReadAccess (repo user : string)
  | HasWriteAccess (repo user : string)
  | GetRefs (repo : string)
  | GetReachableObjects (repo oid : string)
  | CreatePackfile (repo : string) (oids : list string)
  | ExtractPackfile (repo : string) (data : Buffer)
  | WalkCommits (repo oid : string) (limit : Z)
  | PushBranch (repo branch newOid : string) (oldOid : option string)
               (commitCount : Z) (user : string)
  | TrackGitContribution (user repo name kind branch : string)
                         (commitCount : Z) (summary : string).

(** ** HTTP *)

Record Request := {
  param_owner : string;
  param_name : string;
  query_service : option string;
  header_address : option string;
  arrayBuffer : Buffer;
}.

Record Response := {
  status : Z;
  headers : list (string * string);
  body : Buffer;
}.

(** [c.text(msg, code)]. *)
Definition text (msg : string) (code : Z) : Response :=
  {| status := code; headers := []; body := bufferFrom msg |}.

(** [new Response(body, { headers })]. *)
Definition response (b : Buffer) (hs : list (string * string)) : Response :=
  {| status := 200; headers := hs; body := b |}.

Record Update := {
  oldOid : string;
  newOid : string;
  refName : string;
}.

Record PushResult := {
  ref : string;
  success : bool;
  error : option string;
}.

Definition GIT_AGENT : string := "jeju-git/1.0.0".

Definition zeroOid : string := "0000000000000000000000000000000000000000".

(** ** The router *)

Section Router.
Context (C : PktCodec) (B : Backend).

Local Infix "+++" := String.append (at level 60, right associativity).

(** What a request can read and change: the repository manager and, per
    repository id, the object store that [getObjectStore] hands out. *)
Record World := {
  manager : Manager B;
  objects : string -> Store B;
}.

(** A handler runs from a world to an outcome (a value, or an error thrown
    and not caught), the world it leaves, and the collaborator calls it
    made. *)
Definition Handler (A : Type) : Type := World -> Result A * World * list Event.

Definition ret {A} (a : A) : Handler A := fun w => (Val a, w, []).

Definition bind {A A'} (m : Handler A) (k : A -> Handler A') : Handler A' :=
  fun w =>
    match m w with
    | (Val a, w1, ev1) => let '(r, w2, ev2) := k a w1 in (r, w2, ev1 ++ ev2)
    | (Exn e, w1, ev1) => (Exn e, w1, ev1)
    end.

Local Notation "x <- m ;; k" := (bind m (fun x => k))
  (at level 100, m at next level, right associativity).

(** A pure helper that may throw. *)
Definition lift {A} (r : Result A) : Handler A := fun w => (r, w, []).

(** *** Calls on the collaborators *)

Definition repoManager_getRepositoryByName (owner name : string)
  : Handler (option Repository) :=
  fun w => (Val (getRepositoryByName B (manager w) owner name), w,
            [GetRepositoryByName owner name]).

Definition repoManager_hasReadAccess (repo user : string) : Handler bool :=
  fun w => (Val (hasReadAccess B (manager w) repo user), w, [HasReadAccess repo user]).

Definition repoManager_hasWriteAccess (repo user : string) : Handler bool :=
  fun w => (Val (hasWriteAccess B (manager w) repo user), w, [HasWriteAccess repo user]).

Definition repoManager_getRefs (repo : string) : Handler (list GitRef) :=
  fun w => (Val (getRefs B (manager w) repo), w, [GetRefs repo]).

Definition repoManager_pushBranch (repo branch new : string) (old : option string)
    (count : Z) (user : string) : Handler unit :=
  fun w =>
    match pushBranch B (manager w) repo branch new old count user with
    | Val m => (Val tt, {| manager := m; objects := objects w |},
                [PushBranch repo branch new old count user])
    | Exn e => (Exn e, w, [PushBranch repo branch new old count user])
    end.

Definition objectStore_getReachableObjects (repo oid : string)
  : Handler (list string) :=
  fun w => (Val (getReachableObjects B (objects w repo) oid), w,
            [GetReachableObjects repo oid]).

Definition objectStore_walkCommits (repo oid : string) (limit : Z)
  : Handler (list Commit) :=
  fun w => (Val (walkCommits B (objects w repo) oid limit), w,
            [WalkCommits repo oid limit]).

Definition pack_createPackfile (repo : string) (oids : list string)
  : Handler Buffer :=
  fun w => (createPackfile B (objects w repo) oids, w, [CreatePackfile repo oids]).

Definition setStore (w : World) (repo : string) (st : Store B) : World :=
  {| manager := manager w;
     objects := fun r => if String.eqb r repo then st else objects w r |}.

Definition pack_extractPackfile (repo : string) (data : Buffer) : Handler unit :=
  fun w =>
    let '(st, err) := extractPackfile B (objects w repo) data in
    (match err with None => Val tt | Some e => Exn e end,
     setStore w repo st, [ExtractPackfile repo data]).

(** Fire and forget. *)
Definition trackGitContribution (user repo name kind branch : string)
    (count : Z) (summary : string) : Handler unit :=
  fun w => (Val tt, w, [TrackGitContribution user repo name kind branch count summary]).

(** *** [formatInfoRefs] *)

Definition capabilities : string :=
  join " " ["report-status"; "delete-refs"; "side-band-64k"; "quiet"; "ofs-delta";
            "agent=" +++ GIT_AGENT].

(** The [for] loop over [refs], from index [i]. *)
Fixpoint refLines (i : nat) (refs : list GitRef) : list Buffer :=
  match refs with
  | [] => []
  | r :: rs =>
      createPktLine C
        (if (i =? 0)%nat
         then ref_oid r +++ " " +++ ref_name r +++ String NUL capabilities
         else ref_oid r +++ " " +++ ref_name r)
      :: refLines (S i) rs
  end.

Definition formatInfoRefs (service : string) (refs : list GitRef) : Buffer :=
  let lines := [createPktLine C ("# service=" +++ service); createFlushPkt C] in
  let lines :=
    if (length refs =? 0)%nat
    then lines ++ [createPktLine C
                     (repeatString "0" 40 +++ " capabilities^{}" +++ String NUL capabilities)]
    else lines ++ refLines 0 refs in
  let lines := lines ++ [createFlushPkt C] in
  concat lines.

(** *** [GET /:owner/:name/info/refs] *)

(** [service === s] for a query parameter that may be absent. *)
Definition serviceIs (service : option string) (s : string) : bool :=
  match service with
  | Some x => String.eqb x s
  | None => false
  end.

Definition infoRefs (req : Request) : Handler Response :=
  let owner := param_owner req in
  let name := param_name req in
  let service := query_service req in
  if falsy service
     || (negb (serviceIs service "git-upload-pack")
         && negb (serviceIs service "git-receive-pack"))
  then ret (text "Service required" 400)
  else
    repo <- repoManager_getRepositoryByName owner name ;;
    match repo with
    | None => ret (text "Repository not found" 404)
    | Some repo =>
        let user := header_address req in
        let service := default EmptyString service in
        let advertise : Handler Response :=
          refs <- repoManager_getRefs (repoId repo) ;;
          ret (response (formatInfoRefs service refs)
                 [("Content-Type", "application/x-" +++ service +++ "-advertisement");
                  ("Cache-Control", "no-cache")]) in
        if String.eqb service "git-receive-pack" then
          if falsy user then ret (text "Authentication required" 401)
          else
            hasWrite <- repoManager_hasWriteAccess (repoId repo) (default EmptyString user) ;;
            if negb hasWrite then ret (text "Write access denied" 403)
            else advertise
        else if visibility repo =? 1 then
          if falsy user then ret (text "Authentication required" 401)
          else
            hasRead <- repoManager_hasReadAccess (repoId repo) (default EmptyString user) ;;
            if negb hasRead then ret (text "Read access denied" 403)
            else advertise
        else advertise
    end.

(** *** [POST /:owner/:name/git-upload-pack] *)

(** [line.split(' ')[1]]. *)
Definition secondField (line : string) : string :=
  nth 1 (split SPACE line) EmptyString.

(** One turn of the loop that fills [wants] and [haves]. *)
Definition scanLine (acc : list string * list string) (line : string)
  : list string * list string :=
  let '(wants, haves) := acc in
  if startsWith line "want " then (wants ++ [secondField line], haves)
  else if startsWith line "have " then (wants, haves ++ [secondField line])
  else acc.

Definition scanLines (lines : list string) : list string * list string :=
  fold_left scanLine lines ([], []).

(** The inner loop: the reachable oids that the client does not have are
    pushed onto [neededOids]. *)
Definition pushNeeded (haveSet : gset string) (neededOids reachable : list string)
  : list string :=
  fold_left
    (fun acc oid => if bool_decide (oid ∈ haveSet) then acc else acc ++ [oid])
    reachable neededOids.

(** The outer loop, over [wants]. *)
Fixpoint collectNeeded (repo : string) (haveSet : gset string)
    (wants : list string) (neededOids : list string) : Handler (list string) :=
  match wants with
  | [] => ret neededOids
  | wantOid :: rest =>
      reachable <- objectStore_getReachableObjects repo wantOid ;;
      collectNeeded repo haveSet rest (pushNeeded haveSet neededOids reachable)
  end.

Definition uploadPackResult : list (string * string) :=
  [("Content-Type", "application/x-git-upload-pack-result")].

Definition uploadPackResultNoCache : list (string * string) :=
  [("Content-Type", "application/x-git-upload-pack-result");
   ("Cache-Control", "no-cache")].

(** The handler from [const body = ...] on. *)
Definition serveUploadPack (repo : Repository) (req : Request) : Handler Response :=
  let body := arrayBuffer req in
  lines <- lift (parsePktLines C body) ;;
  let '(wants, haves) := scanLines lines in
  if (length wants =? 0)%nat
  then ret (response (createPktLine C "NAK") uploadPackResult)
  else
    let haveSet : gset string := list_to_set haves in
    neededOids <- collectNeeded (repoId repo) haveSet wants [] ;;
    packfile <- pack_createPackfile (repoId repo) neededOids ;;
    ret (response (createPktLine C "NAK" ++ packfile) uploadPackResultNoCache).

Definition uploadPack (req : Request) : Handler Response :=
  let owner := param_owner req in
  let name := param_name req in
  repo <- repoManager_getRepositoryByName owner name ;;
  match repo with
  | None => ret (text "Repository not found" 404)
  | Some repo =>
      if visibility repo =? 1 then
        let user := header_address req in
        if falsy user then ret (text "Authentication required" 401)
        else
          hasRead <- repoManager_hasReadAccess (repoId repo) (default EmptyString user) ;;
          if negb hasRead then ret (text "Read access denied" 403)
          else serveUploadPack repo req
      else serveUploadPack repo req
  end.

(** *** [POST /:owner/:name/git-receive-pack] *)

(** [body.subarray(0, packStart)] and [body.subarray(packStart)]. *)
Definition splitBody (body : Buffer) : Buffer * Buffer :=
  let packStart := indexOf body (bufferFrom "PACK") in
  let commandData := subarray body 0 (Some packStart) in
  let packData := subarray body packStart None in
  (commandData, packData).

(** One turn of the loop that fills [updates]. *)
Definition scanCommand (updates : list Update) (line : string) : list Update :=
  if String.eqb line "" || String.eqb line "0000" then updates
  else
    match matchCommand line with
    | Some (g1, g2, g3) =>
        updates ++ [{| oldOid := g1; newOid := g2;
                       refName := nth 0 (split NUL g3) EmptyString |}]
    | None => updates
    end.

Definition parseUpdates (lines : list string) : list Update :=
  fold_left scanCommand lines [].

(** [commits[0]?.message.split('\n')[0] || 'Push']. *)
Definition pushSummary (commits : list Commit) : string :=
  match commits with
  | [] => "Push"
  | c :: _ =>
      let first := nth 0 (split LF (message c)) EmptyString in
      if String.eqb first "" then "Push" else first
  end.

(** The loop over [updates]. *)
Fixpoint applyUpdates (repo : Repository) (name user : string)
    (updates : list Update) (results : list PushResult)
  : Handler (list PushResult) :=
  match updates with
  | [] => ret results
  | update :: rest =>
      if negb (startsWith (refName update) "refs/heads/") then
        applyUpdates repo name user rest
          (results ++ [{| ref := refName update; success := false;
                          error := Some "Only branch updates supported" |}])
      else
        let branchName := replace "refs/heads/" "" (refName update) in
        commits <- objectStore_walkCommits (repoId repo) (newOid update) 100 ;;
        _ <- repoManager_pushBranch (repoId repo) branchName (newOid update)
               (if String.eqb (oldOid update) zeroOid then None else Some (oldOid update))
               (Z.of_nat (length commits)) user ;;
        _ <- trackGitContribution user (repoId repo) name "commit" branchName
               (Z.of_nat (length commits)) (pushSummary commits) ;;
        applyUpdates repo name user rest
          (results ++ [{| ref := refName update; success := true; error := None |}])
  end.

(** [r.success ? `ok ${r.ref}` : `ng ${r.ref} ${r.error}`]. *)
Definition statusLine (r : PushResult) : string :=
  if success r then "ok " +++ ref r
  else "ng " +++ ref r +++ " " +++ default "undefined" (error r).

Definition responseLines (results : list PushResult) : list string :=
  "unpack ok" :: map statusLine results.

Definition receivePackResult : list (string * string) :=
  [("Content-Type", "application/x-git-receive-pack-result");
   ("Cache-Control", "no-cache")].

(** The handler from [const lines = parsePktLines(commandData)] on. *)
Definition processPush (repo : Repository) (name user : string)
    (commandData packData : Buffer) : Handler Response :=
  lines <- lift (parsePktLines C commandData) ;;
  let updates := parseUpdates lines in
  _ <- pack_extractPackfile (repoId repo) packData ;;
  results <- applyUpdates repo name user updates [] ;;
  ret (response (createPktLines C (responseLines results)) receivePackResult).

Definition receivePack (req : Request) : Handler Response :=
  let owner := param_owner req in
  let name := param_name req in
  let user := header_address req in
  if falsy user then ret (text "Authentication required" 401)
  else
    let user := default EmptyString user in
    repo <- repoManager_getRepositoryByName owner name ;;
    match repo with
    | None => ret (text "Repository not found" 404)
    | Some repo =>
        hasWrite <- repoManager_hasWriteAccess (repoId repo) user ;;
        if negb hasWrite then ret (text "Write access denied" 403)
        else
          let '(commandData, packData) := splitBody (arrayBuffer req) in
          processPush repo name user commandData packData
    end.

End Router.

Arguments manager {B} _.
Arguments objects {B} _ _.
Arguments Build_World {B} _ _.

(** ** Notions used to state the properties *)

(** The three parts of a run. *)
Definition outcome {B A} (run : Result A * World B * list Event) : Result A :=
  fst (fst run).
Definition finalWorld {B A} (run : Result A * World B * list Event) : World B :=
  snd (fst run).
Definition calls {B A} (run : Result A * World B * list Event) : list Event :=
  snd run.

(** A run, after the calls [evs] made before it. *)
Definition after {B A} (evs : list Event) (run : Result A * World B * list Event)
  : Result A * World B * list Event :=
  let '(r, w, ev) := run in (r, w, evs ++ ev).

(** No call of the class [data] is made before a call of the class [gate]. *)
Fixpoint gatedBy (gate data : Event -> bool) (ev : list Event) : bool :=
  match ev with
  | [] => true
  | e :: rest => if gate e then true else negb (data e) && gatedBy gate data rest
  end.

Definition isReadCheck (e : Event) : bool :=
  match e with
  | HasReadAccess _ _ => true
  | _ => false
  end.

(** The calls that fetch refs or objects for the requester. *)
Definition readsData (e : Event) : bool :=
  match e with
  | GetRefs _ | GetReachableObjects _ _ | CreatePackfile _ _ => true
  | _ => false
  end.

Definition isPushBranch (e : Event) : bool :=
  match e with
  | PushBranch _ _ _ _ _ _ => true
  | _ => false
  end.

Definition isExtractPackfile (e : Event) : bool :=
  match e with
  | ExtractPackfile _ _ => true
  | _ => false
  end.

(** The capability string of the specification. *)
Definition advertisedCapabilities : string :=
  "report-status delete-refs side-band-64k quiet ofs-delta agent=jeju-git/1.0.0".

(** The ref advertisement in the words of the specification: the service
    line, a flush-pkt, one line per ref with the capabilities after a NUL on
    the first one only (or the zero-oid [capabilities^{}] line when there is
    no ref), and a flush-pkt. *)
Definition advertisement (C : PktCodec) (service : string) (refs : list GitRef)
  : Buffer :=
  let plain r := String.append (ref_oid r) (String.append " " (ref_name r)) in
  createPktLine C (String.append "# service=" service)
  ++ createFlushPkt C
  ++ match refs with
     | [] =>
         createPktLine C
           (String.append zeroOid
              (String.append " capabilities^{}" (String NUL advertisedCapabilities)))
     | first :: rest =>
         createPktLine C
           (String.append (ref_oid first)
              (String.append " "
                 (String.append (ref_name first) (String NUL advertisedCapabilities))))
         ++ concat (map (fun r => createPktLine C (plain r)) rest)
     end
  ++ createFlushPkt C.

(** The objects to send in the words of the specification: for every want,
    its reachable objects without those of the have set. *)
Definition closureMinusHaves (B : Backend) (st : Store B) (wants haves : list string)
  : list string :=
  flat_map
    (fun want => filter (fun oid => oid ∉ haves) (getReachableObjects B st want))
    wants.

(** Whether the handlers let a requester read: the repository is not
    private, or the requester is named and has read access. *)
Definition mayRead (B : Backend) (w : World B) (repo : Repository) (req : Request)
  : bool :=
  if visibility repo =? 1
  then negb (falsy (header_address req))
       && hasReadAccess B (manager w) (repoId repo)
            (default EmptyString (header_address req))
  else true.

(** The calls of [git-upload-pack] before the body is read. *)
Definition readGateCalls (repo : Repository) (req : Request) : list Event :=
  GetRepositoryByName (param_owner req) (param_name req)
  :: (if visibility repo =? 1
      then [HasReadAccess (repoId repo) (default EmptyString (header_address req))]
      else []).

(** A ref-update command that names a branch. *)
Definition branchUpdate (u : Update) : bool := startsWith (refName u) "refs/heads/".

(** The entry of [results] for a command whose turn of the loop completes. *)
Definition resultOf (u : Update) : PushResult :=
  if branchUpdate u
  then {| ref := refName u; success := true; error := None |}
  else {| ref := refName u; success := false;
          error := Some "Only branch updates supported" |}.

(** What the loop over [updates] may call, given the object store [st] of
    the repository and all the calls [all] of the run: [walkCommits] with
    limit 100, [pushBranch] with the length of that walk as commit count,
    and contribution tracking with the count of a [pushBranch] call of the
    same branch. *)
Definition pushLoopCall (B : Backend) (st : Store B) (repo user : string)
    (all : list Event) (e : Event) : Prop :=
  match e with
  | WalkCommits r _ limit => r = repo /\ limit = 100
  | PushBranch r _ new _ n u =>
      r = repo /\ u = user /\ n = Z.of_nat (length (walkCommits B st new 100))
  | TrackGitContribution u r _ _ branch n _ =>
      exists new old,
        In (PushBranch r branch new old n u) all
        /\ n = Z.of_nat (length (walkCommits B st new 100))
  | _ => False
  end.

(** The calls made by the loop over [updates]. *)
Definition isPushLoopCall (e : Event) : bool :=
  match e with
  | WalkCommits _ _ _ | PushBranch _ _ _ _ _ _ | TrackGitContribution _ _ _ _ _ _ _ => true
  | _ => false
  end.

(** ** The object store and the ref manager of the specification

    The router receives both through [repoManager]; their sources are not
    part of the router.  The definitions of this part are modelled from the
    specification (data model, object store and ref manager contracts). *)

(** Modelled from the spec: an entry of a tree, "{mode, name, type, oid}". *)
Record TreeEntry := {
  entry_mode : string;
  entry_name : string;
  entry_type : string;
  entry_oid : string;
}.

(** Modelled from the spec: the four object kinds, as a closed variant. *)
Inductive GitObject :=
  | Blob (content : Buffer)
  | Tree (entries : list TreeEntry)
  | CommitObject (c : Commit)
  | Tag (target : string).

Module ObjectStore.

(** The objects an object points to: a commit's parents and tree, a tree's
    entries, a tag's target. *)
Definition children (o : GitObject) : list string :=
  match o with
  | Blob _ => []
  | Tree entries => map entry_oid entries
  | CommitObject c => parents c ++ [tree c]
  | Tag target => [target]
  end.

(** Worklist traversal with a visited list; a missing object is a dead
    end. *)
Fixpoint traverse (fuel : nat) (store : gmap string GitObject)
    (work visited : list string) : list string :=
  match fuel with
  | O => visited
  | S f =>
      match work with
      | [] => visited
      | o :: rest =>
          if bool_decide (o ∈ visited) then traverse f store rest visited
          else
            match store !! o with
            | None => traverse f store rest visited
            | Some obj => traverse f store (children obj ++ rest) (visited ++ [o])
            end
      end
  end.

(** What an object that is not visited yet can still cost: the step that
    visits it, and one step for each child it puts on the worklist. *)
Definition cost (visited : list string) (kv : string * GitObject) : nat :=
  if bool_decide (fst kv ∈ visited) then 0%nat else S (length (children (snd kv))).

Definition weight (store : gmap string GitObject) (visited : list string) : nat :=
  sum_list (map (cost visited) (map_to_list store)).

(** Every step pops one entry of the worklist, and entries are pushed only
    when an object is visited for the first time: the worklist and the
    weight of the store bound the number of steps. *)
Definition traverseFuel (store : gmap string GitObject) : nat :=
  S (weight store []).

(** Modelled from the spec: [getReachableObjects] of the object store,
    "traversal from a commit oid following parents, then the tree/blob
    graph reachable from each commit's tree, deduplicating visited nodes",
    treating "missing as a dead end". *)
Definition getReachableObjects (store : gmap string GitObject) (startOid : string)
  : list string :=
  traverse (traverseFuel store) store [startOid] [].

Fixpoint walk (limit : nat) (store : gmap string GitObject) (oid : string)
  : list Commit :=
  match limit with
  | O => []
  | S n =>
      match store !! oid with
      | Some (CommitObject c) =>
          c :: match parents c with
               | p :: _ => walk n store p
               | [] => []
               end
      | _ => []
      end
  end.

(** Modelled from the spec: [walkCommits] of the object store, "follows
    first-parent (or all-parents, policy choice) links, oldest exclusion at
    limit".  The policy here is first-parent; the walk stops after [limit]
    commits, at a root commit, or at a missing object. *)
Definition walkCommits (store : gmap string GitObject) (startOid : string)
    (limit : Z) : list Commit :=
  walk (Z.to_nat limit) store startOid.

End ObjectStore.

(** Modelled from the spec: a ref, "{repoId, name, tipCommitOid, lastPusher,
    updatedAt}"; the repository and the name are the key under which the
    branch is stored, and the time stamp is left out. *)
Record Branch := {
  tipCommitOid : string;
  lastPusher : string;
}.

(** Modelled from the spec: the state behind the repository manager.  The
    repositories and the access lists belong to the external registry; the
    branch tips are the ref manager's. *)
Record ManagerState := {
  repositories : list (string * string * Repository);
  readers : list (string * string);
  writers : list (string * string);
  branches : gmap (string * string) Branch;
}.

Definition NonFastForwardOrRaceError : string := "NonFastForwardOrRaceError".
Definition CorruptPackError : string := "CorruptPackError".

Module RefManager.

(** Modelled from the spec: [getRepositoryByName], "Repository or
    not-found". *)
Definition getRepositoryByName (m : ManagerState) (owner name : string)
  : option Repository :=
  snd <$> List.find
    (fun e => String.eqb (fst (fst e)) owner && String.eqb (snd (fst e)) name)
    (repositories m).

Definition listed (l : list (string * string)) (repo user : string) : bool :=
  existsb (fun e => String.eqb (fst e) repo && String.eqb (snd e) user) l.

(** Modelled from the spec: [hasReadAccess] and [hasWriteAccess], the
    decisions of the access-control collaborator, here two lists. *)
Definition hasReadAccess (m : ManagerState) (repo user : string) : bool :=
  listed (readers m) repo user.

Definition hasWriteAccess (m : ManagerState) (repo user : string) : bool :=
  listed (writers m) repo user.

(** Modelled from the spec: [getRefs], "read-only, reflect the latest
    committed state". *)
Definition getRefs (m : ManagerState) (repo : string) : list GitRef :=
  omap
    (fun kv =>
       if String.eqb (fst (fst kv)) repo
       then Some {| ref_oid := tipCommitOid (snd kv);
                    ref_name := String.append "refs/heads/" (snd (fst kv)) |}
       else None)
    (map_to_list (branches m)).

Definition setTip (m : ManagerState) (repo name newOid pusher : string)
  : ManagerState :=
  {| repositories := repositories m;
     readers := readers m;
     writers := writers m;
     branches := <[(repo, name) := {| tipCommitOid := newOid; lastPusher := pusher |}]>
                   (branches m) |}.

(** Modelled from the spec: [pushBranch], which "succeeds only if the
    branch's current tip equals expectedOldOid (or the branch is absent
    and expectedOldOid is the 'zero oid' sentinel meaning create);
    otherwise fails with NonFastForwardOrRaceError".  The router passes
    [null] for the zero oid. *)
Definition pushBranch (m : ManagerState) (repo name newOid : string)
    (expectedOldOid : option string) (commitCount : Z) (pusher : string)
  : Result ManagerState :=
  match branches m !! (repo, name), expectedOldOid with
  | None, None => Val (setTip m repo name newOid pusher)
  | Some b, Some old =>
      if String.eqb (tipCommitOid b) old
      then Val (setTip m repo name newOid pusher)
      else Exn NonFastForwardOrRaceError
  | _, _ => Exn NonFastForwardOrRaceError
  end.

End RefManager.

(** The packfile codec compresses and checksums; it stays a parameter. *)
Record PackCodec := {
  pack_create : gmap string GitObject -> list string -> Result Buffer;
  pack_extract : gmap string GitObject -> Buffer -> gmap string GitObject * option string;
}.

Definition specBackend (pk : PackCodec) : Backend := {|
  Manager := ManagerState;
  Store := gmap string GitObject;
  getRepositoryByName := RefManager.getRepositoryByName;
  hasReadAccess := RefManager.hasReadAccess;
  hasWriteAccess := RefManager.hasWriteAccess;
  getRefs := RefManager.getRefs;
  pushBranch := RefManager.pushBranch;
  getReachableObjects := ObjectStore.getReachableObjects;
  walkCommits := ObjectStore.walkCommits;
  createPackfile := pack_create pk;
  extractPackfile := pack_extract pk;
|}.

(** ** A small repository, for running the handlers *)

Module Demo.

(** A pack codec that stands in for the real one: the pack of a list of
    oids is the marker followed by the oids, and a buffer is accepted as a
    pack when it starts with the marker. *)
Definition pack : PackCodec := {|
  pack_create := fun _ oids =>
    Val (bufferFrom "PACK" ++ concat (map bufferFrom oids));
  pack_extract := fun store data =>
    if isPrefixOf (bufferFrom "PACK") data then (store, None)
    else (store, Some CorruptPackError);
|}.

Definition backend : Backend := specBackend pack.

(** A 40-digit oid from two digits. *)
Definition oid40 (d : string) : string :=
  Nat.iter 20 (String.append d) EmptyString.

Definition c1 : string := oid40 "c1".
Definition c2 : string := oid40 "c2".
Definition c3 : string := oid40 "c3".
Definition t1 : string := oid40 "e1".
Definition t2 : string := oid40 "e2".
Definition b1 : string := oid40 "b1".
Definition b2 : string := oid40 "b2".

Definition commit (oid tree_ : string) (parents_ : list string) (msg : string)
  : GitObject :=
  CommitObject {| commit_oid := oid; tree := tree_; parents := parents_;
                  author := "alice"; committer := "alice"; message := msg |}.

Definition file (oid : string) : TreeEntry :=
  {| entry_mode := "100644"; entry_name := "README"; entry_type := "blob";
     entry_oid := oid |}.

(** The chain [c1 <- c2]: each commit has a tree with one blob. *)
Definition store : gmap string GitObject :=
  list_to_map
    [(c1, commit c1 t1 [] "first");
     (t1, Tree [file b1]);
     (b1, Blob (bufferFrom "one"));
     (c2, commit c2 t2 [c1] "second");
     (t2, Tree [file b2]);
     (b2, Blob (bufferFrom "two"))].

Definition alice : string := "0xa11ce".

Definition publicRepo : Repository := {| repoId := "0x01"; visibility := 0 |}.
Definition privateRepo : Repository := {| repoId := "0x02"; visibility := 1 |}.

(** [alice] owns both repositories and may write to them; nobody else is
    listed.  Each repository has a branch [main] at [c1]; the public one
    also has [dev] at [c2]. *)
Definition registry : ManagerState := {|
  repositories := [(alice, "open", publicRepo); (alice, "closed", privateRepo)];
  readers := [("0x02", alice)];
  writers := [("0x01", alice); ("0x02", alice)];
  branches :=
    list_to_map
      [(("0x01", "main"), {| tipCommitOid := c1; lastPusher := alice |});
       (("0x01", "dev"), {| tipCommitOid := c2; lastPusher := alice |});
       (("0x02", "main"), {| tipCommitOid := c1; lastPusher := alice |})];
|}.

Definition world : World backend :=
  Build_World (B := backend) registry (fun _ => store).

Definition request (owner name : string) (service user : option string)
    (data : Buffer) : Request :=
  {| param_owner := owner; param_name := name; query_service := service;
     header_address := user; arrayBuffer := data |}.

(** A request body: pkt-lines, a flush-pkt, and what follows. *)
Definition pktBody (lines : list string) (tail : Buffer) : Buffer :=
  concat (map PktLine.createPktLine lines) ++ PktLine.createFlushPkt ++ tail.

Definition command (old new refname : string) : string :=
  String.append old (String.append " " (String.append new (String.append " " refname))).

(** Requests. *)

Definition fetchAdvert (name : string) (user : option string) : Request :=
  request alice name (Some "git-upload-pack") user [].

Definition fetch (name : string) (user : option string) (lines : list string) : Request :=
  request alice name None user (concat (map PktLine.createPktLine lines)).

Definition push (name : string) (user : option string) (data : Buffer) : Request :=
  request alice name None user data.

Definition want (oid : string) : string := String.append "want " oid.
Definition have (oid : string) : string := String.append "have " oid.

(** Two commands and a pack: [main] from a tip it does not have, and a
    new branch [feature]. *)
Definition stalePush : Buffer :=
  pktBody [command c3 c2 "refs/heads/main"; command zeroOid c2 "refs/heads/feature"]
    (bufferFrom "PACK").

(** A push of [main] from its tip. *)
Definition goodPush : Buffer :=
  pktBody [command c1 c2 "refs/heads/main"] (bufferFrom "PACK").


End Demo.

(** ** Notions used to state the properties of the parsing loops *)

(** The character [c] does not occur in [s]. *)
Definition noChar (c : ascii) (s : string) : bool :=
  allChars (fun x => negb (Ascii.eqb x c)) s.

(** An object id as the regular expression of a command wants it: 40
    lowercase hexadecimal digits. *)
Definition isOid (s : string) : bool :=
  (String.length s =? 40)%nat && allChars isLowerHex s.

(** What may follow a field of a line: nothing, or the separator [sep] and
    whatever comes after it (the capabilities). *)
Definition emptyOrFrom (sep : ascii) (tail : string) : bool :=
  match tail with
  | EmptyString => true
  | String c _ => Ascii.eqb c sep
  end.

(** The status line that a report has for a command. *)
Definition reportLine (u : Update) : string :=
  if startsWith (refName u) "refs/heads/"
  then String.append "ok " (refName u)
  else String.append "ng " (String.append (refName u) " Only branch updates supported").

(** A [want] and a [have] line of a fetch request, with what follows the
    oid. *)
Definition wantLine (oid tail : string) : string :=
  String.append "want " (String.append oid tail).

Definition haveLine (oid tail : string) : string :=
  String.append "have " (String.append oid tail).

(** The text of [s] before the first [c]: all of [s] when it has none. *)
Fixpoint untilChar (c : ascii) (s : string) : string :=
  match s with
  | EmptyString => EmptyString
  | String x s' => if Ascii.eqb x c then EmptyString else String x (untilChar c s')
  end.

(** What a [want] or a [have] line names: the text after the keyword and
    its space (five characters), up to the next space or the end. *)
Definition oidAfter (line : string) : string := untilChar SPACE (dropString 5 line).

Definition isWantLine (line : string) : bool := String.prefix "want " line.
Definition isHaveLine (line : string) : bool := String.prefix "have " line.

(** The wants and the haves of a fetch request, read off its lines: the
    oids of the [want] lines, and those of the [have] lines, in the order
    of the lines. *)
Definition wantedOids (lines : list string) : list string :=
  map oidAfter (List.filter isWantLine lines).

Definition haveOids (lines : list string) : list string :=
  map oidAfter (List.filter isHaveLine lines).

(** The second argument of [pushBranch] for a command: [null] for the zero
    oid. *)
Definition expectedOld (u : Update) : option string :=
  if String.eqb (oldOid u) zeroOid then None else Some (oldOid u).

(** The calls of one turn of the loop over the commands, on the object
    store [st]: none for a ref that is not a branch; for a branch, the walk
    of the new commits, the update of the branch, and the contribution
    record. *)
Definition loopCalls (B : Backend) (st : Store B) (repo : Repository)
    (name user : string) (u : Update) : list Event :=
  if branchUpdate u then
    let commits := walkCommits B st (newOid u) 100 in
    let branch := replace "refs/heads/" "" (refName u) in
    [WalkCommits (repoId repo) (newOid u) 100;
     PushBranch (repoId repo) branch (newOid u) (expectedOld u)
       (Z.of_nat (length commits)) user;
     TrackGitContribution user (repoId repo) name "commit" branch
       (Z.of_nat (length commits)) (pushSummary commits)]
  else [].

Definition isAccessCheck (e : Event) : bool :=
  match e with
  | HasReadAccess _ _ | HasWriteAccess _ _ => true
  | _ => false
  end.

(** ** The browsing route [GET /:owner/:name/contents/*] *)

(** [s.split(sep)] for a separator of one character or more.  [skip] counts
    the characters of a separator just found that are still to be passed. *)
Fixpoint splitOnFrom (sep : string) (skip : nat) (s : string) : list string :=
  match s with
  | EmptyString => [EmptyString]
  | String c s' =>
      match skip with
      | S k => splitOnFrom sep k s'
      | O =>
          if String.prefix sep s
          then EmptyString :: splitOnFrom sep (String.length sep - 1) s'
          else
            match splitOnFrom sep 0 s' with
            | seg :: segs => String c seg :: segs
            | [] => [String c EmptyString]
            end
      end
  end.

Definition splitOn (sep s : string) : list string := splitOnFrom sep 0 s.

(** [s.slice(from, to)] for [0 <= from <= to]. *)
Definition slice (from to : nat) (s : string) : string :=
  substring from (to - from) s.

Definition SLASH : ascii := ascii_of_nat 47.

(** The values that [c.json] is given. *)
#[warnings="-register-all"] Inductive Json :=
  | JString (s : string)
  | JNumber (n : Z)
  | JArray (items : list Json)
  | JObject (fields : list (string * Json)).

Record JsonResponse := {
  json_status : Z;
  json_body : Json;
}.

(** [c.json(value, code)]; the code is 200 when it is left out. *)
Definition json (value : Json) (code : Z) : JsonResponse :=
  {| json_status := code; json_body := value |}.

Definition jsonError (msg : string) (code : Z) : JsonResponse :=
  json (JObject [("error", JString msg)]) code.

(** What the handler reads of a branch. *)
Record BranchRecord := {
  tipCommitCid : string;
}.

(** The collaborators of the browsing route: [getBranch] of the repository
    manager, the typed getters of the object store ([null] when the object
    is missing; of a tree and a blob the handler reads [entries] and
    [content]), and the two encoders of [Buffer.toString]. *)
Record Browser (B : Backend) := {
  getBranch : Manager B -> string -> string -> option BranchRecord;
  getCommit : Store B -> string -> option Commit;
  getTree : Store B -> string -> option (list TreeEntry);
  getBlob : Store B -> string -> option Buffer;
  toUtf8 : Buffer -> string;
  toBase64 : Buffer -> string;
}.

Arguments getBranch {B} _ _ _ _.
Arguments getCommit {B} _ _ _.
Arguments getTree {B} _ _ _.
Arguments getBlob {B} _ _ _.
Arguments toUtf8 {B} _ _.
Arguments toBase64 {B} _ _.

(** The calls of the browsing route: those of the git endpoints, and the
    getters. *)
Inductive Call :=
  | Core (e : Event)
  | GetBranch (repo ref : string)
  | GetCommit (repo oid : string)
  | GetTree (repo oid : string)
  | GetBlob (repo oid : string).

(** The request, as far as the handler reads it: the two route parameters,
    [c.req.path] and the query parameter [ref]. *)
Record BrowseRequest := {
  browse_owner : string;
  browse_name : string;
  browse_path : string;
  browse_ref : option string;
}.

(** [c.req.path.split('/contents/')[1] || '']. *)
Definition contentsPath (path : string) : string :=
  nth 1 (splitOn "/contents/" path) EmptyString.

(** [path.split('/').filter(Boolean)]. *)
Definition pathParts (path : string) : list string :=
  List.filter (fun p => negb (String.eqb p "")) (split SLASH path).

(** [e.name === part && e.type === 'tree']. *)
Definition isTreeNamed (part : string) (e : TreeEntry) : bool :=
  String.eqb (entry_name e) part && String.eqb (entry_type e) "tree".

(** [e.name === targetName]. *)
Definition isNamed (targetName : string) (e : TreeEntry) : bool :=
  String.eqb (entry_name e) targetName.

(** An entry of a directory listing. *)
Definition entryJson (e : TreeEntry) : Json :=
  JObject [("name", JString (entry_name e));
           ("type", JString (if String.eqb (entry_type e) "tree" then "dir" else "file"));
           ("oid", JString (entry_oid e));
           ("mode", JString (entry_mode e))].

Definition dirJson (path : string) (entries : list TreeEntry) : Json :=
  JObject [("type", JString "dir");
           ("path", JString path);
           ("entries", JArray (map entryJson entries))].

(** [!blob.content.includes(0)]. *)
Definition isText (content : Buffer) : bool :=
  negb (existsb (Byte.eqb Byte.x00) content).

Section Contents.
Context (B : Backend) (R : Browser B).

(** A route handler reads the world; it either returns a reply early or
    goes on with a value.  The calls are logged in order. *)
Definition Route (A : Type) : Type := World B -> (JsonResponse + A) * list Call.

Definition continue {A} (a : A) : Route A := fun _ => (inr a, []).

(** [return c.json(...)]. *)
Definition reply {A} (r : JsonResponse) : Route A := fun _ => (inl r, []).

Definition andThen {A A'} (m : Route A) (k : A -> Route A') : Route A' :=
  fun w =>
    match m w with
    | (inr a, c1) => let '(r, c2) := k a w in (r, c1 ++ c2)
    | (inl r, c1) => (inl r, c1)
    end.

Local Notation "x <- m ;; k" := (andThen m (fun x => k))
  (at level 100, m at next level, right associativity).

(** [const x = await call; if (!x) return c.json({ error: msg }, 404);]. *)
Definition required {A} (call : World B -> option A * Call) (msg : string) : Route A :=
  fun w =>
    match call w with
    | (Some a, c) => (inr a, [c])
    | (None, c) => (inl (jsonError msg 404), [c])
    end.

Definition lookupRepository (owner name : string) (w : World B)
  : option Repository * Call :=
  (getRepositoryByName B (manager w) owner name, Core (GetRepositoryByName owner name)).

Definition repoManager_getBranch (repo ref : string) (w : World B)
  : option BranchRecord * Call :=
  (getBranch R (manager w) repo ref, GetBranch repo ref).

Definition objectStore_getCommit (repo oid : string) (w : World B)
  : option Commit * Call :=
  (getCommit R (objects w repo) oid, GetCommit repo oid).

Definition objectStore_getTree (repo oid : string) (w : World B)
  : option (list TreeEntry) * Call :=
  (getTree R (objects w repo) oid, GetTree repo oid).

Definition objectStore_getBlob (repo oid : string) (w : World B)
  : option Buffer * Call :=
  (getBlob R (objects w repo) oid, GetBlob repo oid).

(** The reply for a file. *)
Definition fileJson (path oid : string) (content : Buffer) : Json :=
  JObject [("type", JString "file");
           ("path", JString path);
           ("oid", JString oid);
           ("size", JNumber (Z.of_nat (length content)));
           ("content", JString (if isText content then toUtf8 R content
                                else toBase64 R content));
           ("encoding", JString (if isText content then "utf-8" else "base64"))].

(** The [for] loop over all the parts of the path but the last. *)
Fixpoint descend (repo : string) (currentTree : list TreeEntry) (dirs : list string)
  : Route (list TreeEntry) :=
  match dirs with
  | [] => continue currentTree
  | part :: rest =>
      match List.find (isTreeNamed part) currentTree with
      | None => reply (jsonError "Path not found" 404)
      | Some entry =>
          nextTree <- required (objectStore_getTree repo (entry_oid entry)) "Tree not found" ;;
          descend repo nextTree rest
      end
  end.

(** The handler from [const pathParts = ...] on. *)
Definition listPath (repo path : string) (root : list TreeEntry) : Route JsonResponse :=
  let pathParts := pathParts path in
  currentTree <- descend repo root (removelast pathParts) ;;
  if (length pathParts =? 0)%nat
  then continue (json (dirJson "" currentTree) 200)
  else
    let targetName := List.last pathParts EmptyString in
    match List.find (isNamed targetName) currentTree with
    | None => reply (jsonError "Path not found" 404)
    | Some target =>
        if String.eqb (entry_type target) "tree" then
          tree <- required (objectStore_getTree repo (entry_oid target)) "Tree not found" ;;
          continue (json (dirJson path tree) 200)
        else
          blob <- required (objectStore_getBlob repo (entry_oid target)) "Blob not found" ;;
          continue (json (fileJson path (entry_oid target) blob) 200)
    end.

Definition contents (req : BrowseRequest) : Route JsonResponse :=
  let owner := browse_owner req in
  let name := browse_name req in
  let path := contentsPath (browse_path req) in
  let ref := if falsy (browse_ref req) then "main"
             else default EmptyString (browse_ref req) in
  repo <- required (lookupRepository owner name) "Repository not found" ;;
  branch <- required (repoManager_getBranch (repoId repo) ref) "Branch not found" ;;
  commit <- required (objectStore_getCommit (repoId repo)
                        (slice 2 42 (tipCommitCid branch))) "Commit not found" ;;
  currentTree <- required (objectStore_getTree (repoId repo) (tree commit))
                   "Tree not found" ;;
  listPath (repoId repo) path currentTree.

(** The reply of a handler and the calls it made. *)
Definition served (m : Route JsonResponse) (w : World B) : JsonResponse * list Call :=
  match m w with
  | (inl r, c) => (r, c)
  | (inr r, c) => (r, c)
  end.

(** [dirs] leads from the tree [t] to the tree [t'] of the store [st]: each
    part names an entry of type [tree] of the tree reached so far (the
    first one with that name and type), and the store has the tree of that
    entry. *)
Inductive leadsTo (st : Store B) : list TreeEntry -> list string -> list TreeEntry -> Prop :=
  | leadsTo_here (t : list TreeEntry) : leadsTo st t [] t
  | leadsTo_down (t : list TreeEntry) (part : string) (entry : TreeEntry)
      (next : list TreeEntry) (rest : list string) (t' : list TreeEntry) :
      List.find (isTreeNamed part) t = Some entry ->
      getTree R st (entry_oid entry) = Some next ->
      leadsTo st next rest t' ->
      leadsTo st t (part :: rest) t'.

(** The request reaches the root tree of the tip of its branch: the
    repository, the branch, the commit of its tip and the tree of that
    commit are all found. *)
Definition reachesRoot (req : BrowseRequest) (w : World B) (repo : Repository)
    (branch : BranchRecord) (commit : Commit) (root : list TreeEntry) : Prop :=
  getRepositoryByName B (manager w) (browse_owner req) (browse_name req) = Some repo
  /\ getBranch R (manager w) (repoId repo)
       (if falsy (browse_ref req) then "main" else default EmptyString (browse_ref req))
     = Some branch
  /\ getCommit R (objects w (repoId repo)) (slice 2 42 (tipCommitCid branch)) = Some commit
  /\ getTree R (objects w (repoId repo)) (tree commit) = Some root.

(** The four calls with which the handler reaches the root tree. *)
Definition rootCalls (req : BrowseRequest) (repo : Repository) (branch : BranchRecord)
    (commit : Commit) : list Call :=
  [Core (GetRepositoryByName (browse_owner req) (browse_name req));
   GetBranch (repoId repo)
     (if falsy (browse_ref req) then "main" else default EmptyString (browse_ref req));
   GetCommit (repoId repo) (slice 2 42 (tipCommitCid branch));
   GetTree (repoId repo) (tree commit)].

End Contents.

(** The separator [sep] occurs in [s]. *)
Fixpoint occurs (sep s : string) : bool :=
  String.prefix sep s
  || match s with
     | EmptyString => false
     | String _ s' => occurs sep s'
     end.

(** A call that asks for an access decision. *)
Definition isAccessCall (c : Call) : bool :=
  match c with
  | Core e => isAccessCheck e
  | _ => false
  end.

(** A part of a path: not empty, no slash. *)
Definition isPart (p : string) : Prop := p <> EmptyString /\ noChar SLASH p = true.

(** A path of slashes only. *)
Definition onlySlashes (path : string) : bool :=
  allChars (fun c => Ascii.eqb c SLASH) path.

(** ** A small tree, for running the browsing route *)

Module DemoTree.
Import Demo.

(** The tip of a branch as the handler expects it: [0x], the 40 digits of
    the commit oid, and padding to 32 bytes. *)
Definition cidOf (oid : string) : string :=
  String.append "0x" (String.append oid (repeatString "0" 24)).

(** Getters that stand in for those of the repository manager and the
    object store, over the object model of the specification.  The base64
    encoder is a stand-in that marks the content. *)
Definition demoBranch (m : ManagerState) (repo ref_ : string) : option BranchRecord :=
  (fun b => {| tipCommitCid := cidOf (tipCommitOid b) |}) <$> branches m !! (repo, ref_).

Definition demoCommit (st : gmap string GitObject) (oid : string) : option Commit :=
  match st !! oid with Some (CommitObject c) => Some c | _ => None end.

Definition demoTree (st : gmap string GitObject) (oid : string) : option (list TreeEntry) :=
  match st !! oid with Some (Tree entries) => Some entries | _ => None end.

Definition demoBlob (st : gmap string GitObject) (oid : string) : option Buffer :=
  match st !! oid with Some (Blob content) => Some content | _ => None end.

Definition browser : Browser backend :=
  Build_Browser backend demoBranch demoCommit demoTree demoBlob
    bufferToString (fun content => String.append "base64:" (bufferToString content)).

Definition r1 : string := oid40 "a1".
Definition d1 : string := oid40 "d1".
Definition b3 : string := oid40 "b3".

Definition entry (mode name type_ oid : string) : TreeEntry :=
  {| entry_mode := mode; entry_name := name; entry_type := type_; entry_oid := oid |}.

Definition rootTree : list TreeEntry :=
  [entry "040000" "docs" "tree" d1;
   entry "100644" "README" "blob" b1;
   entry "100644" "logo" "blob" b3].

Definition docsTree : list TreeEntry := [entry "100644" "guide" "blob" b2].

Definition firstCommit : Commit :=
  {| commit_oid := c1; tree := r1; parents := []; author := "alice";
     committer := "alice"; message := "first" |}.

(** One commit [c1]; its tree has the directory [docs] with the file
    [guide], the text file [README] and the binary file [logo]. *)
Definition store : gmap string GitObject :=
  list_to_map
    [(c1, CommitObject firstCommit);
     (r1, Tree rootTree);
     (d1, Tree docsTree);
     (b1, Blob (bufferFrom "one"));
     (b2, Blob (bufferFrom "two"));
     (b3, Blob [Byte.x00; Byte.x01])].

(** The registry of [Demo], where [main] is at [c1] in both repositories. *)
Definition world : World backend :=
  Build_World (B := backend) registry (fun _ => store).

(** A request for [path] in the repository [name] of [alice]. *)
Definition browse (name path : string) (ref_ : option string) : BrowseRequest :=
  {| browse_owner := alice; browse_name := name;
     browse_path :=
       String.append "/"
         (String.append alice
            (String.append "/" (String.append name (String.append "/contents/" path))));
     browse_ref := ref_ |}.

Definition mainBranch : BranchRecord := {| tipCommitCid := cidOf c1 |}.

End DemoTree.

(** ** More requests on the small repository *)

Module DemoPush.
Import Demo.

(** A requester who is on no access list. *)
Definition bob : string := "0xb0b".

Definition pushAdvert (name : string) (user : option string) : Request :=
  request alice name (Some "git-receive-pack") user [].

(** The commands of [stalePush], parsed. *)
Definition staleMain : Update :=
  {| oldOid := c3; newOid := c2; refName := "refs/heads/main" |}.

Definition createFeature : Update :=
  {| oldOid := zeroOid; newOid := c2; refName := "refs/heads/feature" |}.

(** The first command of a push, as a client sends it: the capabilities
    follow the ref name after a NUL. *)
Definition firstCommand : string :=
  command c1 c2 (String.append "refs/heads/main" (String NUL "report-status side-band-64k")).

End DemoPush.

(** ** A pack codec that stores *)

Module DemoUnpack.
Import Demo.

Definition t3 : string := oid40 "e3".
Definition b9 : string := oid40 "b9".

(** The objects of a third commit [c3] on top of [c2]. *)
Definition incoming : gmap string GitObject :=
  list_to_map
    [(c3, commit c3 t3 [c2] "third");
     (t3, Tree [file b9]);
     (b9, Blob (bufferFrom "three"))].

(** A stand-in for the pack codec whose [extractPackfile] does store: a
    buffer that starts with the marker brings the objects [incoming]. *)
Definition pack : PackCodec := {|
  pack_create := pack_create Demo.pack;
  pack_extract := fun store data =>
    if isPrefixOf (bufferFrom "PACK") data then (incoming ∪ store, None)
    else (store, Some CorruptPackError);
|}.

Definition backend : Backend := specBackend pack.

Definition world : World backend :=
  Build_World (B := backend) registry (fun _ => store).

(** A push of [main] from its tip [c1] to the new commit [c3], which is
    in the pack and not in the store. *)
Definition newTip : Buffer :=
  pktBody [command c1 c3 "refs/heads/main"] (bufferFrom "PACK").


End DemoUnpack.

(** * Properties *)

(** ** Buffers *)

Lemma bufferToString_from (s : string) : bufferToString (bufferFrom s) = s.
Proof. apply string_of_list_byte_of_string. Qed.

Lemma bufferFrom_toString (b : Buffer) : bufferFrom (bufferToString b) = b.
Proof. apply list_byte_of_string_of_list_byte. Qed.

Lemma bufferFrom_length (s : string) :
  length (bufferFrom s) = String.length s.
Proof.
  unfold bufferFrom, list_byte_of_string. rewrite length_map.
  induction s as [|c s IH]; simpl; [reflexivity | now rewrite IH].
Qed.

(** ** The pkt-line codec *)

Module PktLineFacts.
Import PktLine.

(** *** Hexadecimal length fields *)

Lemma hexVal_hexDigit (d : Z) : isDigit16 d -> hexVal (hexDigit d) = Some d.
Proof.
  intros [Hlo Hhi].
  assert (Hd : exists k : nat, d = Z.of_nat k /\ (k < 16)%nat).
  { exists (Z.to_nat d). lia. }
  destruct Hd as (k & -> & Hk).
  do 16 (destruct k as [|k]; [reflexivity |]). lia.
Qed.

Lemma digits16_acc (fuel : nat) : forall n acc,
  digits16 fuel n acc = digits16 fuel n [] ++ acc.
Proof.
  induction fuel as [|f IH]; intros n acc; simpl; [reflexivity |].
  destruct (n / 16 =? 0); [reflexivity |].
  rewrite (IH _ (n mod 16 :: acc)), (IH _ [n mod 16]).
  now rewrite <- app_assoc.
Qed.

Lemma digits16_range (fuel : nat) : forall n,
  Forall isDigit16 (digits16 fuel n []).
Proof.
  induction fuel as [|f IH]; intros n; simpl; [constructor |].
  assert (Hd : isDigit16 (n mod 16)) by (apply Z.mod_pos_bound; lia).
  assert (H1 : Forall isDigit16 [n mod 16]) by (constructor; [exact Hd | constructor]).
  destruct (n / 16 =? 0); [exact H1 |].
  rewrite digits16_acc. apply Forall_app. split; [apply IH | exact H1].
Qed.

Lemma fromDigits_snoc (l : list Z) (d : Z) :
  fromDigits (l ++ [d]) = 16 * fromDigits l + d.
Proof. unfold fromDigits. now rewrite fold_left_app. Qed.

Lemma digits16_value (fuel : nat) : forall n,
  0 <= n < 16 ^ Z.of_nat fuel -> fromDigits (digits16 fuel n []) = n.
Proof.
  induction fuel as [|f IH]; intros n Hn.
  - simpl in *. unfold fromDigits. simpl. lia.
  - rewrite Nat2Z.inj_succ, Z.pow_succ_r in Hn by lia.
    simpl. pose proof (Z.div_mod n 16 ltac:(lia)) as Hdm.
    destruct (n / 16 =? 0) eqn:Hq.
    + apply Z.eqb_eq in Hq. unfold fromDigits. simpl. lia.
    + rewrite digits16_acc, fromDigits_snoc, IH; [lia |].
      split; [apply Z.div_pos; lia | apply Z.div_lt_upper_bound; lia].
Qed.

Lemma digits16_length (fuel : nat) : forall (k : nat) n,
  0 <= n < 16 ^ Z.of_nat (S k) -> (length (digits16 fuel n []) <= S k)%nat.
Proof.
  induction fuel as [|f IH]; intros k n Hn; simpl; [lia |].
  destruct (n / 16 =? 0) eqn:Hq; [simpl; lia |].
  apply Z.eqb_neq in Hq.
  rewrite digits16_acc, length_app. simpl.
  rewrite Nat2Z.inj_succ, Z.pow_succ_r in Hn by lia.
  destruct k as [|k].
  - exfalso. apply Hq. apply Z.div_small. simpl in Hn. lia.
  - specialize (IH k (n / 16)).
    assert (0 <= n / 16 < 16 ^ Z.of_nat (S k)).
    { split; [apply Z.div_pos; lia | apply Z.div_lt_upper_bound; lia]. }
    lia.
Qed.

Lemma log2_fuel (n : Z) : 0 <= n -> n < 16 ^ Z.of_nat (S (Z.to_nat (Z.log2 n))).
Proof.
  intros Hn. destruct (Z.eq_dec n 0) as [-> | Hne]; [reflexivity |].
  pose proof (Z.log2_nonneg n) as Hl.
  rewrite Nat2Z.inj_succ, Z2Nat.id by lia.
  destruct (Z.log2_spec n ltac:(lia)) as [_ Hup].
  eapply Z.lt_le_trans; [exact Hup |].
  apply Z.pow_le_mono_l. lia.
Qed.

Lemma fromDigits_zeros (k : nat) (l : list Z) :
  fromDigits (repeat 0 k ++ l) = fromDigits l.
Proof.
  unfold fromDigits. rewrite fold_left_app. f_equal.
  induction k as [|k IH]; simpl; [reflexivity | exact IH].
Qed.

(** The length field written by [createPktLine] is four digits that read
    back as the number, as long as the number fits four digits. *)
Lemma header_digits (n : Z) :
  0 <= n < 65536 ->
  exists a b c d,
    padStart 4 "0"%byte (toHex n) = [hexDigit a; hexDigit b; hexDigit c; hexDigit d]
    /\ isDigit16 a /\ isDigit16 b /\ isDigit16 c /\ isDigit16 d
    /\ ((a * 16 + b) * 16 + c) * 16 + d = n.
Proof.
  intros Hn. unfold padStart, toHex.
  set (ds := digits16 _ n []).
  assert (Hlen : (length ds <= 4)%nat).
  { apply digits16_length. change (16 ^ Z.of_nat 4) with 65536. lia. }
  assert (Hval : fromDigits ds = n).
  { apply digits16_value. split; [lia | apply log2_fuel; lia]. }
  assert (Hrng : Forall isDigit16 ds) by apply digits16_range.
  rewrite length_map.
  change "0"%byte with (hexDigit 0). rewrite <- (map_repeat 0 _ hexDigit), <- map_app.
  set (l := repeat 0 (4 - length ds) ++ ds).
  assert (Hl4 : length l = 4%nat).
  { unfold l. rewrite length_app, repeat_length. lia. }
  assert (Hlv : fromDigits l = n) by (unfold l; now rewrite fromDigits_zeros).
  assert (Hlr : Forall isDigit16 l).
  { unfold l. apply Forall_app. split; [| exact Hrng].
    apply Forall_forall. intros x Hx. apply list_elem_of_In, repeat_spec in Hx.
    subst x. unfold isDigit16. lia. }
  destruct l as [|a [|b [|c [|d [|e l']]]]]; try discriminate Hl4.
  exists a, b, c, d. split; [reflexivity |].
  inversion_clear Hlr as [|? ? Ha Hlr1]. inversion_clear Hlr1 as [|? ? Hb Hlr2].
  inversion_clear Hlr2 as [|? ? Hc Hlr3]. inversion_clear Hlr3 as [|? ? Hd _].
  unfold fromDigits in Hlv. simpl in Hlv. unfold isDigit16 in *. lia.
Qed.

Lemma parseLen_header (a b c d : Z) :
  isDigit16 a -> isDigit16 b -> isDigit16 c -> isDigit16 d ->
  parseLen (hexDigit a) (hexDigit b) (hexDigit c) (hexDigit d)
  = Some (((a * 16 + b) * 16 + c) * 16 + d).
Proof.
  intros Ha Hb Hc Hd. unfold parseLen.
  now rewrite !hexVal_hexDigit.
Qed.

(** One encoded line in front of a buffer is read back as that line. *)
Lemma parsePktLinesFuel_line (fuel : nat) (s : string) (rest : Buffer) :
  Z.of_nat (String.length s) <= maxPayload ->
  parsePktLinesFuel (S fuel) (createPktLine s ++ rest)
  = rmap (cons s) (parsePktLinesFuel fuel rest).
Proof.
  unfold maxPayload. intros Hs. unfold createPktLine.
  destruct (header_digits (Z.of_nat (String.length s) + 4) ltac:(lia))
    as (a & b & c & d & -> & Ha & Hb & Hc & Hd & Hv).
  cbn [app parsePktLinesFuel].
  rewrite parseLen_header, Hv by assumption.
  destruct (Z.eqb_spec (Z.of_nat (String.length s) + 4) 0) as [|_]; [lia |].
  destruct (Z.ltb_spec (Z.of_nat (String.length s) + 4) 4) as [|_]; [lia |].
  destruct (Z.ltb_spec 65520 (Z.of_nat (String.length s) + 4)) as [|_]; [lia |].
  cbn [orb].
  replace (Z.to_nat (Z.of_nat (String.length s) + 4 - 4)) with (length (bufferFrom s))
    by (rewrite bufferFrom_length; lia).
  destruct (Nat.ltb_spec (length (bufferFrom s ++ rest)) (length (bufferFrom s)))
    as [Hlt|_]; [rewrite length_app in Hlt; lia |].
  rewrite take_app_length, drop_app_length, bufferToString_from. reflexivity.
Qed.

Lemma parsePktLinesFuel_lines (seq : list string) : forall fuel,
  (length seq <= fuel)%nat ->
  Forall (fun s => Z.of_nat (String.length s) <= maxPayload) seq ->
  parsePktLinesFuel fuel (concat (map createPktLine seq)) = Val seq.
Proof.
  induction seq as [|s seq IH]; intros fuel Hf Hall.
  - destruct fuel; reflexivity.
  - destruct fuel as [|fuel]; [simpl in Hf; lia |].
    inversion Hall as [|? ? Hs Hall']; subst.
    cbn [map concat]. rewrite parsePktLinesFuel_line by exact Hs.
    rewrite IH; [reflexivity | simpl in Hf; lia | exact Hall'].
Qed.

Lemma createPktLine_length (s : string) :
  (4 <= length (createPktLine s))%nat.
Proof.
  unfold createPktLine, padStart. rewrite !length_app, repeat_length. lia.
Qed.

Lemma concat_createPktLine_length (seq : list string) :
  (length seq <= length (concat (map createPktLine seq)))%nat.
Proof.
  induction seq as [|s seq IH]; simpl; [lia |].
  rewrite length_app. pose proof (createPktLine_length s). lia.
Qed.

(** The fuel of [parsePktLines] is never exhausted: any fuel that covers the
    buffer gives the same result. *)
Lemma parsePktLinesFuel_enough (fuel : nat) : forall fuel' buf,
  (length buf <= fuel)%nat -> (length buf <= fuel')%nat ->
  parsePktLinesFuel fuel buf = parsePktLinesFuel fuel' buf.
Proof.
  induction fuel as [|f IH]; intros fuel' buf Hf Hf'.
  - destruct buf; [destruct fuel'; reflexivity | simpl in Hf; lia].
  - destruct buf as [|b3 [|b2 [|b1 [|b0 rest]]]];
      try (destruct fuel'; reflexivity).
    destruct fuel' as [|f']; [simpl in Hf'; lia |].
    cbn [parsePktLinesFuel].
    destruct (parseLen b3 b2 b1 b0) as [n|]; [| reflexivity].
    destruct (n =? 0); [reflexivity |].
    destruct ((n <? 4) || (65520 <? n)); [reflexivity |].
    destruct (length rest <? Z.to_nat (n - 4))%nat; [reflexivity |].
    f_equal. apply IH; rewrite length_drop; simpl in Hf, Hf'; lia.
Qed.

Lemma isAsciiNoNul_repeat (c : ascii) (n : nat) :
  (0 < nat_of_ascii c < 128)%nat -> isAsciiNoNul (repeatString c n).
Proof.
  intros Hc. unfold isAsciiNoNul.
  induction n as [|n IH]; simpl; constructor; assumption.
Qed.

Lemma repeatString_length (c : ascii) (n : nat) :
  String.length (repeatString c n) = n.
Proof. induction n as [|n IH]; simpl; [reflexivity | now rewrite IH]. Qed.

(** The round trip, for lines that fit the length field. *)
Lemma parsePktLines_lines (seq : list string) :
  Forall (fun s => Z.of_nat (String.length s) <= maxPayload) seq ->
  parsePktLines (concat (map createPktLine seq)) = Val seq.
Proof.
  intros Hlen. unfold parsePktLines.
  apply parsePktLinesFuel_lines; [apply concat_createPktLine_length | exact Hlen].
Qed.

(** C8, as amended.  Pkt-line round trip: for every finite sequence of ASCII
    strings without embedded NULs, each of at most 65516 bytes (the largest
    payload of a pkt-line), [parsePktLines] applied to the concatenation of
    [createPktLine] applied to each element returns the sequence. *)
Theorem pktline_roundtrip (seq : list string) :
  Forall isAsciiNoNul seq ->
  Forall (fun s => Z.of_nat (String.length s) <= maxPayload) seq ->
  parsePktLines (concat (map createPktLine seq)) = Val seq.
Proof.
  intros _ Hlen. now apply parsePktLines_lines.
Qed.

Lemma pktline_roundtrip_witness :
  parsePktLines (concat (map createPktLine ["want me"; ""; "NAK"]))
  = Val ["want me"; ""; "NAK"].
Proof.
  apply pktline_roundtrip.
  - unfold isAsciiNoNul. repeat constructor; simpl; lia.
  - unfold maxPayload. repeat constructor; simpl; lia.
Defined.

(** C8, as stated, fails on a long string: the length of a line of 65532
    characters, plus four, needs five hexadecimal digits, and the four-digit
    length field that the parser reads is then that of another line. *)
Lemma pktline_roundtrip_long_line :
  isAsciiNoNul (repeatString "a" (Z.to_nat 65532))
  /\ parsePktLines (concat (map createPktLine [repeatString "a" (Z.to_nat 65532)]))
     <> Val [repeatString "a" (Z.to_nat 65532)].
Proof.
  split.
  - apply isAsciiNoNul_repeat. vm_compute. lia.
  - assert (H : parsePktLines (concat (map createPktLine [repeatString "a" (Z.to_nat 65532)]))
                = Exn MalformedRequestError) by (vm_compute; reflexivity).
    rewrite H. discriminate.
Qed.

(** The bound of the amended round trip is the largest payload: one more
    byte and the length field leaves the range that the parser accepts. *)
Lemma pktline_over_limit :
  parsePktLines (concat (map createPktLine [repeatString "a" (Z.to_nat 65517)]))
  = Exn MalformedRequestError.
Proof. vm_compute. reflexivity. Qed.

Lemma pktline_at_limit :
  parsePktLines (concat (map createPktLine [repeatString "a" (Z.to_nat 65516)]))
  = Val [repeatString "a" (Z.to_nat 65516)].
Proof.
  apply parsePktLines_lines.
  constructor; [| constructor]. rewrite repeatString_length. unfold maxPayload. lia.
Qed.

End PktLineFacts.
(** ** Strings: [startsWith] and [split] *)

Lemma startsWith_app (p : string) : forall s,
  startsWith s p = true -> exists rest, s = String.append p rest.
Proof.
  unfold startsWith. induction p as [|c p IH]; intros s H.
  - now exists s.
  - destruct s as [|d s]; [discriminate H |]. simpl in H.
    destruct (ascii_dec c d) as [<- | _]; [| discriminate H].
    destruct (IH s H) as [rest ->]. now exists rest.
Qed.

Lemma split_nonempty (sep : ascii) (s : string) : split sep s <> [].
Proof.
  destruct s as [|c s]; simpl; [discriminate |].
  destruct (Ascii.eqb c sep); [discriminate |].
  destruct (split sep s); discriminate.
Qed.

(** [s.split(sep)[0]] is always there. *)
Lemma split_first (sep : ascii) (s : string) :
  exists x, split sep s !! 0%nat = Some x.
Proof.
  pose proof (split_nonempty sep s). destruct (split sep s) as [|x l]; [easy |].
  now exists x.
Qed.

(** Under the guards of the loop over the lines, [line.split(' ')[1]] is
    there: the default of [secondField] is never taken. *)
Lemma secondField_defined (line : string) :
  startsWith line "want " = true \/ startsWith line "have " = true ->
  split SPACE line !! 1%nat = Some (secondField line).
Proof.
  unfold secondField.
  intros [H | H]; apply startsWith_app in H as [rest ->];
    pose proof (split_nonempty SPACE rest) as Hne.
  - simpl. change (String.append "" rest) with rest.
    destruct (split SPACE rest) as [|x l]; easy.
  - simpl. change (String.append "" rest) with rest.
    destruct (split SPACE rest) as [|x l]; easy.
Qed.

(** *** The regular expression accepts the commands that clients send *)

Lemma append_cons (c : ascii) (a r : string) :
  String.append (String c a) r = String c (String.append a r).
Proof. reflexivity. Qed.

Lemma takeClass_app (f : ascii -> bool) (a r : string) :
  allChars f a = true ->
  takeClass f (String.length a) (String.append a r) = Some (a, r).
Proof.
  induction a as [|c a IH]; intros Hall; [reflexivity |].
  simpl in Hall. apply andb_true_iff in Hall as [Hc Ha].
  rewrite append_cons. simpl. now rewrite Hc, IH.
Qed.

(** A line [<old> <new> <refname>], with two oids of 40 lowercase
    hexadecimal digits and a non-empty name without line terminator, matches
    with these three groups. *)
Lemma matchCommand_command (old new name : string) :
  String.length old = 40%nat -> allChars isLowerHex old = true ->
  String.length new = 40%nat -> allChars isLowerHex new = true ->
  name <> EmptyString ->
  allChars (fun c => negb (isLineTerminator c)) name = true ->
  matchCommand
    (String.append old (String.append " " (String.append new (String.append " " name))))
  = Some (old, new, name).
Proof.
  intros Hlo Ho Hln Hn Hne Hname. unfold matchCommand.
  rewrite <- Hlo at 1. rewrite (takeClass_app _ old) by exact Ho.
  change (String.append " " ?x) with (String " " x).
  cbn [expectSpace]. change (Ascii.eqb " " SPACE) with true. cbv iota.
  rewrite <- Hln at 1. rewrite (takeClass_app _ new) by exact Hn.
  destruct name as [|c name]; [now contradiction Hne |].
  rewrite append_cons. cbn [expectSpace]. change (Ascii.eqb " " SPACE) with true.
  cbv iota. change (String.append "" ?x) with x. now rewrite Hname.
Qed.

(** ** Buffers: [indexOf] and [subarray] *)

Lemma isPrefixOf_true (p b : Buffer) :
  isPrefixOf p b = true <-> exists rest, b = p ++ rest.
Proof.
  unfold isPrefixOf. revert b.
  induction p as [|x p IH]; intros b.
  - simpl. split; [intros _; now exists b | reflexivity].
  - destruct b as [|y b].
    + simpl. split; [discriminate | intros [rest H]; discriminate H].
    + cbn [length combine forallb fst snd]. specialize (IH b).
      change (S (length p) <=? S (length b))%nat with (length p <=? length b)%nat.
      split.
      * intros H. apply andb_true_iff in H as [Hlen H].
        apply andb_true_iff in H as [Hxy H].
        apply byte_dec_bl in Hxy. subst y.
        destruct IH as [IH _].
        destruct IH as [rest ->]; [now rewrite Hlen, H |].
        now exists rest.
      * intros [rest Heq]. injection Heq as -> ->.
        destruct IH as [_ IH]. specialize (IH (ex_intro _ rest eq_refl)).
        apply andb_true_iff in IH as [Hlen H].
        rewrite Hlen, H, byte_dec_lb by reflexivity. reflexivity.
Qed.

(** [indexOf] returns the offset of the first occurrence, or [-1] when
    there is none. *)
Lemma indexOfFrom_spec (p : Buffer) : forall (b : Buffer) (k : Z),
  (indexOfFrom p b k = -1 /\ 0 <= k ->
     forall j : nat, isPrefixOf p (drop j b) = false)
  /\ (0 <= k -> indexOfFrom p b k <> -1 ->
        exists i : nat,
          indexOfFrom p b k = k + Z.of_nat i
          /\ (i <= length b)%nat
          /\ isPrefixOf p (drop i b) = true
          /\ forall j : nat, (j < i)%nat -> isPrefixOf p (drop j b) = false).
Proof.
  induction b as [|x b IH]; intros k.
  - cbn [indexOfFrom]. destruct (isPrefixOf p []) eqn:Hp.
    + split; [intros [H Hk]; lia |].
      intros Hk _. exists 0%nat. rewrite Z.add_0_r.
      repeat split; [simpl; lia | exact Hp | intros j Hj; lia].
    + split; [| intros _ H; now contradiction H].
      intros _ j. now rewrite drop_nil.
  - cbn [indexOfFrom]. destruct (isPrefixOf p (x :: b)) eqn:Hp.
    + split; [intros [H Hk]; lia |].
      intros Hk _. exists 0%nat. rewrite Z.add_0_r.
      repeat split; [simpl; lia | exact Hp | intros j Hj; lia].
    + destruct (IH (k + 1)) as [IHnone IHsome]. split.
      * intros [Hr Hk] j. destruct j as [|j]; [exact Hp |].
        apply IHnone. split; [exact Hr | lia].
      * intros Hk Hr. destruct (IHsome ltac:(lia) Hr) as (i & Hi & Hlen & Hpre & Hmin).
        exists (S i). repeat split.
        -- rewrite Hi. lia.
        -- simpl. lia.
        -- exact Hpre.
        -- intros j Hj. destruct j as [|j]; [exact Hp | apply Hmin; lia].
Qed.

Lemma indexOf_range (b p : Buffer) :
  indexOf b p = -1 \/ 0 <= indexOf b p <= Z.of_nat (length b).
Proof.
  unfold indexOf. destruct (Z.eq_dec (indexOfFrom p b 0) (-1)) as [H|H]; [now left | right].
  destruct (proj2 (indexOfFrom_spec p b 0) ltac:(lia) H) as (i & -> & Hi & _). lia.
Qed.

(** [indexOf] returns [-1] exactly when the pattern does not occur. *)
Lemma indexOf_none (b p : Buffer) :
  indexOf b p = -1 <-> forall pre post, b <> pre ++ p ++ post.
Proof.
  unfold indexOf. split.
  - intros Hnone pre post ->.
    pose proof (proj1 (indexOfFrom_spec p (pre ++ p ++ post) 0)
                  (conj Hnone (Z.le_refl 0)) (length pre)) as Hoff.
    rewrite drop_app_length in Hoff.
    assert (Hp : isPrefixOf p (p ++ post) = true) by (apply isPrefixOf_true; now exists post).
    congruence.
  - intros Hnot. destruct (Z.eq_dec (indexOfFrom p b 0) (-1)) as [H|H]; [exact H |].
    destruct (proj2 (indexOfFrom_spec p b 0) ltac:(lia) H) as (i & _ & _ & Hp & _).
    apply isPrefixOf_true in Hp as [rest Hrest].
    exfalso. apply (Hnot (take i b) rest). now rewrite <- Hrest, take_drop.
Qed.

Lemma subarray_prefix (b : Buffer) (i : nat) :
  (i <= length b)%nat -> subarray b 0 (Some (Z.of_nat i)) = take i b.
Proof.
  intros Hi. unfold subarray, relativeIndex.
  destruct (Z.ltb_spec 0 0) as [|_]; [lia |].
  destruct (Z.ltb_spec (Z.of_nat i) 0) as [|_]; [lia |].
  rewrite Z.min_l, Z.min_l by lia.
  rewrite Z.sub_0_r, Nat2Z.id. reflexivity.
Qed.

Lemma subarray_suffix (b : Buffer) (i : nat) :
  (i <= length b)%nat -> subarray b (Z.of_nat i) None = drop i b.
Proof.
  intros Hi. unfold subarray, relativeIndex.
  destruct (Z.ltb_spec (Z.of_nat i) 0) as [|_]; [lia |].
  rewrite Z.min_l, Nat2Z.id by lia.
  apply take_ge. rewrite length_drop. lia.
Qed.



(** ** The router *)

Section RouterFacts.
Context (C : PktCodec) (B : Backend).

(** *** Splitting the body of a push *)

(** When the body has a [PACK] marker, it is split in front of the first
    one. *)
Lemma splitBody_found (body pre post : Buffer) :
  body = pre ++ bufferFrom "PACK" ++ post ->
  exists commandData rest,
    splitBody body = (commandData, bufferFrom "PACK" ++ rest)
    /\ body = commandData ++ bufferFrom "PACK" ++ rest
    /\ forall pre' post',
         body = pre' ++ bufferFrom "PACK" ++ post' ->
         (length commandData <= length pre')%nat.
Proof.
  intros Hocc.
  assert (Hfound : indexOfFrom (bufferFrom "PACK") body 0 <> -1).
  { intros Hnone. apply (proj1 (indexOf_none body (bufferFrom "PACK")) Hnone pre post Hocc). }
  destruct (proj2 (indexOfFrom_spec (bufferFrom "PACK") body 0) ltac:(lia) Hfound)
    as (i & Hi & Hlen & Hpre & Hmin).
  rewrite Z.add_0_l in Hi.
  apply isPrefixOf_true in Hpre as [rest Hrest].
  exists (take i body), rest. repeat split.
  - unfold splitBody, indexOf. rewrite Hi.
    now rewrite subarray_prefix, subarray_suffix, Hrest.
  - now rewrite <- Hrest, take_drop.
  - intros pre' post' Hocc'. rewrite length_take.
    destruct (Nat.lt_ge_cases (length pre') i) as [Hlt|Hge]; [| lia].
    specialize (Hmin (length pre') Hlt).
    rewrite Hocc', drop_app_length in Hmin.
    assert (Hp : isPrefixOf (bufferFrom "PACK") (bufferFrom "PACK" ++ post') = true)
      by (apply isPrefixOf_true; now exists post').
    congruence.
Qed.


(** *** [formatInfoRefs] *)

Lemma capabilities_advertised : capabilities = advertisedCapabilities.
Proof. reflexivity. Qed.

Lemma refLines_tail (refs : list GitRef) (i : nat) :
  refLines C (S i) refs
  = map (fun r => createPktLine C
                    (String.append (ref_oid r) (String.append " " (ref_name r))))
        refs.
Proof.
  revert i. induction refs as [|r refs IH]; intros i; simpl; [reflexivity |].
  now rewrite IH.
Qed.

Lemma formatInfoRefs_advertisement (service : string) (refs : list GitRef) :
  formatInfoRefs C service refs = advertisement C service refs.
Proof.
  unfold formatInfoRefs, advertisement.
  change capabilities with advertisedCapabilities.
  destruct refs as [|r refs].
  - cbn [length Nat.eqb]. simpl. now rewrite app_nil_r.
  - cbn [length Nat.eqb refLines]. rewrite refLines_tail.
    change capabilities with advertisedCapabilities.
    rewrite !concat_app. simpl. rewrite !app_nil_r, <- !app_assoc.
    reflexivity.
Qed.

(** *** [info/refs] *)

Lemma known_service (service : option string) :
  falsy service
  || (negb (serviceIs service "git-upload-pack")
      && negb (serviceIs service "git-receive-pack")) = false ->
  service = Some "git-upload-pack" \/ service = Some "git-receive-pack".
Proof.
  destruct service as [s|]; [| discriminate]. cbn [serviceIs].
  destruct (String.eqb_spec s "git-upload-pack") as [-> | _]; [now left |].
  destruct (String.eqb_spec s "git-receive-pack") as [-> | _]; [now right |].
  now rewrite orb_true_r.
Qed.

(** C7.  An [info/refs] request whose [service] parameter is missing, or
    is neither [git-upload-pack] nor [git-receive-pack], is answered with
    status 400; no collaborator is called, so nothing is advertised. *)
Theorem infoRefs_service_required (req : Request) (w : World B) :
  query_service req = None
  \/ (query_service req <> Some "git-upload-pack"
      /\ query_service req <> Some "git-receive-pack") ->
  infoRefs C B req w = (Val (text "Service required" 400), w, []).
Proof.
  intros H. unfold infoRefs.
  destruct (query_service req) as [s|]; [| reflexivity].
  destruct H as [H | [Hu Hr]]; [discriminate |].
  cbn [serviceIs].
  destruct (String.eqb_spec s "git-upload-pack") as [-> | _]; [now contradiction Hu |].
  destruct (String.eqb_spec s "git-receive-pack") as [-> | _]; [now contradiction Hr |].
  now rewrite orb_true_r.
Qed.

(** The runs of [info/refs] for a known service and a repository that
    exists. *)
Lemma infoRefs_fetch (req : Request) (w : World B) (repo : Repository) :
  query_service req = Some "git-upload-pack" ->
  getRepositoryByName B (manager w) (param_owner req) (param_name req) = Some repo ->
  let found := GetRepositoryByName (param_owner req) (param_name req) in
  let user := default EmptyString (header_address req) in
  let advert :=
    response (formatInfoRefs C "git-upload-pack" (getRefs B (manager w) (repoId repo)))
      [("Content-Type", "application/x-git-upload-pack-advertisement");
       ("Cache-Control", "no-cache")] in
  infoRefs C B req w =
    if visibility repo =? 1 then
      if falsy (header_address req)
      then (Val (text "Authentication required" 401), w, [found])
      else if hasReadAccess B (manager w) (repoId repo) user
      then (Val advert, w, [found; HasReadAccess (repoId repo) user; GetRefs (repoId repo)])
      else (Val (text "Read access denied" 403), w,
            [found; HasReadAccess (repoId repo) user])
    else (Val advert, w, [found; GetRefs (repoId repo)]).
Proof.
  intros Hs Hrepo. unfold infoRefs. rewrite Hs.
  unfold bind, repoManager_getRepositoryByName. simpl. rewrite Hrepo. simpl.
  destruct (visibility repo =? 1); [| reflexivity].
  destruct (falsy (header_address req)); [reflexivity |].
  unfold repoManager_hasReadAccess.
  destruct (hasReadAccess B _ _ _); reflexivity.
Qed.

Lemma infoRefs_push (req : Request) (w : World B) (repo : Repository) :
  query_service req = Some "git-receive-pack" ->
  getRepositoryByName B (manager w) (param_owner req) (param_name req) = Some repo ->
  let found := GetRepositoryByName (param_owner req) (param_name req) in
  let user := default EmptyString (header_address req) in
  let advert :=
    response (formatInfoRefs C "git-receive-pack" (getRefs B (manager w) (repoId repo)))
      [("Content-Type", "application/x-git-receive-pack-advertisement");
       ("Cache-Control", "no-cache")] in
  infoRefs C B req w =
    if falsy (header_address req)
    then (Val (text "Authentication required" 401), w, [found])
    else if hasWriteAccess B (manager w) (repoId repo) user
    then (Val advert, w, [found; HasWriteAccess (repoId repo) user; GetRefs (repoId repo)])
    else (Val (text "Write access denied" 403), w,
          [found; HasWriteAccess (repoId repo) user]).
Proof.
  intros Hs Hrepo. unfold infoRefs. rewrite Hs.
  unfold bind, repoManager_getRepositoryByName. simpl. rewrite Hrepo. simpl.
  destruct (falsy (header_address req)); [reflexivity |].
  unfold repoManager_hasWriteAccess.
  destruct (hasWriteAccess B _ _ _); reflexivity.
Qed.

Lemma infoRefs_not_found (req : Request) (w : World B) :
  query_service req = Some "git-upload-pack"
  \/ query_service req = Some "git-receive-pack" ->
  getRepositoryByName B (manager w) (param_owner req) (param_name req) = None ->
  infoRefs C B req w =
    (Val (text "Repository not found" 404), w,
     [GetRepositoryByName (param_owner req) (param_name req)]).
Proof.
  intros Hs Hrepo. unfold infoRefs.
  destruct Hs as [-> | ->];
    unfold bind, repoManager_getRepositoryByName; simpl; now rewrite Hrepo.
Qed.

(** C5.  A successful ref advertisement has the body that the
    specification describes: the service line, a flush-pkt, the refs with
    the capability string on the first one (or the zero-oid line), a
    flush-pkt; the capability string is the advertised one. *)
Theorem infoRefs_advertisement (req : Request) (w : World B) (resp : Response) :
  outcome (infoRefs C B req w) = Val resp ->
  status resp = 200 ->
  exists service repo,
    query_service req = Some service
    /\ getRepositoryByName B (manager w) (param_owner req) (param_name req) = Some repo
    /\ body resp = advertisement C service (getRefs B (manager w) (repoId repo))
    /\ capabilities = advertisedCapabilities.
Proof.
  intros Hrun Hstatus.
  destruct (falsy (query_service req)
            || (negb (serviceIs (query_service req) "git-upload-pack")
                && negb (serviceIs (query_service req) "git-receive-pack"))) eqn:Hbad.
  { unfold infoRefs in Hrun. rewrite Hbad in Hrun.
    injection Hrun as <-. discriminate Hstatus. }
  apply known_service in Hbad.
  destruct (getRepositoryByName B (manager w) (param_owner req) (param_name req))
    as [repo|] eqn:Hrepo.
  2:{ rewrite (infoRefs_not_found req w Hbad Hrepo) in Hrun.
      injection Hrun as <-. discriminate Hstatus. }
  destruct Hbad as [Hs | Hs].
  - exists "git-upload-pack", repo. rewrite (infoRefs_fetch req w repo Hs Hrepo) in Hrun.
    repeat split; [assumption |].
    rewrite <- formatInfoRefs_advertisement.
    destruct (visibility repo =? 1);
      [destruct (falsy (header_address req));
         [| destruct (hasReadAccess B _ _ _)] |];
      injection Hrun as <-; try discriminate Hstatus; reflexivity.
  - exists "git-receive-pack", repo. rewrite (infoRefs_push req w repo Hs Hrepo) in Hrun.
    repeat split; [assumption |].
    rewrite <- formatInfoRefs_advertisement.
    destruct (falsy (header_address req));
      [| destruct (hasWriteAccess B _ _ _)];
      injection Hrun as <-; try discriminate Hstatus; reflexivity.
Qed.

(** *** [git-upload-pack] *)

Lemma after_after {A} (e1 e2 : list Event) (run : Result A * World B * list Event) :
  after e1 (after e2 run) = after (e1 ++ e2) run.
Proof. destruct run as [[r w] ev]. simpl. now rewrite app_assoc. Qed.

Lemma after_nil {A} (run : Result A * World B * list Event) : after [] run = run.
Proof. now destruct run as [[r w] ev]. Qed.

Lemma pushNeeded_filter (haves reachable : list string) : forall neededOids,
  pushNeeded (list_to_set haves) neededOids reachable
  = neededOids ++ filter (fun oid => oid ∉ haves) reachable.
Proof.
  unfold pushNeeded.
  induction reachable as [|oid reachable IH]; intros acc; simpl.
  - now rewrite app_nil_r.
  - rewrite IH, filter_cons. case_bool_decide as Hin; rewrite elem_of_list_to_set in Hin.
    + destruct (decide (oid ∉ haves)) as [Hn|_]; [now contradiction Hn | reflexivity].
    + destruct (decide (oid ∉ haves)) as [_|Hn]; [| now contradiction Hn].
      now rewrite <- app_assoc.
Qed.

Lemma collectNeeded_run (repo : string) (haves : list string) (w : World B) :
  forall wants neededOids,
  collectNeeded B repo (list_to_set haves) wants neededOids w
  = (Val (neededOids ++ closureMinusHaves B (objects w repo) wants haves), w,
     map (GetReachableObjects repo) wants).
Proof.
  induction wants as [|want wants IH]; intros acc.
  - simpl. unfold ret. now rewrite app_nil_r.
  - cbn [collectNeeded]. unfold bind, objectStore_getReachableObjects.
    rewrite IH, pushNeeded_filter. simpl. now rewrite <- app_assoc.
Qed.

(** The run of the handler once the repository is found and access is
    granted. *)
Lemma serveUploadPack_run (repo : Repository) (req : Request) (w : World B)
    (lines wants haves : list string) :
  parsePktLines C (arrayBuffer req) = Val lines ->
  scanLines lines = (wants, haves) ->
  let needed := closureMinusHaves B (objects w (repoId repo)) wants haves in
  let fetched :=
    map (GetReachableObjects (repoId repo)) wants
    ++ [CreatePackfile (repoId repo) needed] in
  serveUploadPack C B repo req w =
    match wants with
    | [] => (Val (response (createPktLine C "NAK") uploadPackResult), w, [])
    | _ :: _ =>
        match createPackfile B (objects w (repoId repo)) needed with
        | Val packfile =>
            (Val (response (createPktLine C "NAK" ++ packfile) uploadPackResultNoCache),
             w, fetched)
        | Exn e => (Exn e, w, fetched)
        end
    end.
Proof.
  intros Hparse Hscan. unfold serveUploadPack, bind, lift.
  rewrite Hparse, Hscan.
  destruct wants as [|want wants]; [reflexivity |].
  cbn [length Nat.eqb]. rewrite collectNeeded_run.
  unfold pack_createPackfile. cbn [app].
  destruct (createPackfile B _ _); reflexivity.
Qed.

Lemma serveUploadPack_malformed (repo : Repository) (req : Request) (w : World B)
    (e : string) :
  parsePktLines C (arrayBuffer req) = Exn e ->
  serveUploadPack C B repo req w = (Exn e, w, []).
Proof. intros Hparse. unfold serveUploadPack, bind, lift. now rewrite Hparse. Qed.

Lemma uploadPack_run (req : Request) (w : World B) (repo : Repository) :
  getRepositoryByName B (manager w) (param_owner req) (param_name req) = Some repo ->
  let found := GetRepositoryByName (param_owner req) (param_name req) in
  let user := default EmptyString (header_address req) in
  uploadPack C B req w =
    if visibility repo =? 1 then
      if falsy (header_address req)
      then (Val (text "Authentication required" 401), w, [found])
      else if hasReadAccess B (manager w) (repoId repo) user
      then after [found; HasReadAccess (repoId repo) user] (serveUploadPack C B repo req w)
      else (Val (text "Read access denied" 403), w,
            [found; HasReadAccess (repoId repo) user])
    else after [found] (serveUploadPack C B repo req w).
Proof.
  intros Hrepo. unfold uploadPack, bind, repoManager_getRepositoryByName.
  simpl. rewrite Hrepo.
  destruct (visibility repo =? 1).
  - destruct (falsy (header_address req)); [reflexivity |].
    unfold repoManager_hasReadAccess.
    destruct (hasReadAccess B _ _ _); [| reflexivity].
    simpl. now destruct (serveUploadPack C B repo req w) as [[r w'] ev].
  - reflexivity.
Qed.

Lemma uploadPack_granted (req : Request) (w : World B) (repo : Repository) :
  getRepositoryByName B (manager w) (param_owner req) (param_name req) = Some repo ->
  mayRead B w repo req = true ->
  uploadPack C B req w = after (readGateCalls repo req) (serveUploadPack C B repo req w).
Proof.
  intros Hrepo Hmay. rewrite (uploadPack_run req w repo Hrepo).
  unfold mayRead, readGateCalls in *.
  destruct (visibility repo =? 1); [| reflexivity].
  apply andb_true_iff in Hmay as [Hu Hr].
  apply negb_true_iff in Hu. now rewrite Hu, Hr.
Qed.

Lemma closureMinusHaves_elem (st : Store B) (wants haves : list string) (oid : string) :
  oid ∈ closureMinusHaves B st wants haves
  <-> (exists want, want ∈ wants /\ oid ∈ getReachableObjects B st want)
      /\ oid ∉ haves.
Proof.
  unfold closureMinusHaves. split.
  - intros Hin. apply list_elem_of_In, in_flat_map in Hin as (want & Hw & Ho).
    apply list_elem_of_In, list_elem_of_filter in Ho as [Hn Ho].
    split; [| exact Hn]. exists want. split; [now apply list_elem_of_In | exact Ho].
  - intros [(want & Hw & Ho) Hn]. apply list_elem_of_In, in_flat_map.
    exists want. split; [now apply list_elem_of_In |].
    apply list_elem_of_In, list_elem_of_filter. now split.
Qed.

(** C3, as amended.  For an [upload-pack] request with at least one
    [want] line, the list passed to [createPackfile] is, in the order of
    the wants, each want's reachable objects without those of the have
    set: an oid is in the list exactly when it is reachable from some want
    and is not in the have set.  (An oid reachable from several wants is
    listed once for each of them.) *)
Theorem uploadPack_needed_oids (req : Request) (w : World B) (repo : Repository)
    (lines wants haves : list string) :
  getRepositoryByName B (manager w) (param_owner req) (param_name req) = Some repo ->
  mayRead B w repo req = true ->
  parsePktLines C (arrayBuffer req) = Val lines ->
  scanLines lines = (wants, haves) ->
  wants <> [] ->
  let st := objects w (repoId repo) in
  calls (uploadPack C B req w)
  = readGateCalls repo req
    ++ map (GetReachableObjects (repoId repo)) wants
    ++ [CreatePackfile (repoId repo) (closureMinusHaves B st wants haves)]
  /\ forall oid,
       oid ∈ closureMinusHaves B st wants haves
       <-> (exists want, want ∈ wants /\ oid ∈ getReachableObjects B st want)
           /\ oid ∉ haves.
Proof.
  intros Hrepo Hmay Hparse Hscan Hne st. split; [| apply closureMinusHaves_elem].
  rewrite (uploadPack_granted req w repo Hrepo Hmay).
  rewrite (serveUploadPack_run repo req w lines wants haves Hparse Hscan).
  destruct wants; [now contradiction Hne |].
  fold st. now destruct (createPackfile B st _).
Qed.

(** *** [git-receive-pack] *)

Lemma pushLoopCall_mono (st : Store B) (repo user : string)
    (all all' : list Event) (e : Event) :
  (forall x, In x all -> In x all') ->
  pushLoopCall B st repo user all e -> pushLoopCall B st repo user all' e.
Proof.
  intros Hincl. destruct e; simpl; try tauto.
  intros (new & old & Hin & Hn). exists new, old. split; [now apply Hincl | exact Hn].
Qed.

Lemma pushLoopCall_not_extract (st : Store B) (repo user : string)
    (all : list Event) (e : Event) :
  pushLoopCall B st repo user all e -> isExtractPackfile e = false.
Proof. destruct e; simpl; tauto. Qed.

(** The loop over [updates]: the object store is left as it was, the calls
    are those of [pushLoopCall], and when no call throws there is one
    result per command, in order. *)
Lemma applyUpdates_run (repo : Repository) (name user : string) :
  forall (updates : list Update) (results : list PushResult) (w : World B),
  let run := applyUpdates B repo name user updates results w in
  objects (finalWorld run) = objects w
  /\ (forall e, In e (calls run) ->
        pushLoopCall B (objects w (repoId repo)) (repoId repo) user (calls run) e)
  /\ (forall res, outcome run = Val res -> res = results ++ map resultOf updates).
Proof.
  induction updates as [|u updates IH]; intros results w.
  - simpl. repeat split; [intros e [] |].
    intros res [= <-]. now rewrite app_nil_r.
  - cbn [applyUpdates].
    assert (Hu : resultOf u
                 = if startsWith (refName u) "refs/heads/"
                   then {| ref := refName u; success := true; error := None |}
                   else {| ref := refName u; success := false;
                           error := Some "Only branch updates supported" |})
      by reflexivity.
    destruct (startsWith (refName u) "refs/heads/") eqn:Hbranch; cbn [negb].
    + unfold bind, objectStore_walkCommits, repoManager_pushBranch, trackGitContribution.
      set (st := objects w (repoId repo)).
      set (commits := walkCommits B st (newOid u) 100).
      set (branch := replace "refs/heads/" "" (refName u)).
      set (old := if String.eqb (oldOid u) zeroOid then None else Some (oldOid u)).
      set (n := Z.of_nat (length commits)).
      destruct (pushBranch B (manager w) (repoId repo) branch (newOid u) old n user)
        as [m|err].
      * set (w1 := {| manager := m; objects := objects w |}).
        specialize (IH (results ++ [{| ref := refName u; success := true; error := None |}]) w1).
        destruct (applyUpdates B repo name user updates _ w1) as [[r w2] ev].
        cbn [finalWorld calls outcome fst snd] in IH |- *.
        destruct IH as (Hobj & Hcalls & Hres).
        split; [exact Hobj |]. split.
        -- intros e He. cbn [app] in He |- *.
           destruct He as [<- | [<- | [<- | He]]].
           ++ simpl. now split.
           ++ simpl. repeat split.
           ++ simpl. exists (newOid u), old. split; [right; now left | reflexivity].
           ++ eapply pushLoopCall_mono; [| apply (Hcalls e He)].
              intros x Hx. now do 3 right.
        -- intros res Hr. rewrite (Hres res Hr), <- app_assoc. cbn [map app].
           now rewrite Hu.
      * cbn [finalWorld calls outcome fst snd app].
        split; [reflexivity |]. split; [| discriminate].
        intros e [<- | [<- | []]]; simpl; repeat split.
    + specialize (IH (results ++ [{| ref := refName u; success := false;
                                      error := Some "Only branch updates supported" |}]) w).
      destruct IH as (Hobj & Hcalls & Hres).
      split; [exact Hobj |]. split; [exact Hcalls |].
      intros res Hr. rewrite (Hres res Hr), <- app_assoc. cbn [map app].
      now rewrite Hu.
Qed.

(** The run of the handler from [parsePktLines(commandData)] on. *)
Lemma processPush_run (repo : Repository) (name user : string)
    (commandData packData : Buffer) (w : World B) :
  processPush C B repo name user commandData packData w =
    match parsePktLines C commandData with
    | Exn e => (Exn e, w, [])
    | Val lines =>
        let unpacked := extractPackfile B (objects w (repoId repo)) packData in
        let w1 := setStore B w (repoId repo) (fst unpacked) in
        let extract := ExtractPackfile (repoId repo) packData in
        match snd unpacked with
        | Some e => (Exn e, w1, [extract])
        | None =>
            let run := applyUpdates B repo name user (parseUpdates lines) [] w1 in
            (match outcome run with
             | Val results =>
                 Val (response (createPktLines C (responseLines results)) receivePackResult)
             | Exn e => Exn e
             end, finalWorld run, extract :: calls run)
        end
    end.
Proof.
  unfold processPush, bind, lift, pack_extractPackfile.
  destruct (parsePktLines C commandData) as [lines|e]; [| reflexivity].
  destruct (extractPackfile B (objects w (repoId repo)) packData) as [st [e|]];
    cbn [fst snd]; [reflexivity |].
  destruct (applyUpdates B repo name user (parseUpdates lines) [] _) as [[[results|e] w2] ev];
    cbn [outcome finalWorld calls fst snd]; unfold ret; cbn [app];
    now rewrite ?app_nil_r.
Qed.

Lemma receivePack_run (req : Request) (w : World B) :
  let found := GetRepositoryByName (param_owner req) (param_name req) in
  let user := default EmptyString (header_address req) in
  receivePack C B req w =
    if falsy (header_address req)
    then (Val (text "Authentication required" 401), w, [])
    else
      match getRepositoryByName B (manager w) (param_owner req) (param_name req) with
      | None => (Val (text "Repository not found" 404), w, [found])
      | Some repo =>
          if hasWriteAccess B (manager w) (repoId repo) user
          then after [found; HasWriteAccess (repoId repo) user]
                 (processPush C B repo (param_name req) user
                    (fst (splitBody (arrayBuffer req)))
                    (snd (splitBody (arrayBuffer req))) w)
          else (Val (text "Write access denied" 403), w,
                [found; HasWriteAccess (repoId repo) user])
      end.
Proof.
  unfold receivePack.
  destruct (falsy (header_address req)); [reflexivity |].
  unfold bind, repoManager_getRepositoryByName, repoManager_hasWriteAccess.
  destruct (getRepositoryByName B _ _ _) as [repo|]; [| reflexivity].
  destruct (hasWriteAccess B _ _ _); [| reflexivity].
  cbn [negb]. destruct (splitBody (arrayBuffer req)) as [commandData packData].
  cbn [fst snd].
  now destruct (processPush C B repo _ _ commandData packData w) as [[r w'] ev].
Qed.

Lemma objects_setStore (w : World B) (repo : string) (st : Store B) :
  objects (setStore B w repo st) repo = st.
Proof. unfold setStore. simpl. now rewrite String.eqb_refl. Qed.

(** The two kinds of runs of [git-receive-pack]: those that stop before
    the loop over the commands (no ref is touched and there is no
    report), and those that unpack the packfile and then enter the loop. *)
Lemma receivePack_shape (req : Request) (w : World B) :
  let run := receivePack C B req w in
  let found := GetRepositoryByName (param_owner req) (param_name req) in
  let user := default EmptyString (header_address req) in
  let commandData := fst (splitBody (arrayBuffer req)) in
  let packData := snd (splitBody (arrayBuffer req)) in
  (manager (finalWorld run) = manager w
   /\ Forall (fun e => isPushLoopCall e = false) (calls run)
   /\ (forall resp, outcome run = Val resp -> status resp <> 200)
   /\ (forall repo,
         getRepositoryByName B (manager w) (param_owner req) (param_name req) = Some repo ->
         snd (extractPackfile B (objects w (repoId repo)) packData) = None ->
         falsy (header_address req) = true
         \/ hasWriteAccess B (manager w) (repoId repo) user = false
         \/ exists e, parsePktLines C commandData = Exn e))
  \/ (exists repo lines ev,
        getRepositoryByName B (manager w) (param_owner req) (param_name req) = Some repo
        /\ falsy (header_address req) = false
        /\ hasWriteAccess B (manager w) (repoId repo) user = true
        /\ parsePktLines C commandData = Val lines
        /\ snd (extractPackfile B (objects w (repoId repo)) packData) = None
        /\ calls run
           = [found; HasWriteAccess (repoId repo) user;
              ExtractPackfile (repoId repo) packData] ++ ev
        /\ objects (finalWorld run) (repoId repo)
           = fst (extractPackfile B (objects w (repoId repo)) packData)
        /\ (forall e, In e ev ->
              pushLoopCall B (fst (extractPackfile B (objects w (repoId repo)) packData))
                (repoId repo) user ev e)
        /\ (forall resp, outcome run = Val resp ->
              resp = response
                       (createPktLines C
                          (responseLines (map resultOf (parseUpdates lines))))
                       receivePackResult)).
Proof.
  intros run found user commandData packData. subst run.
  rewrite receivePack_run. fold found user commandData packData.
  destruct (falsy (header_address req)) eqn:Hfalsy.
  { left. cbn [after finalWorld calls outcome fst snd app setStore manager]. repeat split; [constructor | intros resp [= <-]; discriminate | auto]. }
  destruct (getRepositoryByName B (manager w) (param_owner req) (param_name req))
    as [repo|] eqn:Hrepo.
  2:{ left. cbn [after finalWorld calls outcome fst snd app setStore manager]. repeat split;
        [repeat constructor | intros resp [= <-]; discriminate | discriminate]. }
  destruct (hasWriteAccess B (manager w) (repoId repo) user) eqn:Hwrite.
  2:{ left. cbn [after finalWorld calls outcome fst snd app setStore manager]. repeat split;
        [repeat constructor | intros resp [= <-]; discriminate |].
      intros repo' [= <-] _. right. now left. }
  rewrite processPush_run.
  destruct (parsePktLines C commandData) as [lines|e] eqn:Hparse.
  2:{ left. cbn [after finalWorld calls outcome fst snd app setStore manager]. repeat split; [repeat constructor | discriminate |].
      intros repo' [= <-] _. right. right. now exists e. }
  cbv zeta.
  destruct (extractPackfile B (objects w (repoId repo)) packData) as [st err] eqn:Hextract.
  cbn [fst snd]. destruct err as [err|].
  { left. cbn [after finalWorld calls outcome fst snd app setStore manager]. repeat split; [repeat constructor | discriminate |].
    intros repo' [= <-] Hok. rewrite Hextract in Hok. discriminate Hok. }
  right. exists repo, lines.
  pose proof (applyUpdates_run repo (param_name req) user (parseUpdates lines) []
                (setStore B w (repoId repo) st)) as Hloop.
  cbv zeta in Hloop. rewrite objects_setStore in Hloop.
  destruct (applyUpdates B repo (param_name req) user (parseUpdates lines) [] _)
    as [[r w2] ev].
  cbn [outcome finalWorld calls fst snd after app] in Hloop |- *.
  destruct Hloop as (Hobj & Hcalls & Hres).
  exists ev. rewrite Hextract. cbn [fst snd].
  repeat split; try assumption; try reflexivity.
  - rewrite Hobj. apply objects_setStore.
  - intros resp Hresp. destruct r as [results|e]; [| discriminate Hresp].
    injection Hresp as <-. now rewrite (Hres results eq_refl).
Qed.

(** The counts of a push: every [pushBranch] call carries the length of
    [walkCommits(newOid, 100)] on the store that the push leaves, and
    every contribution record carries the count of a [pushBranch] call of
    the same branch. *)
Lemma receivePack_commit_counts (req : Request) (w : World B) (e : Event) :
  let run := receivePack C B req w in
  In e (calls run) ->
  match e with
  | PushBranch repo _ new _ n _ =>
      n = Z.of_nat (length (walkCommits B (objects (finalWorld run) repo) new 100))
  | TrackGitContribution user repo _ _ branch n _ =>
      exists new old,
        In (PushBranch repo branch new old n user) (calls run)
        /\ n = Z.of_nat (length (walkCommits B (objects (finalWorld run) repo) new 100))
  | _ => True
  end.
Proof.
  intros run He.
  pose proof (receivePack_shape req w) as Hshape. cbv zeta in Hshape. fold run in Hshape.
  destruct Hshape as [(_ & Hnone & _) | Hloop].
  - rewrite Forall_forall in Hnone. specialize (Hnone e (proj2 (list_elem_of_In _ _) He)).
    destruct e; try exact I; discriminate Hnone.
  - destruct Hloop as (repo & lines & ev & _ & _ & _ & _ & _ & Hev & Hobj & Hall & _).
    rewrite Hev in He |- *. destruct He as [<- | [<- | [<- | He]]]; try exact I.
    pose proof (Hall e He) as Hcall. destruct e; try exact I.
    + simpl in Hcall. destruct Hcall as (-> & _ & ->). now rewrite Hobj.
    + simpl in Hcall. destruct Hcall as (new & old & Hin & ->).
      exists new, old. split; [now do 3 right |].
      pose proof (Hall _ Hin) as Hpush. simpl in Hpush. destruct Hpush as (-> & _).
      now rewrite Hobj.
Qed.

(** The report of a push that gets one: [unpack ok], then one status line
    per parsed command, in order; a line is [ng] exactly when the ref is
    not under [refs/heads/]. *)
Lemma receivePack_report (req : Request) (w : World B) (resp : Response) :
  outcome (receivePack C B req w) = Val resp ->
  status resp = 200 ->
  exists lines,
    parsePktLines C (fst (splitBody (arrayBuffer req))) = Val lines
    /\ body resp
       = createPktLines C
           ("unpack ok" :: map (fun u => statusLine (resultOf u)) (parseUpdates lines)).
Proof.
  intros Hrun Hstatus.
  destruct (receivePack_shape req w) as [(_ & _ & Hresp & _) | Hloop].
  - now contradiction (Hresp resp Hrun).
  - destruct Hloop as (repo & lines & ev & _ & _ & _ & Hparse & _ & _ & _ & _ & Hresp).
    exists lines. split; [exact Hparse |].
    rewrite (Hresp resp Hrun). unfold responseLines. simpl. now rewrite map_map.
Qed.

(** A [pushBranch] that throws on the first command ends the request with
    that error: the commands after it are not reached, and there is no
    report. *)
Lemma receivePack_push_throws (req : Request) (w : World B) (repo : Repository)
    (lines : list string) (u : Update) (rest : list Update) (e : string) :
  let user := default EmptyString (header_address req) in
  let packData := snd (splitBody (arrayBuffer req)) in
  let unpacked := extractPackfile B (objects w (repoId repo)) packData in
  let commits := walkCommits B (fst unpacked) (newOid u) 100 in
  let branch := replace "refs/heads/" "" (refName u) in
  let old := if String.eqb (oldOid u) zeroOid then None else Some (oldOid u) in
  falsy (header_address req) = false ->
  getRepositoryByName B (manager w) (param_owner req) (param_name req) = Some repo ->
  hasWriteAccess B (manager w) (repoId repo) user = true ->
  parsePktLines C (fst (splitBody (arrayBuffer req))) = Val lines ->
  parseUpdates lines = u :: rest ->
  branchUpdate u = true ->
  snd unpacked = None ->
  pushBranch B (manager w) (repoId repo) branch (newOid u) old
    (Z.of_nat (length commits)) user = Exn e ->
  receivePack C B req w
  = (Exn e, setStore B w (repoId repo) (fst unpacked),
     [GetRepositoryByName (param_owner req) (param_name req);
      HasWriteAccess (repoId repo) user;
      ExtractPackfile (repoId repo) packData;
      WalkCommits (repoId repo) (newOid u) 100;
      PushBranch (repoId repo) branch (newOid u) old (Z.of_nat (length commits)) user]).
Proof.
  intros user packData unpacked commits branch old
    Hfalsy Hrepo Hwrite Hparse Hupdates Hbranch Hok Hpush.
  rewrite receivePack_run, Hfalsy, Hrepo. fold user. rewrite Hwrite.
  rewrite processPush_run, Hparse. cbv zeta. fold packData unpacked.
  rewrite Hok, Hupdates. cbn [applyUpdates].
  unfold branchUpdate in Hbranch. rewrite Hbranch. cbn [negb].
  unfold bind, objectStore_walkCommits, repoManager_pushBranch.
  rewrite objects_setStore. fold commits branch old.
  change (manager (setStore B w (repoId repo) (fst unpacked))) with (manager w).
  now rewrite Hpush.
Qed.

(** *** Read access *)

(** C6, as amended.  For a private repository (visibility 1), the fetch
    advertisement and [git-upload-pack] consult [hasReadAccess] before
    they fetch any ref or object: a missing actor identity yields 401 and
    a denied check yields 403, in both cases with the error text as the
    whole reply and no call that reads refs or objects; such a call is
    made only after the check, and only when it has granted access. *)
Theorem read_access_gate (req : Request) (w : World B) (repo : Repository) :
  let found := GetRepositoryByName (param_owner req) (param_name req) in
  let user := default EmptyString (header_address req) in
  let unauthenticated : Result Response * World B * list Event :=
    (Val (text "Authentication required" 401), w, [found]) in
  let denied : Result Response * World B * list Event :=
    (Val (text "Read access denied" 403), w,
     [found; HasReadAccess (repoId repo) user]) in
  getRepositoryByName B (manager w) (param_owner req) (param_name req) = Some repo ->
  visibility repo = 1 ->
  ((falsy (header_address req) = true -> uploadPack C B req w = unauthenticated)
   /\ (falsy (header_address req) = false ->
       hasReadAccess B (manager w) (repoId repo) user = false ->
       uploadPack C B req w = denied)
   /\ gatedBy isReadCheck readsData (calls (uploadPack C B req w)) = true
   /\ (existsb readsData (calls (uploadPack C B req w)) = true ->
       mayRead B w repo req = true))
  /\ (query_service req = Some "git-upload-pack" ->
      (falsy (header_address req) = true -> infoRefs C B req w = unauthenticated)
      /\ (falsy (header_address req) = false ->
          hasReadAccess B (manager w) (repoId repo) user = false ->
          infoRefs C B req w = denied)
      /\ gatedBy isReadCheck readsData (calls (infoRefs C B req w)) = true
      /\ (existsb readsData (calls (infoRefs C B req w)) = true ->
          mayRead B w repo req = true)).
Proof.
  intros found user unauthenticated denied Hrepo Hprivate.
  assert (Hvis : (visibility repo =? 1) = true) by now apply Z.eqb_eq.
  unfold mayRead. rewrite Hvis. fold user. split.
  - rewrite (uploadPack_run req w repo Hrepo), Hvis. fold found user.
    destruct (falsy (header_address req)).
    { repeat split; try reflexivity; discriminate. }
    destruct (hasReadAccess B (manager w) (repoId repo) user).
    + repeat split; try discriminate.
      now destruct (serveUploadPack C B repo req w) as [[r w'] ev].
    + repeat split; try reflexivity; discriminate.
  - intros Hs. rewrite (infoRefs_fetch req w repo Hs Hrepo), Hvis. fold found user.
    destruct (falsy (header_address req)).
    { repeat split; try reflexivity; discriminate. }
    destruct (hasReadAccess B (manager w) (repoId repo) user);
      repeat split; try reflexivity; discriminate.
Qed.

End RouterFacts.
(** ** The object store and the ref manager of the specification *)

(** *** The traversal never runs out of fuel *)

Lemma cost_other (visited : list string) (o k : string) (v : GitObject) :
  k <> o ->
  ObjectStore.cost (visited ++ [o]) (k, v) = ObjectStore.cost visited (k, v).
Proof.
  intros Hne. unfold ObjectStore.cost. cbn [fst snd].
  rewrite (bool_decide_ext (k ∈ visited ++ [o]) (k ∈ visited)); [reflexivity |].
  rewrite elem_of_app, list_elem_of_singleton. tauto.
Qed.

Lemma cost_visited (visited : list string) (o : string) (obj : GitObject) :
  o ∉ visited ->
  ObjectStore.cost (visited ++ [o]) (o, obj) = 0%nat
  /\ ObjectStore.cost visited (o, obj) = S (length (ObjectStore.children obj)).
Proof.
  intros Hfresh. unfold ObjectStore.cost. cbn [fst snd].
  rewrite bool_decide_eq_true_2, bool_decide_eq_false_2; [easy | exact Hfresh |].
  rewrite elem_of_app, list_elem_of_singleton. now right.
Qed.

Lemma cost_sum_other (visited : list string) (o : string) :
  forall l : list (string * GitObject),
  o ∉ l.*1 ->
  sum_list (map (ObjectStore.cost (visited ++ [o])) l)
  = sum_list (map (ObjectStore.cost visited) l).
Proof.
  induction l as [|[k v] l IH]; intros Hnot; [reflexivity |].
  cbn [map sum_list fmap list_fmap fst] in *.
  rewrite not_elem_of_cons in Hnot. destruct Hnot as [Hne Hnot].
  rewrite (IH Hnot), cost_other by congruence. reflexivity.
Qed.

Lemma cost_sum_visit (visited : list string) (o : string) (obj : GitObject) :
  o ∉ visited ->
  forall l : list (string * GitObject),
  NoDup l.*1 -> (o, obj) ∈ l ->
  sum_list (map (ObjectStore.cost visited) l)
  = (sum_list (map (ObjectStore.cost (visited ++ [o])) l)
     + S (length (ObjectStore.children obj)))%nat.
Proof.
  intros Hfresh. induction l as [|[k v] l IH]; intros Hnd Hin.
  - now apply elem_of_nil in Hin.
  - cbn [map sum_list fmap list_fmap fst] in *.
    apply NoDup_cons in Hnd as [Hk Hnd].
    apply elem_of_cons in Hin as [Heq | Hin].
    + injection Heq as <- <-. rewrite (cost_sum_other visited o l Hk).
      destruct (cost_visited visited o obj Hfresh) as [-> ->]. unfold id. lia.
    + rewrite (IH Hnd Hin).
      assert (Hne : k <> o).
      { intros ->. apply Hk. apply list_elem_of_fmap. now exists (o, obj). }
      rewrite (cost_other visited o k v Hne). unfold id. lia.
Qed.

Lemma weight_visit (store : gmap string GitObject) (visited : list string)
    (o : string) (obj : GitObject) :
  store !! o = Some obj -> o ∉ visited ->
  ObjectStore.weight store visited
  = (ObjectStore.weight store (visited ++ [o])
     + S (length (ObjectStore.children obj)))%nat.
Proof.
  intros Hobj Hfresh. unfold ObjectStore.weight.
  apply cost_sum_visit; [exact Hfresh | apply NoDup_fst_map_to_list |].
  now apply elem_of_map_to_list.
Qed.

(** Any fuel that covers the worklist and the weight of the store gives the
    same traversal: [traverse] stops because the worklist is empty. *)
Lemma traverse_enough (store : gmap string GitObject) (fuel : nat) :
  forall (fuel' : nat) (work visited : list string),
  (length work + ObjectStore.weight store visited <= fuel)%nat ->
  (length work + ObjectStore.weight store visited <= fuel')%nat ->
  ObjectStore.traverse fuel store work visited
  = ObjectStore.traverse fuel' store work visited.
Proof.
  induction fuel as [|f IH]; intros fuel' work visited Hf Hf'.
  - destruct work; [now destruct fuel' | simpl in Hf; lia].
  - destruct work as [|o rest]; [now destruct fuel' |].
    destruct fuel' as [|f']; [simpl in Hf'; lia |].
    cbn [ObjectStore.traverse length] in *.
    case_bool_decide as Hseen; [apply IH; lia |].
    destruct (store !! o) as [obj|] eqn:Hobj; [| apply IH; lia].
    rewrite (weight_visit store visited o obj Hobj Hseen) in Hf, Hf'.
    apply IH; rewrite length_app; lia.
Qed.

Lemma getReachableObjects_fuel (store : gmap string GitObject) (start : string)
    (fuel : nat) :
  (ObjectStore.traverseFuel store <= fuel)%nat ->
  ObjectStore.traverse fuel store [start] []
  = ObjectStore.getReachableObjects store start.
Proof.
  intros Hfuel. unfold ObjectStore.getReachableObjects, ObjectStore.traverseFuel in *.
  apply traverse_enough; simpl; lia.
Qed.

(** *** The walk stops at its limit *)

Lemma walk_length (limit : nat) : forall (store : gmap string GitObject) (oid : string),
  (length (ObjectStore.walk limit store oid) <= limit)%nat.
Proof.
  induction limit as [|n IH]; intros store oid; simpl; [lia |].
  destruct (store !! oid) as [[| |c|]|]; simpl; try lia.
  destruct (parents c) as [|p ps]; simpl; [lia |].
  specialize (IH store p). lia.
Qed.

Lemma walkCommits_limit (store : gmap string GitObject) (oid : string) (limit : Z) :
  0 <= limit ->
  Z.of_nat (length (ObjectStore.walkCommits store oid limit)) <= limit.
Proof.
  intros Hl. unfold ObjectStore.walkCommits.
  pose proof (walk_length (Z.to_nat limit) store oid). lia.
Qed.

(** The compare-and-swap of [pushBranch]: a push whose expected old tip is
    not the current one throws and a push that succeeds sets the tip. *)
Lemma pushBranch_stale (m : ManagerState) (repo name newOid old pusher : string)
    (n : Z) (b : Branch) :
  branches m !! (repo, name) = Some b ->
  tipCommitOid b <> old ->
  RefManager.pushBranch m repo name newOid (Some old) n pusher
  = Exn NonFastForwardOrRaceError.
Proof.
  intros Hb Hne. unfold RefManager.pushBranch. rewrite Hb.
  destruct (String.eqb_spec (tipCommitOid b) old); [contradiction | reflexivity].
Qed.

Lemma pushBranch_tip (m m' : ManagerState) (repo name newOid pusher : string)
    (old : option string) (n : Z) :
  RefManager.pushBranch m repo name newOid old n pusher = Val m' ->
  tipCommitOid <$> branches m' !! (repo, name) = Some newOid.
Proof.
  unfold RefManager.pushBranch.
  destruct (branches m !! (repo, name)) as [b|], old as [o|]; try discriminate.
  - destruct (String.eqb (tipCommitOid b) o); [| discriminate].
    intros [= <-]. simpl. now rewrite lookup_insert_eq.
  - intros [= <-]. simpl. now rewrite lookup_insert_eq.
Qed.

(** ** The handlers on the small repository *)

Module Examples.
Import Demo.

(** C1, on the code.  A push of two branches whose first command names a
    stale old tip: [pushBranch] throws, nothing catches the error, and the
    request fails as a whole.  There is no report, so no [ng] line for
    [main]; the second branch is never reached and stays absent. *)
Theorem receivePack_cas_mismatch_fails_request :
  let run := receivePack specCodec backend (push "open" (Some alice) stalePush) world in
  outcome run = Exn NonFastForwardOrRaceError
  /\ calls run
     = [GetRepositoryByName alice "open";
        HasWriteAccess "0x01" alice;
        ExtractPackfile "0x01" (bufferFrom "PACK");
        WalkCommits "0x01" c2 100;
        PushBranch "0x01" "main" c2 (Some c3) 2 alice]
  /\ branches (manager (finalWorld run)) !! ("0x01", "feature") = None.
Proof. vm_compute. repeat split. Qed.

(** The same push with the two commands in the other order: [feature] is
    created, and the failure on [main] still takes the report away. *)
Lemma receivePack_cas_mismatch_after_update :
  let body :=
    pktBody [command zeroOid c2 "refs/heads/feature"; command c3 c2 "refs/heads/main"]
      (bufferFrom "PACK") in
  let run := receivePack specCodec backend (push "open" (Some alice) body) world in
  outcome run = Exn NonFastForwardOrRaceError
  /\ tipCommitOid <$> branches (manager (finalWorld run)) !! ("0x01", "feature") = Some c2.
Proof. vm_compute. repeat split. Qed.

(** A ref outside [refs/heads/] does get its [ng] line, and the commands
    after it are processed. *)
Lemma receivePack_unsupported_ref_reported :
  let body :=
    pktBody [command zeroOid c2 "refs/tags/v1"; command c1 c2 "refs/heads/main"]
      (bufferFrom "PACK") in
  let run := receivePack specCodec backend (push "open" (Some alice) body) world in
  outcome run
  = Val (response
           (createPktLines specCodec
              ["unpack ok"; "ng refs/tags/v1 Only branch updates supported";
               "ok refs/heads/main"])
           receivePackResult)
  /\ tipCommitOid <$> branches (manager (finalWorld run)) !! ("0x01", "main") = Some c2.
Proof. vm_compute. repeat split. Qed.

(** C3, as stated, fails on a fetch of two branches with common history:
    the objects of [c1] are reachable from both wants and are passed to
    [createPackfile] twice. *)
Lemma uploadPack_duplicate_oids :
  let run := uploadPack specCodec backend (fetch "open" None [want c2; want c1]) world in
  In (CreatePackfile "0x01" [c2; c1; t1; b1; t2; b2; c1; t1; b1]) (calls run)
  /\ ~ List.NoDup [c2; c1; t1; b1; t2; b2; c1; t1; b1].
Proof.
  split.
  - vm_compute. do 3 right. left. reflexivity.
  - intros Hnd. inversion_clear Hnd as [|? ? _ Hnd1].
    inversion_clear Hnd1 as [|? ? Hc1 _]. apply Hc1.
    do 4 right. left. reflexivity.
Qed.

Lemma uploadPack_needed_oids_witness :
  calls (uploadPack specCodec backend (fetch "open" None [want c2; have c1]) world)
  = readGateCalls publicRepo (fetch "open" None [want c2; have c1])
    ++ map (GetReachableObjects "0x01") [c2]
    ++ [CreatePackfile "0x01" (closureMinusHaves backend store [c2] [c1])].
Proof.
  apply (uploadPack_needed_oids specCodec backend
           (fetch "open" None [want c2; have c1]) world publicRepo
           [want c2; have c1] [c2] [c1]).
  - reflexivity.
  - reflexivity.
  - vm_compute. reflexivity.
  - vm_compute. reflexivity.
  - discriminate.
Defined.

Lemma infoRefs_advertisement_witness :
  exists service repo,
    query_service (fetchAdvert "open" None) = Some service
    /\ getRepositoryByName backend registry alice "open" = Some repo
    /\ formatInfoRefs specCodec "git-upload-pack" (RefManager.getRefs registry "0x01")
       = advertisement specCodec service (getRefs backend registry (repoId repo))
    /\ capabilities = advertisedCapabilities.
Proof.
  apply (infoRefs_advertisement specCodec backend (fetchAdvert "open" None) world
           (response (formatInfoRefs specCodec "git-upload-pack"
                        (RefManager.getRefs registry "0x01"))
              [("Content-Type", "application/x-git-upload-pack-advertisement");
               ("Cache-Control", "no-cache")])).
  - vm_compute. reflexivity.
  - reflexivity.
Defined.

Lemma infoRefs_service_required_witness :
  infoRefs specCodec backend (request alice "open" None None []) world
  = (Val (text "Service required" 400), world, []).
Proof. apply infoRefs_service_required. left. reflexivity. Defined.

(** C6, as stated, fails on a public repository: the advertisement and
    the fetch are served to a requester without identity (no 401), and
    [hasReadAccess] is not consulted. *)
Lemma read_access_not_consulted_public :
  let advert := infoRefs specCodec backend (fetchAdvert "open" None) world in
  let fetched := uploadPack specCodec backend (fetch "open" None [want c1]) world in
  falsy (header_address (fetchAdvert "open" None)) = true
  /\ falsy (header_address (fetch "open" None [want c1])) = true
  /\ (exists resp, outcome advert = Val resp /\ status resp = 200)
  /\ calls advert = [GetRepositoryByName alice "open"; GetRefs "0x01"]
  /\ (exists resp, outcome fetched = Val resp /\ status resp = 200)
  /\ calls fetched
     = [GetRepositoryByName alice "open"; GetReachableObjects "0x01" c1;
        CreatePackfile "0x01" [c1; t1; b1]].
Proof.
  split; [reflexivity |]. split; [reflexivity |].
  split; [eexists; split; vm_compute; reflexivity |].
  split; [vm_compute; reflexivity |].
  split; [eexists; split; vm_compute; reflexivity |].
  vm_compute. reflexivity.
Qed.

(** The advertisement for a push consults [hasWriteAccess], not
    [hasReadAccess], also on a private repository. *)
Lemma push_advertisement_write_check :
  let req := request alice "closed" (Some "git-receive-pack") (Some alice) [] in
  calls (infoRefs specCodec backend req world)
  = [GetRepositoryByName alice "closed"; HasWriteAccess "0x02" alice; GetRefs "0x02"].
Proof. vm_compute. reflexivity. Qed.

Lemma read_access_gate_witness :
  uploadPack specCodec backend (fetch "closed" None [want c1]) world
  = (Val (text "Authentication required" 401), world,
     [GetRepositoryByName alice "closed"]).
Proof.
  destruct (read_access_gate specCodec backend (fetch "closed" None [want c1]) world
              privateRepo) as [(H & _) _].
  - reflexivity.
  - reflexivity.
  - apply H. reflexivity.
Defined.

(** A pack that is rejected leaves the refs alone. *)
Lemma receivePack_corrupt_pack :
  let body := pktBody [command c1 c2 "refs/heads/main"] (bufferFrom "PACX") in
  let run := receivePack specCodec backend (push "open" (Some alice) body) world in
  outcome run = Exn CorruptPackError
  /\ manager (finalWorld run) = registry.
Proof. vm_compute. repeat split. Qed.

End Examples.
(** ** More on the router: gates, parsing loops, reports *)

Section RouterMore.
Context (C : PktCodec) (B : Backend).

(** *** Strings *)

Lemma prefix_append (p r : string) : String.prefix p (String.append p r) = true.
Proof.
  induction p as [|c p IH]; [now destruct r |].
  rewrite append_cons. simpl. destruct (ascii_dec c c); [exact IH | congruence].
Qed.

Lemma append_empty_r (s : string) : String.append s "" = s.
Proof. induction s as [|c s IH]; [reflexivity |]. now rewrite append_cons, IH. Qed.

Lemma append_length (a b : string) :
  String.length (String.append a b) = (String.length a + String.length b)%nat.
Proof. induction a as [|c a IH]; [reflexivity |]. rewrite append_cons. simpl. now rewrite IH. Qed.

Lemma dropString_append (p r : string) :
  dropString (String.length p) (String.append p r) = r.
Proof. induction p as [|c p IH]; [now destruct r |]. rewrite append_cons. exact IH. Qed.

(** [replace] takes a prefix away. *)
Lemma replace_prefix (p rep r : string) :
  replace p rep (String.append p r) = String.append rep r.
Proof.
  assert (Heq : forall s, replace p rep s
                          = if String.prefix p s
                            then String.append rep (dropString (String.length p) s)
                            else match s with
                                 | EmptyString => EmptyString
                                 | String c s' => String c (replace p rep s')
                                 end)
    by (intros [|c s]; reflexivity).
  now rewrite Heq, prefix_append, dropString_append.
Qed.

Lemma split_noChar (sep : ascii) (s : string) :
  noChar sep s = true -> split sep s = [s].
Proof.
  induction s as [|c s IH]; simpl; intros H; [reflexivity |].
  apply andb_true_iff in H as [Hc Hs]. apply negb_true_iff in Hc.
  now rewrite Hc, (IH Hs).
Qed.

(** [split] works segment by segment. *)
Lemma split_append (sep : ascii) (a b : string) :
  split sep (String.append a (String sep b)) = split sep a ++ split sep b.
Proof.
  induction a as [|c a IH].
  - change (String.append "" (String sep b)) with (String sep b).
    simpl. now rewrite Ascii.eqb_refl.
  - rewrite append_cons. simpl. rewrite IH.
    destruct (Ascii.eqb c sep); [reflexivity |].
    pose proof (split_nonempty sep a) as Hne.
    now destruct (split sep a) as [|seg segs].
Qed.

Lemma split_segments (sep : ascii) (s : string) :
  Forall (fun seg => noChar sep seg = true) (split sep s).
Proof.
  induction s as [|c s IH]; simpl.
  - now repeat constructor.
  - destruct (Ascii.eqb c sep) eqn:Hc; [now constructor |].
    destruct (split sep s) as [|seg segs]; unfold noChar in *; simpl.
    + repeat constructor. simpl. now rewrite Hc.
    + inversion_clear IH as [|? ? Hseg Hsegs]. constructor; [| exact Hsegs].
      simpl. now rewrite Hc.
Qed.

(** The first field of a string: what stands before the first separator. *)
Lemma split_head (sep : ascii) (a tail : string) :
  noChar sep a = true -> emptyOrFrom sep tail = true ->
  nth 0 (split sep (String.append a tail)) EmptyString = a.
Proof.
  intros Ha Htail. destruct tail as [|c tail].
  - now rewrite append_empty_r, (split_noChar sep a Ha).
  - simpl in Htail. apply Ascii.eqb_eq in Htail as ->.
    now rewrite split_append, (split_noChar sep a Ha).
Qed.

(** Conversely, a string is its first field followed by nothing or by a
    separator. *)
Lemma split_head_tail (sep : ascii) (s : string) :
  exists tail,
    s = String.append (nth 0 (split sep s) EmptyString) tail
    /\ emptyOrFrom sep tail = true
    /\ noChar sep (nth 0 (split sep s) EmptyString) = true.
Proof.
  induction s as [|c s (tail & Hs & Htail & Hno)].
  - now exists EmptyString.
  - simpl. destruct (Ascii.eqb c sep) eqn:Hc.
    + exists (String c s). simpl. now rewrite Hc.
    + exists tail.
      assert (Hhead : nth 0 (match split sep s with
                             | seg :: segs => String c seg :: segs
                             | [] => [String c EmptyString]
                             end) EmptyString
                      = String c (nth 0 (split sep s) EmptyString))
        by now destruct (split sep s).
      rewrite Hhead, append_cons, <- Hs. unfold noChar in *. simpl.
      rewrite Hc. now repeat split.
Qed.

(** *** The gate of [git-receive-pack] *)

(** X1.  [git-receive-pack] refuses a push in three ways, each checked
    before the body is read: without an actor identity the reply is 401
    and no collaborator is called at all, not even the repository lookup;
    an unknown repository gives 404; a requester without write access
    gives 403.  In all three the world is left as it was: nothing is
    unpacked and no ref is touched. *)
Theorem receivePack_refusals (req : Request) (w : World B) :
  let found := GetRepositoryByName (param_owner req) (param_name req) in
  let user := default EmptyString (header_address req) in
  (falsy (header_address req) = true ->
   receivePack C B req w = (Val (text "Authentication required" 401), w, []))
  /\ (falsy (header_address req) = false ->
      getRepositoryByName B (manager w) (param_owner req) (param_name req) = None ->
      receivePack C B req w = (Val (text "Repository not found" 404), w, [found]))
  /\ (forall repo,
        falsy (header_address req) = false ->
        getRepositoryByName B (manager w) (param_owner req) (param_name req) = Some repo ->
        hasWriteAccess B (manager w) (repoId repo) user = false ->
        receivePack C B req w
        = (Val (text "Write access denied" 403), w,
           [found; HasWriteAccess (repoId repo) user])).
Proof.
  intros found user. repeat split.
  - intros Hfalsy. now rewrite (receivePack_run C B), Hfalsy.
  - intros Hfalsy Hrepo. now rewrite (receivePack_run C B), Hfalsy, Hrepo.
  - intros repo Hfalsy Hrepo Hwrite. rewrite (receivePack_run C B), Hfalsy, Hrepo.
    fold user. now rewrite Hwrite.
Qed.

(** *** The push advertisement *)

(** X2.  The ref advertisement for [git-receive-pack] is gated by write
    access whatever the visibility of the repository: no identity gives
    401, a denied check 403, and only a granted check is followed by
    [getRefs]; read access is never consulted. *)
Theorem pushAdvertisement_write_gate (req : Request) (w : World B) (repo : Repository) :
  let found := GetRepositoryByName (param_owner req) (param_name req) in
  let user := default EmptyString (header_address req) in
  let refs := getRefs B (manager w) (repoId repo) in
  query_service req = Some "git-receive-pack" ->
  getRepositoryByName B (manager w) (param_owner req) (param_name req) = Some repo ->
  (falsy (header_address req) = true ->
   infoRefs C B req w = (Val (text "Authentication required" 401), w, [found]))
  /\ (falsy (header_address req) = false ->
      hasWriteAccess B (manager w) (repoId repo) user = false ->
      infoRefs C B req w
      = (Val (text "Write access denied" 403), w,
         [found; HasWriteAccess (repoId repo) user]))
  /\ (falsy (header_address req) = false ->
      hasWriteAccess B (manager w) (repoId repo) user = true ->
      infoRefs C B req w
      = (Val (response (formatInfoRefs C "git-receive-pack" refs)
                [("Content-Type", "application/x-git-receive-pack-advertisement");
                 ("Cache-Control", "no-cache")]),
         w, [found; HasWriteAccess (repoId repo) user; GetRefs (repoId repo)])).
Proof.
  intros found user refs Hs Hrepo.
  rewrite (infoRefs_push C B req w repo Hs Hrepo). fold found user refs.
  repeat split.
  - now intros ->.
  - now intros -> ->.
  - now intros -> ->.
Qed.

(** *** Repositories that are not private *)

(** X3.  The read gate is the test [visibility === 1]: a repository with
    any other visibility value, 0 or not, is served to everyone.  The
    fetch advertisement and [git-upload-pack] then make no access check
    and do not look at the identity of the requester. *)
Theorem open_repository_served (req : Request) (w : World B) (repo : Repository) :
  let found := GetRepositoryByName (param_owner req) (param_name req) in
  getRepositoryByName B (manager w) (param_owner req) (param_name req) = Some repo ->
  visibility repo <> 1 ->
  uploadPack C B req w = after [found] (serveUploadPack C B repo req w)
  /\ (query_service req = Some "git-upload-pack" ->
      infoRefs C B req w
      = (Val (response
                (formatInfoRefs C "git-upload-pack" (getRefs B (manager w) (repoId repo)))
                [("Content-Type", "application/x-git-upload-pack-advertisement");
                 ("Cache-Control", "no-cache")]),
         w, [found; GetRefs (repoId repo)])).
Proof.
  intros found Hrepo Hvis.
  apply Z.eqb_neq in Hvis. split.
  - now rewrite (uploadPack_run C B req w repo Hrepo), Hvis.
  - intros Hs. now rewrite (infoRefs_fetch C B req w repo Hs Hrepo), Hvis.
Qed.

(** *** Fetching changes nothing *)

Lemma finalWorld_after {A} (evs : list Event) (run : Result A * World B * list Event) :
  finalWorld (after evs run) = finalWorld run.
Proof. now destruct run as [[r w] ev]. Qed.

Lemma serveUploadPack_world (repo : Repository) (req : Request) (w : World B) :
  finalWorld (serveUploadPack C B repo req w) = w.
Proof.
  destruct (parsePktLines C (arrayBuffer req)) as [lines|e] eqn:Hparse.
  - destruct (scanLines lines) as [wants haves] eqn:Hscan.
    rewrite (serveUploadPack_run C B repo req w lines wants haves Hparse Hscan).
    destruct wants; [reflexivity |]. now destruct (createPackfile B _ _).
  - now rewrite (serveUploadPack_malformed C B repo req w e Hparse).
Qed.

(** X4.  The two fetch endpoints are read-only: whatever the request and
    however the run ends (a reply, or an error thrown by [parsePktLines] or
    [createPackfile]), [info/refs] and [git-upload-pack] leave the
    repository manager and every object store as they found them. *)
Theorem fetch_leaves_world (req : Request) (w : World B) :
  finalWorld (infoRefs C B req w) = w
  /\ finalWorld (uploadPack C B req w) = w.
Proof.
  split.
  - destruct (falsy (query_service req)
              || (negb (serviceIs (query_service req) "git-upload-pack")
                  && negb (serviceIs (query_service req) "git-receive-pack"))) eqn:Hbad.
    { unfold infoRefs. now rewrite Hbad. }
    apply known_service in Hbad.
    destruct (getRepositoryByName B (manager w) (param_owner req) (param_name req))
      as [repo|] eqn:Hrepo.
    2:{ now rewrite (infoRefs_not_found C B req w Hbad Hrepo). }
    destruct Hbad as [Hs | Hs].
    + rewrite (infoRefs_fetch C B req w repo Hs Hrepo).
      destruct (visibility repo =? 1);
        [destruct (falsy (header_address req));
           [| destruct (hasReadAccess B _ _ _)] |]; reflexivity.
    + rewrite (infoRefs_push C B req w repo Hs Hrepo).
      destruct (falsy (header_address req));
        [| destruct (hasWriteAccess B _ _ _)]; reflexivity.
  - destruct (getRepositoryByName B (manager w) (param_owner req) (param_name req))
      as [repo|] eqn:Hrepo.
    + rewrite (uploadPack_run C B req w repo Hrepo).
      destruct (visibility repo =? 1);
        [destruct (falsy (header_address req));
           [| destruct (hasReadAccess B _ _ _)] |];
        rewrite ?finalWorld_after, ?serveUploadPack_world; reflexivity.
    + unfold uploadPack, bind, repoManager_getRepositoryByName. simpl.
      now rewrite Hrepo.
Qed.

(** *** Whether a repository exists *)

Lemma outcome_after {A} (evs : list Event) (run : Result A * World B * list Event) :
  outcome (after evs run) = outcome run.
Proof. now destruct run as [[r w] ev]. Qed.

Lemma serveUploadPack_status (repo : Repository) (req : Request) (w : World B)
    (resp : Response) :
  outcome (serveUploadPack C B repo req w) = Val resp -> status resp = 200.
Proof.
  destruct (parsePktLines C (arrayBuffer req)) as [lines|e] eqn:Hparse.
  - destruct (scanLines lines) as [wants haves] eqn:Hscan.
    rewrite (serveUploadPack_run C B repo req w lines wants haves Hparse Hscan).
    destruct wants; [now intros [= <-] |].
    destruct (createPackfile B _ _); [now intros [= <-] | discriminate].
  - now rewrite (serveUploadPack_malformed C B repo req w e Hparse).
Qed.

(** X5.  [git-upload-pack] looks the repository up before it looks at
    the requester: the reply is 404 [Repository not found] exactly when
    the repository does not exist, whoever asks.  For a private
    repository a requester without identity or without read access gets
    401 or 403 instead, and so learns that the repository exists. *)
Theorem uploadPack_not_found_iff (req : Request) (w : World B) :
  outcome (uploadPack C B req w) = Val (text "Repository not found" 404)
  <-> getRepositoryByName B (manager w) (param_owner req) (param_name req) = None.
Proof.
  destruct (getRepositoryByName B (manager w) (param_owner req) (param_name req))
    as [repo|] eqn:Hrepo.
  - rewrite (uploadPack_run C B req w repo Hrepo). split; [| discriminate].
    intros Hrun. exfalso.
    assert (Hserve : outcome (serveUploadPack C B repo req w)
                     <> Val (text "Repository not found" 404)).
    { intros H. apply serveUploadPack_status in H. discriminate H. }
    destruct (visibility repo =? 1);
      [destruct (falsy (header_address req));
         [| destruct (hasReadAccess B _ _ _)] |];
      rewrite ?outcome_after in Hrun; try discriminate Hrun; now apply Hserve.
  - split; [reflexivity | intros _].
    unfold uploadPack, bind, repoManager_getRepositoryByName. simpl.
    now rewrite Hrepo.
Qed.

(** *** The lines of a fetch request *)

Lemma untilChar_split (c : ascii) (s : string) :
  untilChar c s = nth 0 (split c s) EmptyString.
Proof.
  induction s as [|x s IH]; [reflexivity |].
  simpl. destruct (Ascii.eqb x c); [reflexivity |].
  rewrite IH. now destruct (split c s).
Qed.

(** On a [want] or a [have] line, [line.split(' ')[1]] is the text after
    the keyword up to the next space. *)
Lemma secondField_oidAfter (kw rest : string) :
  String.length kw = 4%nat -> noChar SPACE kw = true ->
  secondField (String.append kw (String SPACE rest))
  = oidAfter (String.append kw (String SPACE rest)).
Proof.
  intros Hlen Hkw. unfold secondField, oidAfter.
  rewrite split_append, (split_noChar SPACE kw Hkw). cbn [app nth].
  rewrite <- untilChar_split. f_equal.
  replace 5%nat with (S (String.length kw)) by now rewrite Hlen.
  clear Hlen Hkw. induction kw as [|x kw IH]; [reflexivity |].
  rewrite append_cons. exact IH.
Qed.

Lemma wantLine_shape (line : string) :
  isWantLine line = true ->
  exists rest, line = String.append "want" (String SPACE rest)
               /\ isHaveLine line = false.
Proof.
  intros H. apply (startsWith_app "want ") in H as [rest ->].
  exists rest. split; reflexivity.
Qed.

Lemma haveLine_shape (line : string) :
  isHaveLine line = true ->
  exists rest, line = String.append "have" (String SPACE rest)
               /\ isWantLine line = false.
Proof.
  intros H. apply (startsWith_app "have ") in H as [rest ->].
  exists rest. split; reflexivity.
Qed.

(** One turn of the loop, by the kind of the line. *)
Lemma scanLine_kind (wants haves : list string) (line : string) :
  scanLine (wants, haves) line
  = (wants ++ (if isWantLine line then [oidAfter line] else []),
     haves ++ (if isHaveLine line then [oidAfter line] else [])).
Proof.
  unfold scanLine, startsWith. fold (isWantLine line) (isHaveLine line).
  destruct (isWantLine line) eqn:Hw.
  - destruct (wantLine_shape line Hw) as (rest & -> & ->).
    now rewrite secondField_oidAfter, app_nil_r.
  - destruct (isHaveLine line) eqn:Hh.
    + destruct (haveLine_shape line Hh) as (rest & -> & _).
      now rewrite secondField_oidAfter, app_nil_r.
    + now rewrite !app_nil_r.
Qed.

(** The loop over the lines of a fetch request, whatever the lines and
    their order: the wants are the oids of the [want] lines and the haves
    those of the [have] lines. *)
Lemma scanLines_spec (lines : list string) :
  scanLines lines = (wantedOids lines, haveOids lines).
Proof.
  unfold scanLines, wantedOids, haveOids.
  assert (H : forall wants haves,
            fold_left scanLine lines (wants, haves)
            = (wants ++ map oidAfter (List.filter isWantLine lines),
               haves ++ map oidAfter (List.filter isHaveLine lines))).
  { induction lines as [|line lines IH]; intros wants haves.
    - simpl. now rewrite !app_nil_r.
    - cbn [fold_left List.filter]. rewrite scanLine_kind, IH.
      destruct (isWantLine line), (isHaveLine line); cbn [map];
        now rewrite <- !app_assoc. }
  exact (H [] []).
Qed.

Lemma oidAfter_field (kw oid tail : string) :
  String.length kw = 5%nat ->
  noChar SPACE oid = true -> emptyOrFrom SPACE tail = true ->
  oidAfter (String.append kw (String.append oid tail)) = oid.
Proof.
  intros Hlen Hoid Htail. unfold oidAfter.
  rewrite <- Hlen, dropString_append, untilChar_split.
  now apply split_head.
Qed.

(** X6.  The loop over the lines of a fetch request, whatever the lines
    and their order, recovers the oids of the [want] lines and those of
    the [have] lines, each list in the order of the lines; every other
    line ([done]) is skipped.  The oid of a line is what stands between the
    keyword and the next space, so the capabilities that follow the oid of
    a [want] line are dropped. *)
Theorem scanLines_wants_haves (lines : list string) :
  scanLines lines = (wantedOids lines, haveOids lines)
  /\ forall oid tail,
       noChar SPACE oid = true -> emptyOrFrom SPACE tail = true ->
       wantedOids [wantLine oid tail] = [oid] /\ haveOids [wantLine oid tail] = []
       /\ haveOids [haveLine oid tail] = [oid] /\ wantedOids [haveLine oid tail] = [].
Proof.
  split; [apply scanLines_spec |].
  intros oid tail Hoid Htail. unfold wantedOids, haveOids, wantLine, haveLine.
  cbn [List.filter]. unfold isWantLine, isHaveLine. rewrite !prefix_append.
  change (String.prefix "have " (String.append "want " ?x)) with false.
  change (String.prefix "want " (String.append "have " ?x)) with false.
  cbn [map]. now rewrite !oidAfter_field.
Qed.

(** *** The commands of a push *)

Lemma not_short (line : string) :
  (4 < String.length line)%nat ->
  String.eqb line "" || String.eqb line "0000" = false.
Proof.
  intros Hlen.
  destruct (String.eqb_spec line "") as [-> | _]; [simpl in Hlen; lia |].
  destruct (String.eqb_spec line "0000") as [-> | _]; [simpl in Hlen; lia |].
  reflexivity.
Qed.

Lemma isOid_true (s : string) :
  isOid s = true <-> String.length s = 40%nat /\ allChars isLowerHex s = true.
Proof.
  unfold isOid. rewrite andb_true_iff, Nat.eqb_eq. reflexivity.
Qed.

(** X7.  A command line [<old> <new> <refname>] of a push is read as the
    update of [refname]; on the first command, where the client appends a
    NUL and its capabilities to the ref name, the update is the same: the
    ref name ends at the first NUL. *)
Theorem scanCommand_capabilities (updates : list Update) (old new name tail : string) :
  isOid old = true -> isOid new = true ->
  noChar NUL name = true -> emptyOrFrom NUL tail = true ->
  String.append name tail <> EmptyString ->
  allChars (fun c => negb (isLineTerminator c)) (String.append name tail) = true ->
  scanCommand updates
    (String.append old
       (String.append " " (String.append new (String.append " " (String.append name tail)))))
  = updates ++ [{| oldOid := old; newOid := new; refName := name |}].
Proof.
  intros Hold Hnew Hname Htail Hne Hdot.
  apply isOid_true in Hold as [Hlo Ho]. apply isOid_true in Hnew as [Hln Hn].
  unfold scanCommand. rewrite not_short by (rewrite append_length; lia).
  rewrite (matchCommand_command old new _ Hlo Ho Hln Hn Hne Hdot).
  now rewrite (split_head NUL name tail Hname Htail).
Qed.

Lemma takeClass_inv (f : ascii -> bool) : forall (k : nat) (s a r : string),
  takeClass f k s = Some (a, r) ->
  String.length a = k /\ allChars f a = true /\ s = String.append a r.
Proof.
  induction k as [|k IH]; intros s a r H; simpl in H.
  - injection H as <- <-. now repeat split.
  - destruct s as [|c s]; [discriminate H |].
    destruct (f c) eqn:Hc; [| discriminate H].
    destruct (takeClass f k s) as [[a' r']|] eqn:Htake; [| discriminate H].
    injection H as <- <-. destruct (IH s a' r' Htake) as (Hlen & Hall & ->).
    simpl. now rewrite Hlen, Hc, Hall.
Qed.

Lemma expectSpace_inv (s r : string) :
  expectSpace s = Some r -> s = String SPACE r.
Proof.
  destruct s as [|c s]; [discriminate |]. simpl.
  destruct (Ascii.eqb_spec c SPACE) as [-> | _]; [| discriminate].
  now intros [= ->].
Qed.

(** What the regular expression accepts. *)
Lemma matchCommand_inv (line g1 g2 g3 : string) :
  matchCommand line = Some (g1, g2, g3) ->
  isOid g1 = true /\ isOid g2 = true /\ g3 <> EmptyString
  /\ allChars (fun c => negb (isLineTerminator c)) g3 = true
  /\ line = String.append g1 (String SPACE (String.append g2 (String SPACE g3))).
Proof.
  unfold matchCommand. intros H.
  destruct (takeClass isLowerHex 40 line) as [[a1 r1]|] eqn:H1; [| discriminate H].
  destruct (expectSpace r1) as [r2|] eqn:H2; [| discriminate H].
  destruct (takeClass isLowerHex 40 r2) as [[a2 r3]|] eqn:H3; [| discriminate H].
  destruct (expectSpace r3) as [r4|] eqn:H4; [| discriminate H].
  destruct r4 as [|c r4]; [discriminate H |].
  destruct (allChars _ (String c r4)) eqn:Hdot; [| discriminate H].
  injection H as <- <- <-.
  apply takeClass_inv in H1 as (Hl1 & Ha1 & ->).
  apply takeClass_inv in H3 as (Hl3 & Ha3 & ->).
  apply expectSpace_inv in H2 as ->. apply expectSpace_inv in H4 as ->.
  repeat split; try (apply isOid_true; now split); [discriminate | exact Hdot].
Qed.

(** One turn of the loop adds at most one update, to the end. *)
Lemma scanCommand_acc (updates : list Update) (line : string) :
  scanCommand updates line = updates ++ scanCommand [] line.
Proof.
  unfold scanCommand.
  destruct (String.eqb line "" || String.eqb line "0000"); [now rewrite app_nil_r |].
  destruct (matchCommand line) as [[[g1 g2] g3]|]; [reflexivity | now rewrite app_nil_r].
Qed.

Lemma parseUpdates_flat_map (lines : list string) :
  parseUpdates lines = flat_map (scanCommand []) lines.
Proof.
  unfold parseUpdates.
  assert (H : forall acc, fold_left scanCommand lines acc
                          = acc ++ flat_map (scanCommand []) lines).
  { induction lines as [|line lines IH]; intros acc; simpl.
    - now rewrite app_nil_r.
    - now rewrite IH, (scanCommand_acc acc line), <- app_assoc. }
  exact (H []).
Qed.

Lemma scanCommand_inv (line : string) (u : Update) :
  In u (scanCommand [] line) ->
  isOid (oldOid u) = true /\ isOid (newOid u) = true
  /\ noChar NUL (refName u) = true
  /\ exists tail,
       emptyOrFrom NUL tail = true
       /\ line = String.append (oldOid u)
                   (String SPACE
                      (String.append (newOid u)
                         (String SPACE (String.append (refName u) tail)))).
Proof.
  unfold scanCommand.
  destruct (String.eqb line "" || String.eqb line "0000"); [intros [] |].
  destruct (matchCommand line) as [[[g1 g2] g3]|] eqn:Hmatch; [| intros []].
  intros [<- | []]. cbn [oldOid newOid refName app].
  apply matchCommand_inv in Hmatch as (H1 & H2 & _ & _ & ->).
  destruct (split_head_tail NUL g3) as (tail & Hg3 & Htail & Hno).
  repeat split; try assumption.
  exists tail. split; [exact Htail |]. now rewrite <- Hg3.
Qed.

Lemma scanCommand_length (line : string) : (length (scanCommand [] line) <= 1)%nat.
Proof.
  unfold scanCommand.
  destruct (String.eqb line "" || String.eqb line "0000"); [simpl; lia |].
  destruct (matchCommand line) as [[[g1 g2] g3]|]; simpl; lia.
Qed.

(** X8.  Whatever the lines of a push are, the commands read from them
    are well formed: the two oids are 40 lowercase hexadecimal digits, the
    ref name has no NUL, and the command stands on one of the lines, as
    [<old> <new> <refname>] followed by nothing or by a NUL and
    capabilities.  Lines of any other form are skipped without an error,
    so there are at most as many commands as lines. *)
Theorem parseUpdates_sound (lines : list string) :
  (length (parseUpdates lines) <= length lines)%nat
  /\ forall u, In u (parseUpdates lines) ->
       isOid (oldOid u) = true /\ isOid (newOid u) = true
       /\ noChar NUL (refName u) = true
       /\ exists tail,
            emptyOrFrom NUL tail = true
            /\ In (String.append (oldOid u)
                     (String SPACE
                        (String.append (newOid u)
                           (String SPACE (String.append (refName u) tail)))))
                  lines.
Proof.
  rewrite parseUpdates_flat_map. split.
  - induction lines as [|line lines IH]; simpl; [lia |].
    rewrite length_app. pose proof (scanCommand_length line). lia.
  - intros u Hu. apply in_flat_map in Hu as (line & Hline & Hu).
    destruct (scanCommand_inv line u Hu) as (H1 & H2 & H3 & tail & Htail & Heq).
    repeat split; try assumption. exists tail. split; [exact Htail |].
    now rewrite <- Heq.
Qed.

(** *** The report *)

Lemma statusLine_resultOf (u : Update) : statusLine (resultOf u) = reportLine u.
Proof.
  unfold resultOf, reportLine, branchUpdate.
  now destruct (startsWith (refName u) "refs/heads/").
Qed.

(** X9.  A push that is answered with status 200 gets the report
    [unpack ok] followed by one status line per command, in the order of
    the commands: [ok <ref>] for a ref under [refs/heads/], and
    [ng <ref> Only branch updates supported] for any other ref. *)
Theorem receivePack_status_report (req : Request) (w : World B) (resp : Response) :
  outcome (receivePack C B req w) = Val resp ->
  status resp = 200 ->
  exists lines,
    parsePktLines C (fst (splitBody (arrayBuffer req))) = Val lines
    /\ resp = response
                (createPktLines C ("unpack ok" :: map reportLine (parseUpdates lines)))
                [("Content-Type", "application/x-git-receive-pack-result");
                 ("Cache-Control", "no-cache")].
Proof.
  intros Hrun Hstatus.
  destruct (receivePack_shape C B req w) as [(_ & _ & Hresp & _) | Hloop].
  - now contradiction (Hresp resp Hrun).
  - destruct Hloop as (repo & lines & ev & _ & _ & _ & Hparse & _ & _ & _ & _ & Hresp).
    exists lines. split; [exact Hparse |].
    rewrite (Hresp resp Hrun). unfold responseLines. rewrite map_map.
    f_equal. f_equal. f_equal. apply map_ext. exact statusLine_resultOf.
Qed.

(** *** The loop over the commands *)

(** The loop over two lists of commands is the loop over the first, and
    then, unless a call has thrown, the loop over the second. *)
Lemma applyUpdates_app (repo : Repository) (name user : string) (us2 : list Update) :
  forall (us1 : list Update) (results : list PushResult) (w : World B),
  applyUpdates B repo name user (us1 ++ us2) results w
  = match applyUpdates B repo name user us1 results w with
    | (Val res, w1, ev1) => after ev1 (applyUpdates B repo name user us2 res w1)
    | (Exn e, w1, ev1) => (Exn e, w1, ev1)
    end.
Proof.
  induction us1 as [|u us1 IH]; intros results w.
  - cbn [app applyUpdates]. unfold ret. now rewrite after_nil.
  - cbn [app applyUpdates].
    destruct (startsWith (refName u) "refs/heads/"); cbn [negb]; [| apply IH].
    unfold bind, objectStore_walkCommits, repoManager_pushBranch, trackGitContribution.
    destruct (pushBranch B _ _ _ _ _ _ _) as [m|err]; [| reflexivity].
    rewrite IH.
    destruct (applyUpdates B repo name user us1 _ _) as [[[res|e] w1] ev1];
      [| reflexivity].
    destruct (applyUpdates B repo name user us2 res w1) as [[r w2] ev2].
    reflexivity.
Qed.

(** X10.  A push is not atomic.  When [pushBranch] throws on a command,
    the loop stops there with that error: the refs that the commands
    before it have moved stay moved (the world is the one those commands
    left), the commands after it are not looked at, and no result list is
    returned. *)
Theorem applyUpdates_no_rollback (repo : Repository) (name user : string)
    (done : list Update) (u : Update) (rest : list Update)
    (results res : list PushResult) (w w1 : World B) (ev : list Event) (e : string) :
  let n := Z.of_nat (length (walkCommits B (objects w1 (repoId repo)) (newOid u) 100)) in
  let branch := replace "refs/heads/" "" (refName u) in
  applyUpdates B repo name user done results w = (Val res, w1, ev) ->
  branchUpdate u = true ->
  pushBranch B (manager w1) (repoId repo) branch (newOid u) (expectedOld u) n user = Exn e ->
  applyUpdates B repo name user (done ++ u :: rest) results w
  = (Exn e, w1,
     ev ++ [WalkCommits (repoId repo) (newOid u) 100;
            PushBranch (repoId repo) branch (newOid u) (expectedOld u) n user]).
Proof.
  intros n branch Hdone Hbranch Hpush.
  rewrite applyUpdates_app, Hdone. cbn [applyUpdates].
  unfold branchUpdate in Hbranch. rewrite Hbranch. cbn [negb].
  unfold bind, objectStore_walkCommits, repoManager_pushBranch.
  fold n branch. change (if String.eqb (oldOid u) zeroOid then None else Some (oldOid u))
    with (expectedOld u).
  now rewrite Hpush.
Qed.

(** X11.  For a command on [refs/heads/<branch>], the loop first walks
    the commits of the new tip with limit 100 and then calls [pushBranch]
    with the branch name (the ref name without its leading [refs/heads/]
    only), the new oid, and as expected old oid [null] when the command
    carries the zero oid and the old oid of the command otherwise. *)
Theorem applyUpdates_branch_call (repo : Repository) (name user : string)
    (u : Update) (branch : string) (rest : list Update)
    (results : list PushResult) (w : World B) :
  let n := Z.of_nat (length (walkCommits B (objects w (repoId repo)) (newOid u) 100)) in
  refName u = String.append "refs/heads/" branch ->
  exists ev,
    calls (applyUpdates B repo name user (u :: rest) results w)
    = WalkCommits (repoId repo) (newOid u) 100
      :: PushBranch (repoId repo) branch (newOid u) (expectedOld u) n user
      :: ev
    /\ (expectedOld u = None <-> oldOid u = zeroOid).
Proof.
  intros n Href. cbn [applyUpdates]. rewrite Href.
  unfold startsWith. rewrite prefix_append, replace_prefix. cbn [negb].
  change (String.append "" branch) with branch.
  unfold bind, objectStore_walkCommits, repoManager_pushBranch, trackGitContribution.
  fold n. change (if String.eqb (oldOid u) zeroOid then None else Some (oldOid u))
    with (expectedOld u).
  assert (Hold : expectedOld u = None <-> oldOid u = zeroOid).
  { unfold expectedOld. destruct (String.eqb_spec (oldOid u) zeroOid); split; congruence. }
  destruct (pushBranch B _ _ _ _ _ _ _) as [m|err].
  - destruct (applyUpdates B repo name user rest _ _) as [[r w2] ev2].
    eexists. split; [reflexivity | exact Hold].
  - exists []. split; [reflexivity | exact Hold].
Qed.

(** When no call throws, the calls of the loop are those of its turns. *)
Lemma applyUpdates_trace (repo : Repository) (name user : string) :
  forall (updates : list Update) (results : list PushResult) (w : World B)
         (res : list PushResult),
  outcome (applyUpdates B repo name user updates results w) = Val res ->
  calls (applyUpdates B repo name user updates results w)
  = flat_map (loopCalls B (objects w (repoId repo)) repo name user) updates.
Proof.
  induction updates as [|u updates IH]; intros results w res Hres; [reflexivity |].
  cbn [applyUpdates flat_map] in *. unfold loopCalls at 1, branchUpdate.
  destruct (startsWith (refName u) "refs/heads/"); cbn [negb] in *.
  - unfold bind, objectStore_walkCommits, repoManager_pushBranch,
      trackGitContribution in *.
    change (if String.eqb (oldOid u) zeroOid then None else Some (oldOid u))
      with (expectedOld u) in *.
    destruct (pushBranch B _ _ _ _ _ _ _) as [m|err]; [| discriminate Hres].
    specialize (IH (results ++ [{| ref := refName u; success := true; error := None |}])
                  {| manager := m; objects := objects w |}).
    destruct (applyUpdates B repo name user updates _ _) as [[r w2] ev].
    cbn [outcome calls fst snd app] in *. now rewrite (IH res Hres).
  - now apply (IH _ w res).
Qed.

(** X12.  The calls of a push that is answered with status 200, in order:
    the repository lookup, the write check, [extractPackfile] on the pack
    part of the body, and then for each command on a branch, in command
    order, [walkCommits] with limit 100, [pushBranch] and one
    [trackGitContribution] of kind [commit] carrying the same commit count;
    a command on any other ref makes no call. *)
Theorem receivePack_success_trace (req : Request) (w : World B) (resp : Response) :
  let found := GetRepositoryByName (param_owner req) (param_name req) in
  let user := default EmptyString (header_address req) in
  let packData := snd (splitBody (arrayBuffer req)) in
  outcome (receivePack C B req w) = Val resp ->
  status resp = 200 ->
  exists repo lines,
    getRepositoryByName B (manager w) (param_owner req) (param_name req) = Some repo
    /\ parsePktLines C (fst (splitBody (arrayBuffer req))) = Val lines
    /\ calls (receivePack C B req w)
       = [found; HasWriteAccess (repoId repo) user; ExtractPackfile (repoId repo) packData]
         ++ flat_map
              (loopCalls B (fst (extractPackfile B (objects w (repoId repo)) packData))
                 repo (param_name req) user)
              (parseUpdates lines).
Proof.
  intros found user packData Hrun Hstatus.
  rewrite (receivePack_run C B) in Hrun |- *. fold found user packData in Hrun |- *.
  destruct (falsy (header_address req));
    [injection Hrun as <-; discriminate Hstatus |].
  destruct (getRepositoryByName B (manager w) (param_owner req) (param_name req))
    as [repo|]; [| injection Hrun as <-; discriminate Hstatus].
  destruct (hasWriteAccess B (manager w) (repoId repo) user);
    [| injection Hrun as <-; discriminate Hstatus].
  exists repo. rewrite (processPush_run C B) in Hrun |- *.
  destruct (parsePktLines C (fst (splitBody (arrayBuffer req)))) as [lines|e];
    [| discriminate Hrun].
  exists lines. cbv zeta in Hrun |- *. fold packData in Hrun |- *.
  destruct (extractPackfile B (objects w (repoId repo)) packData) as [st [err|]];
    cbn [fst snd] in Hrun |- *; [discriminate Hrun |].
  pose proof (applyUpdates_trace repo (param_name req) user (parseUpdates lines) []
                (setStore B w (repoId repo) st)) as Htrace.
  rewrite (objects_setStore B) in Htrace.
  destruct (applyUpdates B repo (param_name req) user (parseUpdates lines) [] _)
    as [[[results|e] w2] ev];
    cbn [after outcome finalWorld calls fst snd app] in Hrun, Htrace |- *;
    [| discriminate Hrun].
  repeat split. now rewrite (Htrace results eq_refl).
Qed.

(** *** The summary of a push *)

(** X13.  The summary recorded for a push is never empty and is a single
    line: the first line of the message of the first commit walked, and
    [Push] when there is no commit or that line is empty. *)
Theorem pushSummary_line (commits : list Commit) :
  pushSummary commits <> EmptyString
  /\ noChar LF (pushSummary commits) = true
  /\ (pushSummary commits = "Push"
      \/ exists c rest tail,
           commits = c :: rest
           /\ message c = String.append (pushSummary commits) tail
           /\ emptyOrFrom LF tail = true).
Proof.
  unfold pushSummary. destruct commits as [|c rest].
  - repeat split; [discriminate | now left].
  - destruct (split_head_tail LF (message c)) as (tail & Hmsg & Htail & Hno).
    destruct (String.eqb_spec (nth 0 (split LF (message c)) "") "") as [Heq | Hne].
    + repeat split; [discriminate | now left].
    + repeat split; [exact Hne | exact Hno |].
      right. exists c, rest, tail. now repeat split.
Qed.

(** *** The split of the body *)

Lemma relativeIndex_range (len i : Z) : 0 <= len -> 0 <= relativeIndex len i <= len.
Proof. intros Hlen. unfold relativeIndex. destruct (i <? 0) eqn:Hi; lia. Qed.

Lemma subarray_split (b : Buffer) (i : Z) :
  subarray b 0 (Some i) ++ subarray b i None = b.
Proof.
  unfold subarray.
  pose proof (relativeIndex_range (Z.of_nat (length b)) i ltac:(lia)) as Hr.
  set (r := relativeIndex (Z.of_nat (length b)) i) in *.
  replace (relativeIndex (Z.of_nat (length b)) 0) with 0
    by (unfold relativeIndex; simpl; lia).
  rewrite Z.sub_0_r. cbn [Z.to_nat drop].
  rewrite (take_ge (drop (Z.to_nat r) b)) by (rewrite length_drop; lia).
  apply take_drop.
Qed.

(** X14.  Splitting the body of a push loses no byte and adds none,
    wherever the [PACK] marker is and also when there is none: the command
    part followed by the pack part is the body. *)
Theorem splitBody_whole (body : Buffer) :
  fst (splitBody body) ++ snd (splitBody body) = body.
Proof. unfold splitBody. cbn [fst snd]. apply subarray_split. Qed.

End RouterMore.

(** ** The browsing route *)

(** *** Paths *)

Lemma prefix_empty (s : string) : String.prefix "" s = true.
Proof. now destruct s. Qed.

Lemma prefix_longer (sep : string) : forall (y z : string),
  (String.length sep <= String.length y)%nat ->
  String.prefix sep (String.append y z) = String.prefix sep y.
Proof.
  induction sep as [|a sep IH]; intros y z Hlen.
  - now rewrite !prefix_empty.
  - destruct y as [|b y]; [simpl in Hlen; lia |].
    rewrite append_cons. simpl. destruct (ascii_dec a b); [| reflexivity].
    apply IH. simpl in Hlen. lia.
Qed.

Lemma prefix_mono (sep : string) : forall (y z : string),
  String.prefix sep y = true -> String.prefix sep (String.append y z) = true.
Proof.
  induction sep as [|a sep IH]; intros y z H.
  - apply prefix_empty.
  - destruct y as [|b y]; [discriminate H |].
    rewrite append_cons. simpl in *. destruct (ascii_dec a b); [| discriminate H].
    now apply IH.
Qed.

Lemma append_assoc (a b c : string) :
  String.append (String.append a b) c = String.append a (String.append b c).
Proof. induction a as [|x a IH]; [reflexivity |]. now rewrite !append_cons, IH. Qed.

Lemma occurs_cons (sep : string) (c : ascii) (s : string) :
  occurs sep (String c s) = String.prefix sep (String c s) || occurs sep s.
Proof. reflexivity. Qed.

Lemma occurs_append (sep : string) : forall (a b : string),
  occurs sep (String.append a b) = false -> occurs sep a = false.
Proof.
  induction a as [|c a IH]; intros b H.
  - destruct sep as [|x sep]; [| reflexivity].
    destruct b; discriminate H.
  - rewrite append_cons, occurs_cons in H. apply orb_false_iff in H as [Hp Ho].
    rewrite occurs_cons, (IH b Ho), orb_false_r.
    destruct (String.prefix sep (String c a)) eqn:Hpre; [| reflexivity].
    apply (prefix_mono sep _ b) in Hpre. rewrite append_cons in Hpre. congruence.
Qed.

Lemma splitOnFrom_nonempty (sep : string) : forall (s : string) (skip : nat),
  splitOnFrom sep skip s <> [].
Proof.
  induction s as [|c s IH]; intros skip; [discriminate |].
  cbn [splitOnFrom]. destruct skip as [|k]; [| apply IH].
  destruct (String.prefix sep (String c s)); [discriminate |].
  destruct (splitOnFrom sep 0 s); discriminate.
Qed.

Lemma splitOnFrom_skip (sep : string) : forall (x r : string),
  splitOnFrom sep (String.length x) (String.append x r) = splitOnFrom sep 0 r.
Proof.
  induction x as [|c x IH]; intros r; [reflexivity |].
  rewrite append_cons. exact (IH r).
Qed.

(** A separator at the start ends an empty segment. *)
Lemma splitOn_at_sep (c : ascii) (sep' r : string) :
  splitOn (String c sep') (String.append (String c sep') r)
  = EmptyString :: splitOn (String c sep') r.
Proof.
  unfold splitOn. pose proof (prefix_append (String c sep') r) as Hp.
  rewrite append_cons in Hp |- *. cbn [splitOnFrom]. rewrite Hp.
  cbn [String.length]. rewrite Nat.sub_succ, Nat.sub_0_r.
  now rewrite splitOnFrom_skip.
Qed.

Lemma splitOn_step (sep : string) (c : ascii) (s : string) :
  String.prefix sep (String c s) = false ->
  splitOn sep (String c s)
  = match splitOn sep s with
    | seg :: segs => String c seg :: segs
    | [] => [String c EmptyString]
    end.
Proof. intros H. unfold splitOn. cbn [splitOnFrom]. now rewrite H. Qed.

(** Without a separator there is one segment. *)
Lemma splitOn_none (sep : string) : forall s : string,
  occurs sep s = false -> splitOn sep s = [s].
Proof.
  induction s as [|c s IH]; intros H; [reflexivity |].
  rewrite occurs_cons in H. apply orb_false_iff in H as [Hp Ho].
  now rewrite (splitOn_step sep c s Hp), (IH Ho).
Qed.

(** The first segment ends at the first separator: [a] is followed by the
    separator [init ++ [l]], and no separator starts earlier. *)
Lemma splitOn_first (init : string) (l : ascii) (r : string) : forall a : string,
  occurs (String.append init (String l "")) (String.append a init) = false ->
  splitOn (String.append init (String l ""))
    (String.append a (String.append (String.append init (String l "")) r))
  = a :: splitOn (String.append init (String l "")) r.
Proof.
  set (sep := String.append init (String l "")).
  assert (Hsep : exists c sep', sep = String c sep').
  { unfold sep. destruct init as [|c init]; [now exists l, EmptyString |].
    rewrite append_cons. now eexists _, _. }
  assert (Hlen : String.length sep = S (String.length init)).
  { unfold sep. rewrite append_length. simpl. lia. }
  induction a as [|c a IH]; intros H.
  - change (String.append "" ?x) with x.
    destruct Hsep as (c & sep' & ->). apply splitOn_at_sep.
  - rewrite append_cons, occurs_cons in H. apply orb_false_iff in H as [Hp Ho].
    rewrite append_cons.
    assert (Hp' : String.prefix sep (String c (String.append a (String.append sep r)))
                  = false).
    { unfold sep at 2. rewrite append_assoc, <- (append_assoc a init), <- append_cons.
      rewrite prefix_longer; [exact Hp |].
      rewrite Hlen. simpl. rewrite append_length. lia. }
    now rewrite (splitOn_step sep c _ Hp'), (IH Ho).
Qed.

Lemma split_slashes (s : string) :
  onlySlashes s = true -> pathParts s = [].
Proof.
  unfold pathParts, onlySlashes.
  induction s as [|c s IH]; intros H; [reflexivity |].
  simpl in H. apply andb_true_iff in H as [Hc Hs].
  simpl. rewrite Hc. simpl. exact (IH Hs).
Qed.

Lemma pathParts_append (a b : string) :
  pathParts (String.append a (String SLASH b)) = pathParts a ++ pathParts b.
Proof. unfold pathParts. now rewrite split_append, List.filter_app. Qed.

Lemma pathParts_part (p : string) : isPart p -> pathParts p = [p].
Proof.
  intros [Hne Hno]. unfold pathParts. rewrite (split_noChar SLASH p Hno). simpl.
  now destruct (String.eqb_spec p "").
Qed.

Lemma pathParts_join (parts : list string) :
  Forall isPart parts -> pathParts (join "/" parts) = parts.
Proof.
  induction 1 as [|p parts Hp Hparts IH]; [reflexivity |].
  destruct parts as [|q parts]; [now apply pathParts_part |].
  change (join "/" (p :: q :: parts))
    with (String.append p (String SLASH (join "/" (q :: parts)))).
  now rewrite pathParts_append, IH, (pathParts_part p Hp).
Qed.

Lemma pathParts_parts (s : string) : Forall isPart (pathParts s).
Proof.
  unfold pathParts. pose proof (split_segments SLASH s) as Hseg.
  induction Hseg as [|seg segs Hno _ IH]; [constructor |].
  simpl. destruct (String.eqb_spec seg "") as [-> | Hne]; [exact IH |].
  simpl. constructor; [now split | exact IH].
Qed.

(** X15.  The parts of a path are what stands between its slashes, empty
    pieces left out: leading, trailing and repeated slashes do not count.
    Every part is non-empty and has no slash, the parts of [a/b] are those
    of [a] followed by those of [b], and a list of parts joined with
    slashes is read back as it was. *)
Theorem pathParts_normalises (a b : string) (parts : list string) :
  Forall isPart parts ->
  pathParts (join "/" parts) = parts
  /\ pathParts (String.append a (String SLASH b)) = pathParts a ++ pathParts b
  /\ Forall isPart (pathParts a).
Proof.
  intros Hparts. split; [now apply pathParts_join |].
  split; [apply pathParts_append | apply pathParts_parts].
Qed.

(** X16.  The path that the route serves is cut out of the request path
    with [split('/contents/')[1]]: it starts after the first [/contents/]
    of the request path and ends before the next one.  So a path with a
    directory named [contents] in it is cut short there. *)
Theorem contentsPath_between_markers (pre p q : string) :
  occurs "/contents/" (String.append pre "/contents") = false ->
  occurs "/contents/" (String.append p "/contents") = false ->
  contentsPath (String.append pre (String.append "/contents/" p)) = p
  /\ contentsPath
       (String.append pre
          (String.append "/contents/" (String.append p (String.append "/contents/" q))))
     = p.
Proof.
  intros Hpre Hp. unfold contentsPath.
  pose proof (splitOn_first "/contents" SLASH) as Hfirst.
  change (String.append "/contents" (String SLASH "")) with "/contents/"%string in Hfirst.
  split.
  - rewrite (Hfirst p pre Hpre). cbn [nth].
    now rewrite (splitOn_none _ _ (occurs_append _ _ _ Hp)).
  - rewrite (Hfirst _ pre Hpre). cbn [nth]. now rewrite (Hfirst q p Hp).
Qed.

(** *** The handler *)

Section ContentsFacts.
Context (B : Backend) (R : Browser B).

Lemma andThen_inr {A A'} (m : Route B A) (k : A -> Route B A') (w : World B) (a : A) :
  fst (m w) = inr a -> fst (andThen B m k w) = fst (k a w).
Proof.
  unfold andThen. destruct (m w) as [[r|a'] c1]; simpl; [discriminate |].
  intros [= ->]. now destruct (k a w).
Qed.

Lemma andThen_inl {A A'} (m : Route B A) (k : A -> Route B A') (w : World B)
    (r : JsonResponse) :
  fst (m w) = inl r -> fst (andThen B m k w) = inl r.
Proof.
  unfold andThen. destruct (m w) as [[r'|a] c1]; simpl; [| discriminate].
  now intros [= ->].
Qed.

Lemma andThen_calls {A A'} (P : Call -> Prop) (m : Route B A) (k : A -> Route B A')
    (w : World B) :
  Forall P (snd (m w)) -> (forall a, Forall P (snd (k a w))) ->
  Forall P (snd (andThen B m k w)).
Proof.
  unfold andThen. intros Hm Hk. destruct (m w) as [[r|a] c1]; [exact Hm |].
  specialize (Hk a). destruct (k a w) as [r c2]. simpl in *.
  apply Forall_app. now split.
Qed.

Lemma required_calls {A} (P : Call -> Prop) (call : World B -> option A * Call)
    (msg : string) (w : World B) :
  P (snd (call w)) -> Forall P (snd (required B call msg w)).
Proof.
  unfold required. destruct (call w) as [[a|] c]; simpl; intros H; now repeat constructor.
Qed.

Lemma required_some {A} (call : World B -> option A * Call) (msg : string)
    (w : World B) (a : A) :
  fst (call w) = Some a -> required B call msg w = (inr a, [snd (call w)]).
Proof. unfold required. destruct (call w) as [[a'|] c]; simpl; now intros [= ->]. Qed.

Lemma served_fst (m : Route B JsonResponse) (w : World B) (r : JsonResponse) :
  fst (m w) = inl r \/ fst (m w) = inr r -> fst (served B m w) = r.
Proof.
  unfold served. destruct (m w) as [[r'|r'] c]; simpl; intros [H | H]; congruence.
Qed.

Lemma served_snd (m : Route B JsonResponse) (w : World B) :
  snd (served B m w) = snd (m w).
Proof. unfold served. now destruct (m w) as [[r|r] c]. Qed.

(** The handler, once the root tree is reached. *)
Lemma contents_run (req : BrowseRequest) (w : World B) (repo : Repository)
    (branch : BranchRecord) (commit : Commit) (root : list TreeEntry) :
  reachesRoot B R req w repo branch commit root ->
  let rest := listPath B R (repoId repo) (contentsPath (browse_path req)) root w in
  contents B R req w = (fst rest, rootCalls req repo branch commit ++ snd rest).
Proof.
  intros (Hrepo & Hbranch & Hcommit & Hroot) rest. subst rest.
  unfold contents, andThen at 1 2 3 4.
  rewrite (required_some (lookupRepository B _ _) _ w repo Hrepo).
  rewrite (required_some (repoManager_getBranch B R _ _) _ w branch Hbranch).
  rewrite (required_some (objectStore_getCommit B R _ _) _ w commit Hcommit).
  rewrite (required_some (objectStore_getTree B R _ _) _ w root Hroot).
  now destruct (listPath B R _ _ root w) as [r c].
Qed.

(** The loop follows a chain of directories. *)
Lemma descend_leadsTo (repo : string) (w : World B) :
  forall (t : list TreeEntry) (dirs : list string) (t' : list TreeEntry),
  leadsTo B R (objects w repo) t dirs t' ->
  fst (descend B R repo t dirs w) = inr t'.
Proof.
  induction 1 as [t | t part entry next rest t' Hfind Htree _ IH]; [reflexivity |].
  cbn [descend]. rewrite Hfind.
  rewrite (andThen_inr _ _ w next); [exact IH |].
  now rewrite (required_some (objectStore_getTree B R _ _) _ w next Htree).
Qed.

(** The loop stops at a part that names no directory. *)
Lemma descend_blocked (repo : string) (w : World B) (part : string) (more : list string) :
  forall (t : list TreeEntry) (dirs : list string) (t' : list TreeEntry),
  leadsTo B R (objects w repo) t dirs t' ->
  List.find (isTreeNamed part) t' = None ->
  fst (descend B R repo t (dirs ++ part :: more) w)
  = inl (jsonError "Path not found" 404).
Proof.
  induction 1 as [t | t part' entry next rest t' Hfind Htree _ IH]; intros Hnone.
  - cbn [app descend]. now rewrite Hnone.
  - cbn [app descend]. rewrite Hfind.
    rewrite (andThen_inr _ _ w next); [exact (IH Hnone) |].
    now rewrite (required_some (objectStore_getTree B R _ _) _ w next Htree).
Qed.

Lemma descend_calls (repo : string) (w : World B) :
  forall (dirs : list string) (t : list TreeEntry),
  Forall (fun c => isAccessCall c = false) (snd (descend B R repo t dirs w)).
Proof.
  induction dirs as [|part rest IH]; intros t; cbn [descend]; [constructor |].
  destruct (List.find (isTreeNamed part) t) as [entry|]; [| constructor].
  apply andThen_calls; [now apply required_calls | intros next; apply IH].
Qed.

(** X17.  An empty path, or one of slashes only, lists the root tree of
    the tip of the branch, under the path [''], after exactly four calls:
    the repository, the branch ([main] when [ref] is missing or empty),
    the commit of its tip and the tree of that commit. *)
Theorem contents_root_listing (req : BrowseRequest) (w : World B) (repo : Repository)
    (branch : BranchRecord) (commit : Commit) (root : list TreeEntry) :
  reachesRoot B R req w repo branch commit root ->
  onlySlashes (contentsPath (browse_path req)) = true ->
  served B (contents B R req) w
  = (json (dirJson "" root) 200, rootCalls req repo branch commit).
Proof.
  intros Hroot Hslashes. unfold served.
  rewrite (contents_run req w repo branch commit root Hroot).
  unfold listPath. rewrite (split_slashes _ Hslashes).
  cbn. now rewrite ?app_nil_r.
Qed.

(** X18.  Path resolution.  When all parts of the path but the last lead
    through directories to a tree, and that tree has an entry named as the
    last part (the first such entry counts), the reply is the listing of
    that entry's tree if the entry is of type [tree], and otherwise the
    file: its oid, its size in bytes and its content, as text when the
    content has no zero byte and in base64 when it has one. *)
Theorem contents_resolves (req : BrowseRequest) (w : World B) (repo : Repository)
    (branch : BranchRecord) (commit : Commit) (root : list TreeEntry)
    (dirs : list string) (name : string) (t : list TreeEntry) (target : TreeEntry) :
  let st := objects w (repoId repo) in
  let path := contentsPath (browse_path req) in
  reachesRoot B R req w repo branch commit root ->
  pathParts path = dirs ++ [name] ->
  leadsTo B R st root dirs t ->
  List.find (isNamed name) t = Some target ->
  (forall entries,
     entry_type target = "tree" ->
     getTree R st (entry_oid target) = Some entries ->
     fst (served B (contents B R req) w) = json (dirJson path entries) 200)
  /\ (forall content,
        entry_type target <> "tree" ->
        getBlob R st (entry_oid target) = Some content ->
        fst (served B (contents B R req) w)
        = json (fileJson B R path (entry_oid target) content) 200
        /\ (isText content = true <-> ~ In Byte.x00 content)).
Proof.
  intros st path Hroot Hparts Hleads Hfind.
  assert (Hrun : fst (contents B R req w)
                 = fst (listPath B R (repoId repo) path root w))
    by now rewrite (contents_run req w repo branch commit root Hroot).
  assert (Hstep : fst (listPath B R (repoId repo) path root w)
                  = fst ((if String.eqb (entry_type target) "tree"
                          then andThen B
                                 (required B (objectStore_getTree B R (repoId repo)
                                                (entry_oid target)) "Tree not found")
                                 (fun tree => continue B (json (dirJson path tree) 200))
                          else andThen B
                                 (required B (objectStore_getBlob B R (repoId repo)
                                                (entry_oid target)) "Blob not found")
                                 (fun blob => continue B
                                    (json (fileJson B R path (entry_oid target) blob) 200)))
                         w)).
  { unfold listPath. cbv zeta. fold path. rewrite Hparts, removelast_last.
    rewrite (andThen_inr _ _ w t) by now apply descend_leadsTo.
    rewrite length_app, Nat.add_comm. cbn [length Nat.add Nat.eqb].
    now rewrite last_last, Hfind. }
  split.
  - intros entries Htype Htree. apply served_fst. right.
    rewrite Hrun, Hstep, Htype, String.eqb_refl.
    rewrite (andThen_inr _ _ w entries); [reflexivity |].
    now rewrite (required_some (objectStore_getTree B R _ _) _ w entries Htree).
  - intros content Htype Hblob. split.
    + apply served_fst. right. rewrite Hrun, Hstep.
      apply String.eqb_neq in Htype. rewrite Htype.
      rewrite (andThen_inr _ _ w content); [reflexivity |].
      now rewrite (required_some (objectStore_getBlob B R _ _) _ w content Hblob).
    + unfold isText. rewrite negb_true_iff, <- not_true_iff_false, existsb_exists.
      split.
      * intros Hnone Hin. apply Hnone. exists Byte.x00. now split.
      * intros Hnone (x & Hin & Hx). apply Hnone.
        destruct x; try discriminate Hx. exact Hin.
Qed.

(** X19.  Only the last part of a path may name a file.  When a part
    before the last names no entry of type [tree] in the tree reached so
    far (it is missing, or it is a file), the reply is 404 [Path not
    found]. *)
Theorem contents_path_through_file (req : BrowseRequest) (w : World B)
    (repo : Repository) (branch : BranchRecord) (commit : Commit)
    (root : list TreeEntry) (dirs : list string) (part : string) (rest : list string)
    (t : list TreeEntry) :
  reachesRoot B R req w repo branch commit root ->
  pathParts (contentsPath (browse_path req)) = dirs ++ part :: rest ->
  rest <> [] ->
  leadsTo B R (objects w (repoId repo)) root dirs t ->
  List.find (isTreeNamed part) t = None ->
  fst (served B (contents B R req) w) = jsonError "Path not found" 404.
Proof.
  intros Hroot Hparts Hrest Hleads Hnone. apply served_fst. left.
  rewrite (contents_run req w repo branch commit root Hroot). cbn [fst].
  unfold listPath. cbv zeta. rewrite Hparts.
  rewrite removelast_app by discriminate.
  assert (Hlast : removelast (part :: rest) = part :: removelast rest)
    by (destruct rest; [now contradiction Hrest | reflexivity]).
  rewrite Hlast. apply andThen_inl.
  now apply (descend_blocked _ w part (removelast rest) root dirs t).
Qed.

(** X20.  The browsing route asks for no access decision: whatever the
    request and the world, also for a private repository, none of its
    calls is [hasReadAccess] or [hasWriteAccess].  (The request model has
    no identity of the requester, because the handler reads none.) *)
Theorem contents_no_access_check (req : BrowseRequest) (w : World B) :
  Forall (fun c => isAccessCall c = false) (snd (served B (contents B R req) w)).
Proof.
  rewrite served_snd. unfold contents.
  apply andThen_calls; [now apply required_calls | intros repo].
  apply andThen_calls; [now apply required_calls | intros branch].
  apply andThen_calls; [now apply required_calls | intros commit].
  apply andThen_calls; [now apply required_calls | intros root].
  unfold listPath. cbv zeta.
  apply andThen_calls; [apply descend_calls | intros t].
  destruct (length _ =? 0)%nat; [constructor |].
  destruct (List.find _ t) as [target|]; [| constructor].
  destruct (String.eqb (entry_type target) "tree");
    (apply andThen_calls; [now apply required_calls | intros x; constructor]).
Qed.

End ContentsFacts.

(** ** The bodies of a fetch and of a push *)

Section RouterBodies.
Context (C : PktCodec) (B : Backend).

(** *** [git-upload-pack] *)

Lemma wantedOids_none (lines : list string) :
  Forall (fun line => startsWith line "want " = false) lines -> wantedOids lines = [].
Proof.
  unfold wantedOids. induction 1 as [|line lines Hline _ IH]; [reflexivity |].
  cbn [List.filter]. unfold isWantLine at 1. unfold startsWith in Hline.
  now rewrite Hline.
Qed.

Lemma wantedOids_some (lines : list string) :
  Exists (fun line => startsWith line "want " = true) lines -> wantedOids lines <> [].
Proof.
  unfold wantedOids. induction 1 as [line lines Hline | line lines _ IH].
  - cbn [List.filter]. unfold isWantLine at 1. unfold startsWith in Hline.
    now rewrite Hline.
  - cbn [List.filter]. destruct (isWantLine line); [discriminate | exact IH].
Qed.

(** C4.  The reply to [git-upload-pack], for a request that reaches the
    negotiation.  When no line of the body starts with [want ], the reply
    is the single pkt-line [NAK] and no object is read.  When some line
    does, the oids of the [want] lines are traversed, [createPackfile] is
    given the objects to send, and the reply is the pkt-line [NAK]
    followed by the bytes of the packfile, unwrapped. *)
Theorem uploadPack_response (req : Request) (w : World B) (repo : Repository)
    (lines : list string) :
  getRepositoryByName B (manager w) (param_owner req) (param_name req) = Some repo ->
  mayRead B w repo req = true ->
  parsePktLines C (arrayBuffer req) = Val lines ->
  let st := objects w (repoId repo) in
  let needed := closureMinusHaves B st (wantedOids lines) (haveOids lines) in
  (Forall (fun line => startsWith line "want " = false) lines ->
   uploadPack C B req w
   = (Val (response (createPktLine C "NAK") uploadPackResult), w, readGateCalls repo req))
  /\ (Exists (fun line => startsWith line "want " = true) lines ->
      forall packfile,
        createPackfile B st needed = Val packfile ->
        uploadPack C B req w
        = (Val (response (createPktLine C "NAK" ++ packfile) uploadPackResultNoCache), w,
           readGateCalls repo req
           ++ map (GetReachableObjects (repoId repo)) (wantedOids lines)
           ++ [CreatePackfile (repoId repo) needed]))
  /\ (forall resp,
        outcome (uploadPack C B req w) = Val resp ->
        status resp = 200
        /\ (body resp = createPktLine C "NAK"
            \/ exists packfile,
                 createPackfile B st needed = Val packfile
                 /\ body resp = createPktLine C "NAK" ++ packfile)).
Proof.
  intros Hrepo Hmay Hparse st needed.
  rewrite (uploadPack_granted C B req w repo Hrepo Hmay).
  rewrite (serveUploadPack_run C B repo req w lines _ _ Hparse (scanLines_spec lines)).
  fold st. fold needed.
  split; [| split].
  - intros Hnone. rewrite (wantedOids_none lines Hnone). cbn [after].
    now rewrite app_nil_r.
  - intros Hsome packfile Hpack. apply wantedOids_some in Hsome.
    rewrite Hpack. now destruct (wantedOids lines).
  - intros resp. destruct (wantedOids lines).
    + cbn [after outcome fst]. intros [= <-]. split; [reflexivity | now left].
    + destruct (createPackfile B st needed) as [packfile|e];
        cbn [after outcome fst]; [| discriminate].
      intros [= <-]. split; [reflexivity |]. right. now exists packfile.
Qed.

(** *** [git-receive-pack] *)

(** The run of a push that passes the gate. *)
Lemma receivePack_granted (req : Request) (w : World B) (repo : Repository) :
  let found := GetRepositoryByName (param_owner req) (param_name req) in
  let user := default EmptyString (header_address req) in
  let commandData := fst (splitBody (arrayBuffer req)) in
  let packData := snd (splitBody (arrayBuffer req)) in
  let unpacked := extractPackfile B (objects w (repoId repo)) packData in
  let stored := setStore B w (repoId repo) (fst unpacked) in
  let gate := [found; HasWriteAccess (repoId repo) user] in
  let extract := ExtractPackfile (repoId repo) packData in
  falsy (header_address req) = false ->
  getRepositoryByName B (manager w) (param_owner req) (param_name req) = Some repo ->
  hasWriteAccess B (manager w) (repoId repo) user = true ->
  receivePack C B req w
  = match parsePktLines C commandData with
    | Exn e => (Exn e, w, gate)
    | Val lines =>
        match snd unpacked with
        | Some e => (Exn e, stored, gate ++ [extract])
        | None =>
            let loop :=
              applyUpdates B repo (param_name req) user (parseUpdates lines) [] stored in
            (match outcome loop with
             | Val results =>
                 Val (response (createPktLines C (responseLines results))
                        receivePackResult)
             | Exn e => Exn e
             end, finalWorld loop, gate ++ extract :: calls loop)
        end
    end.
Proof.
  intros found user commandData packData unpacked stored gate extract
    Hfalsy Hrepo Hwrite.
  rewrite (receivePack_run C B), Hfalsy, Hrepo. fold user. rewrite Hwrite.
  rewrite (processPush_run C B). fold commandData packData.
  destruct (parsePktLines C commandData) as [lines|e]; [| reflexivity].
  cbv zeta. fold unpacked stored.
  destruct (snd unpacked); reflexivity.
Qed.

(** What can be seen of a push that passes the gate and whose commands
    are parsed: [extractPackfile] is called once, on the pack part of the
    body, right after the gate; the store it leaves is the store of the
    repository from then on, also at the end of the run; a rejected pack
    ends the run there; the loop over the commands runs on that store. *)
Lemma receivePack_unpacked (req : Request) (w : World B) (repo : Repository)
    (lines : list string) :
  let run := receivePack C B req w in
  let found := GetRepositoryByName (param_owner req) (param_name req) in
  let user := default EmptyString (header_address req) in
  let commandData := fst (splitBody (arrayBuffer req)) in
  let packData := snd (splitBody (arrayBuffer req)) in
  let unpacked := extractPackfile B (objects w (repoId repo)) packData in
  let gate :=
    [found; HasWriteAccess (repoId repo) user; ExtractPackfile (repoId repo) packData] in
  falsy (header_address req) = false ->
  getRepositoryByName B (manager w) (param_owner req) (param_name req) = Some repo ->
  hasWriteAccess B (manager w) (repoId repo) user = true ->
  parsePktLines C commandData = Val lines ->
  (exists ev,
     calls run = gate ++ ev
     /\ forall e, In e ev -> pushLoopCall B (fst unpacked) (repoId repo) user ev e)
  /\ objects (finalWorld run) (repoId repo) = fst unpacked
  /\ (forall err,
        snd unpacked = Some err ->
        run = (Exn err, setStore B w (repoId repo) (fst unpacked), gate))
  /\ (forall resp,
        outcome run = Val resp ->
        snd unpacked = None
        /\ resp = response
                    (createPktLines C
                       ("unpack ok" :: map reportLine (parseUpdates lines)))
                    receivePackResult
        /\ calls run
           = gate ++ flat_map
                       (loopCalls B (fst unpacked) repo (param_name req) user)
                       (parseUpdates lines)).
Proof.
  intros run found user commandData packData unpacked gate
    Hfalsy Hrepo Hwrite Hparse.
  subst run. rewrite (receivePack_granted req w repo Hfalsy Hrepo Hwrite).
  fold found user commandData packData unpacked. rewrite Hparse.
  destruct (snd unpacked) as [err|] eqn:Hok.
  - cbn [calls finalWorld outcome fst snd app].
    split; [exists []; split; [reflexivity | intros e []] |].
    split; [apply objects_setStore |].
    split; [now intros err' [= <-] | discriminate].
  - cbv zeta.
    pose proof (applyUpdates_run B repo (param_name req) user (parseUpdates lines) []
                  (setStore B w (repoId repo) (fst unpacked))) as Hloop.
    pose proof (applyUpdates_trace B repo (param_name req) user (parseUpdates lines) []
                  (setStore B w (repoId repo) (fst unpacked))) as Htrace.
    cbv zeta in Hloop. rewrite (objects_setStore B) in Hloop, Htrace.
    destruct (applyUpdates B repo (param_name req) user (parseUpdates lines) [] _)
      as [[r w2] ev].
    cbn [calls finalWorld outcome fst snd app] in Hloop, Htrace |- *.
    destruct Hloop as (Hobj & Hcalls & Hres).
    split; [exists ev; split; [reflexivity | exact Hcalls] |].
    split; [rewrite Hobj; apply objects_setStore |].
    split; [discriminate |].
    intros resp Hresp. destruct r as [results|e]; [| discriminate Hresp].
    injection Hresp as <-. split; [reflexivity |].
    rewrite (Hres results eq_refl), (Htrace results eq_refl). cbn [app].
    split; [| reflexivity].
    unfold responseLines. rewrite map_map. do 3 f_equal.
    apply map_ext. exact statusLine_resultOf.
Qed.

(** A push is answered with status 200 only when it has passed the gate,
    its commands are parsed and its pack is accepted. *)
Lemma receivePack_answered (req : Request) (w : World B) (resp : Response) :
  outcome (receivePack C B req w) = Val resp ->
  status resp = 200 ->
  exists repo lines,
    falsy (header_address req) = false
    /\ getRepositoryByName B (manager w) (param_owner req) (param_name req) = Some repo
    /\ hasWriteAccess B (manager w) (repoId repo)
         (default EmptyString (header_address req)) = true
    /\ parsePktLines C (fst (splitBody (arrayBuffer req))) = Val lines.
Proof.
  intros Hrun Hstatus.
  destruct (receivePack_shape C B req w) as [(_ & _ & Hresp & _) | Hloop].
  - now contradiction (Hresp resp Hrun).
  - destruct Hloop as (repo & lines & ev & Hrepo & Hfalsy & Hwrite & Hparse & _).
    now exists repo, lines.
Qed.

(** The calls of a push that does not reach [extractPackfile]. *)
Lemma receivePack_no_extract (req : Request) (w : World B) (repo : string)
    (data : Buffer) :
  In (ExtractPackfile repo data) (calls (receivePack C B req w)) ->
  exists r lines,
    falsy (header_address req) = false
    /\ getRepositoryByName B (manager w) (param_owner req) (param_name req) = Some r
    /\ hasWriteAccess B (manager w) (repoId r)
         (default EmptyString (header_address req)) = true
    /\ parsePktLines C (fst (splitBody (arrayBuffer req))) = Val lines.
Proof.
  intros Hin.
  destruct (falsy (header_address req)) eqn:Hfalsy.
  { rewrite (receivePack_run C B), Hfalsy in Hin. destruct Hin. }
  destruct (getRepositoryByName B (manager w) (param_owner req) (param_name req))
    as [r|] eqn:Hrepo.
  2:{ rewrite (receivePack_run C B), Hfalsy, Hrepo in Hin.
      destruct Hin as [Hin | []]. discriminate Hin. }
  destruct (hasWriteAccess B (manager w) (repoId r)
              (default EmptyString (header_address req))) eqn:Hwrite.
  2:{ rewrite (receivePack_run C B), Hfalsy, Hrepo in Hin. cbv zeta in Hin.
      rewrite Hwrite in Hin. destruct Hin as [Hin | [Hin | []]]; discriminate Hin. }
  destruct (parsePktLines C (fst (splitBody (arrayBuffer req)))) as [lines|e] eqn:Hparse.
  - now exists r, lines.
  - rewrite (receivePack_granted req w r Hfalsy Hrepo Hwrite) in Hin.
    cbv zeta in Hin. rewrite Hparse in Hin.
    destruct Hin as [Hin | [Hin | []]]; discriminate Hin.
Qed.

(** C2.  The body of a push is split at the first occurrence of [PACK].
    [extractPackfile] is called on the part from [PACK] on, and the store
    it leaves is the object store of the repository for the rest of the
    run and at its end.  Every [pushBranch] call of the handler comes after
    that call, which has returned without error; no unpacking follows it;
    and the commit count it carries is that of a walk in the store that
    [extractPackfile] left, so the pushed objects are stored when the
    branch is updated.  When [extractPackfile] rejects the pack, no ref is
    changed and no report is sent. *)
Theorem receivePack_store_before_link (req : Request) (w : World B) :
  let body := arrayBuffer req in
  let run := receivePack C B req w in
  let packData := snd (splitBody body) in
  (forall pre post,
     body = pre ++ bufferFrom "PACK" ++ post ->
     exists commandData rest,
       splitBody body = (commandData, bufferFrom "PACK" ++ rest)
       /\ body = commandData ++ bufferFrom "PACK" ++ rest
       /\ forall pre' post',
            body = pre' ++ bufferFrom "PACK" ++ post' ->
            (length commandData <= length pre')%nat)
  /\ (forall repo data,
        In (ExtractPackfile repo data) (calls run) ->
        data = packData
        /\ objects (finalWorld run) repo
           = fst (extractPackfile B (objects w repo) packData))
  /\ (forall pre e post,
        calls run = pre ++ e :: post -> isPushBranch e = true ->
        exists repo,
          getRepositoryByName B (manager w) (param_owner req) (param_name req) = Some repo
          /\ In (ExtractPackfile (repoId repo) packData) pre
          /\ snd (extractPackfile B (objects w (repoId repo)) packData) = None
          /\ Forall (fun e' => isExtractPackfile e' = false) post
          /\ objects (finalWorld run) (repoId repo)
             = fst (extractPackfile B (objects w (repoId repo)) packData)
          /\ exists branch new old,
               e = PushBranch (repoId repo) branch new old
                     (Z.of_nat
                        (length
                           (walkCommits B
                              (fst (extractPackfile B (objects w (repoId repo)) packData))
                              new 100)))
                     (default EmptyString (header_address req)))
  /\ (forall repo err,
        getRepositoryByName B (manager w) (param_owner req) (param_name req) = Some repo ->
        snd (extractPackfile B (objects w (repoId repo)) packData) = Some err ->
        manager (finalWorld run) = manager w
        /\ Forall (fun e => isPushBranch e = false) (calls run)
        /\ forall resp, outcome run = Val resp -> status resp <> 200).
Proof.
  intros body run packData. split; [apply splitBody_found |].
  pose proof (receivePack_shape C B req w) as Hshape. cbv zeta in Hshape.
  fold run body packData in Hshape. split; [| split].
  - intros repo data Hin.
    destruct (receivePack_no_extract req w repo data Hin)
      as (r & lines & Hfalsy & Hrepo & Hwrite & Hparse).
    destruct (receivePack_unpacked req w r lines Hfalsy Hrepo Hwrite Hparse)
      as ((ev & Hev & Hall) & Hobj & _).
    fold run body packData in Hev, Hobj. rewrite Hev in Hin.
    destruct Hin as [Hin | [Hin | [Hin | Hin]]]; try discriminate Hin.
    + injection Hin as <- <-. now split.
    + apply Hall, pushLoopCall_not_extract in Hin. discriminate Hin.
  - intros pre e post Hcalls Hpush.
    destruct Hshape as [(_ & Hnone & _) | Hloop].
    + exfalso. rewrite Hcalls in Hnone.
      apply Forall_app in Hnone as [_ Hnone].
      inversion Hnone as [|? ? He _]; subst. destruct e; discriminate.
    + destruct Hloop as (repo & lines & ev & Hrepo & _ & _ & _ & Hok & Hev & Hobj & Hall & _).
      exists repo. split; [exact Hrepo |].
      rewrite Hcalls in Hev.
      destruct pre as [|p1 [|p2 [|p3 pre]]]; cbn [app] in Hev;
        try (injection Hev as -> _; discriminate Hpush);
        try (injection Hev as _ -> _; discriminate Hpush);
        try (injection Hev as _ _ -> _; discriminate Hpush).
      injection Hev as -> -> -> Hev.
      split; [right; right; now left |]. split; [exact Hok |].
      split.
      { apply Forall_forall. intros x Hx.
        eapply pushLoopCall_not_extract, Hall.
        rewrite <- Hev. apply in_or_app. right. right. now apply list_elem_of_In. }
      split; [exact Hobj |].
      assert (He : In e ev) by (rewrite <- Hev; apply in_or_app; right; now left).
      apply Hall in He. destruct e; try discriminate Hpush.
      simpl in He. destruct He as (-> & -> & ->). now eexists _, _, _.
  - intros repo err Hrepo Herr.
    destruct Hshape as [(Hm & Hnone & Hresp & _) | Hloop].
    + repeat split; [exact Hm | | exact Hresp].
      eapply Forall_impl; [exact Hnone |]. intros e He. now destruct e.
    + destruct Hloop as (repo' & lines & ev & Hrepo' & _ & _ & _ & Hok & _).
      rewrite Hrepo in Hrepo'. injection Hrepo' as <-.
      rewrite Herr in Hok. discriminate Hok.
Qed.


End RouterBodies.

(** ** Commit counts of a push *)

(** C10.  For every command on a branch of a push that is answered, the
    handler walks the commits of the new tip with limit 100 and passes the
    length of that walk as commit count both to [pushBranch] and to
    contribution tracking.  In every run, whatever its end, each
    [pushBranch] call carries the length of [walkCommits(newOid, 100)]
    and each contribution record the count of a [pushBranch] call of the
    same branch.  With the walk of the specification, which stops at its
    limit, no count is greater than 100. *)
Theorem push_commit_count (C : PktCodec) (pk : PackCodec) (req : Request)
    (w : World (specBackend pk)) :
  let run := receivePack C (specBackend pk) req w in
  let user := default EmptyString (header_address req) in
  (forall resp,
     outcome run = Val resp -> status resp = 200 ->
     exists repo lines,
       RefManager.getRepositoryByName (manager w) (param_owner req) (param_name req)
       = Some repo
       /\ parsePktLines C (fst (splitBody (arrayBuffer req))) = Val lines
       /\ forall u,
            In u (parseUpdates lines) -> branchUpdate u = true ->
            let commits :=
              ObjectStore.walkCommits (objects (finalWorld run) (repoId repo))
                (newOid u) 100 in
            let branch := replace "refs/heads/" "" (refName u) in
            let n := Z.of_nat (length commits) in
            In (WalkCommits (repoId repo) (newOid u) 100) (calls run)
            /\ In (PushBranch (repoId repo) branch (newOid u) (expectedOld u) n user)
                 (calls run)
            /\ In (TrackGitContribution user (repoId repo) (param_name req) "commit"
                     branch n (pushSummary commits))
                 (calls run)
            /\ 0 <= n <= 100)
  /\ (forall e,
        In e (calls run) ->
        match e with
        | PushBranch repo _ new _ n _ =>
            n = Z.of_nat
                  (length (ObjectStore.walkCommits (objects (finalWorld run) repo) new 100))
            /\ n <= 100
        | TrackGitContribution user repo _ _ branch n _ =>
            (exists new old, In (PushBranch repo branch new old n user) (calls run))
            /\ n <= 100
        | _ => True
        end).
Proof.
  intros run user. split.
  - intros resp Hrun Hstatus.
    destruct (receivePack_answered C (specBackend pk) req w resp Hrun Hstatus)
      as (repo & lines & Hfalsy & Hrepo & Hwrite & Hparse).
    exists repo, lines. split; [exact Hrepo |]. split; [exact Hparse |].
    destruct (receivePack_unpacked C (specBackend pk) req w repo lines
                Hfalsy Hrepo Hwrite Hparse) as (_ & Hobj & _ & Hok).
    fold run user in Hobj, Hok.
    destruct (Hok resp Hrun) as (_ & _ & Hcalls).
    intros u Hu Hbranch commits branch n.
    assert (Hin : forall e,
              In e (loopCalls (specBackend pk) (objects (finalWorld run) (repoId repo))
                      repo (param_name req) user u) ->
              In e (calls run)).
    { intros e He. rewrite Hcalls, <- Hobj. apply in_or_app. right.
      apply in_flat_map. now exists u. }
    unfold loopCalls in Hin. rewrite Hbranch in Hin. cbv zeta in Hin.
    fold commits branch n in Hin.
    split; [apply Hin; now left |].
    split; [apply Hin; right; now left |].
    split; [apply Hin; right; right; now left |].
    split; [lia |]. subst n commits. apply walkCommits_limit. lia.
  - intros e He.
    pose proof (receivePack_commit_counts C (specBackend pk) req w e He) as Hc.
    fold run in Hc. destruct e; try exact I.
    + split; [exact Hc |]. rewrite Hc. apply walkCommits_limit. lia.
    + destruct Hc as (new & old & Hin & Hn). split; [now exists new, old |].
      rewrite Hn. apply walkCommits_limit. lia.
Qed.

(** ** The further properties on the small repository *)

Module Runs.
Import Demo DemoPush.

Lemma receivePack_refusals_witness :
  receivePack specCodec backend (push "open" None goodPush) world
  = (Val (text "Authentication required" 401), world, [])
  /\ receivePack specCodec backend (push "none" (Some alice) goodPush) world
     = (Val (text "Repository not found" 404), world, [GetRepositoryByName alice "none"])
  /\ receivePack specCodec backend (push "open" (Some bob) goodPush) world
     = (Val (text "Write access denied" 403), world,
        [GetRepositoryByName alice "open"; HasWriteAccess "0x01" bob]).
Proof.
  split; [| split].
  - apply (proj1 (receivePack_refusals specCodec backend
                    (push "open" None goodPush) world)).
    reflexivity.
  - apply (proj1 (proj2 (receivePack_refusals specCodec backend
                           (push "none" (Some alice) goodPush) world)));
      reflexivity.
  - apply (proj2 (proj2 (receivePack_refusals specCodec backend
                           (push "open" (Some bob) goodPush) world)) publicRepo);
      reflexivity.
Defined.

(** The push advertisement of the public repository still wants an
    identity. *)
Lemma pushAdvertisement_write_gate_witness :
  infoRefs specCodec backend (pushAdvert "open" None) world
  = (Val (text "Authentication required" 401), world, [GetRepositoryByName alice "open"]).
Proof.
  apply (proj1 (pushAdvertisement_write_gate specCodec backend
                  (pushAdvert "open" None) world publicRepo eq_refl eq_refl)).
  reflexivity.
Defined.

Lemma open_repository_served_witness :
  uploadPack specCodec backend (fetch "open" None [want c2]) world
  = after [GetRepositoryByName alice "open"]
      (serveUploadPack specCodec backend publicRepo (fetch "open" None [want c2]) world).
Proof.
  refine (proj1 (open_repository_served specCodec backend
                   (fetch "open" None [want c2]) world publicRepo eq_refl _)).
  discriminate.
Defined.

(** Wants and haves in any order. *)
Lemma scanLines_wants_haves_witness :
  scanLines [haveLine b1 ""; wantLine c2 " multi_ack side-band-64k"; "done";
             wantLine c1 ""; haveLine b2 ""]
  = ([c2; c1], [b1; b2]).
Proof.
  rewrite (proj1 (scanLines_wants_haves _)). reflexivity.
Defined.

Lemma scanCommand_capabilities_witness :
  scanCommand [] firstCommand
  = [{| oldOid := c1; newOid := c2; refName := "refs/heads/main" |}].
Proof.
  refine (scanCommand_capabilities [] c1 c2 "refs/heads/main"
            (String NUL "report-status side-band-64k") _ _ _ _ _ _);
    try reflexivity.
  discriminate.
Defined.

Lemma receivePack_status_report_witness :
  exists lines,
    parsePktLines specCodec (fst (splitBody goodPush)) = Val lines
    /\ response (createPktLines specCodec ["unpack ok"; "ok refs/heads/main"])
         receivePackResult
       = response
           (createPktLines specCodec ("unpack ok" :: map reportLine (parseUpdates lines)))
           [("Content-Type", "application/x-git-receive-pack-result");
            ("Cache-Control", "no-cache")].
Proof.
  refine (receivePack_status_report specCodec backend
            (push "open" (Some alice) goodPush) world _ _ _).
  - vm_compute. reflexivity.
  - reflexivity.
Defined.

Lemma receivePack_success_trace_witness :
  exists repo lines,
    getRepositoryByName backend (manager world) alice "open" = Some repo
    /\ parsePktLines specCodec (fst (splitBody goodPush)) = Val lines
    /\ calls (receivePack specCodec backend (push "open" (Some alice) goodPush) world)
       = [GetRepositoryByName alice "open"; HasWriteAccess (repoId repo) alice;
          ExtractPackfile (repoId repo) (snd (splitBody goodPush))]
         ++ flat_map
              (loopCalls backend
                 (fst (extractPackfile backend (objects world (repoId repo))
                         (snd (splitBody goodPush))))
                 repo "open" alice)
              (parseUpdates lines).
Proof.
  refine (receivePack_success_trace specCodec backend
            (push "open" (Some alice) goodPush) world
            (response (createPktLines specCodec ["unpack ok"; "ok refs/heads/main"])
               receivePackResult) _ _).
  - vm_compute. reflexivity.
  - reflexivity.
Defined.

(** [feature] is created, then the stale command on [main] fails: the
    new branch stays. *)
Lemma applyUpdates_no_rollback_witness :
  let run :=
    applyUpdates backend publicRepo "open" alice [createFeature; staleMain] [] world in
  outcome run = Exn NonFastForwardOrRaceError
  /\ tipCommitOid <$> branches (manager (finalWorld run)) !! ("0x01", "feature") = Some c2.
Proof.
  set (first := applyUpdates backend publicRepo "open" alice [createFeature] [] world).
  pose proof (applyUpdates_no_rollback backend publicRepo "open" alice
                [createFeature] staleMain [] []
                [{| ref := "refs/heads/feature"; success := true; error := None |}]
                world (finalWorld first) (calls first) NonFastForwardOrRaceError)
    as Hrun.
  cbv zeta in Hrun |- *. cbn [app] in Hrun.
  rewrite Hrun.
  - split; [reflexivity | vm_compute; reflexivity].
  - vm_compute. reflexivity.
  - reflexivity.
  - vm_compute. reflexivity.
Defined.

Lemma applyUpdates_branch_call_witness :
  exists ev,
    calls (applyUpdates backend publicRepo "open" alice [staleMain] [] world)
    = WalkCommits "0x01" c2 100
      :: PushBranch "0x01" "main" c2 (expectedOld staleMain)
           (Z.of_nat (length (walkCommits backend (objects world "0x01") c2 100))) alice
      :: ev
    /\ (expectedOld staleMain = None <-> oldOid staleMain = zeroOid).
Proof.
  exact (applyUpdates_branch_call backend publicRepo "open" alice staleMain "main"
           [] [] world eq_refl).
Defined.

Lemma pathParts_normalises_witness :
  pathParts (join "/" ["docs"; "guide"]) = ["docs"; "guide"]
  /\ pathParts (String.append "/docs/" (String SLASH "guide/"))
     = pathParts "/docs/" ++ pathParts "guide/"
  /\ Forall isPart (pathParts "/docs/").
Proof.
  refine (pathParts_normalises "/docs/" "guide/" ["docs"; "guide"] _).
  repeat (constructor; [split; [discriminate | reflexivity] |]). constructor.
Defined.

(** A file below a directory named [contents] cannot be asked for. *)
Lemma contentsPath_between_markers_witness :
  contentsPath "/0xa11ce/open/contents/docs" = "docs"
  /\ contentsPath "/0xa11ce/open/contents/docs/contents/guide" = "docs".
Proof.
  exact (contentsPath_between_markers "/0xa11ce/open" "docs" "guide" eq_refl eq_refl).
Defined.

Lemma demo_reachesRoot (name path : string) :
  name = "open" \/ name = "closed" ->
  reachesRoot backend DemoTree.browser (DemoTree.browse name path None) DemoTree.world
    (if String.eqb name "open" then publicRepo else privateRepo)
    DemoTree.mainBranch DemoTree.firstCommit DemoTree.rootTree.
Proof. intros [-> | ->]; repeat split; vm_compute; reflexivity. Qed.

Lemma contents_root_listing_witness :
  served backend (contents backend DemoTree.browser (DemoTree.browse "closed" "" None))
    DemoTree.world
  = (json (dirJson "" DemoTree.rootTree) 200,
     rootCalls (DemoTree.browse "closed" "" None) privateRepo DemoTree.mainBranch
       DemoTree.firstCommit).
Proof.
  apply (contents_root_listing backend DemoTree.browser
           (DemoTree.browse "closed" "" None) DemoTree.world privateRepo
           DemoTree.mainBranch DemoTree.firstCommit DemoTree.rootTree).
  - apply (demo_reachesRoot "closed" ""). now right.
  - reflexivity.
Defined.

(** The file [docs/guide] of the private repository. *)
Lemma contents_resolves_witness :
  fst (served backend
         (contents backend DemoTree.browser (DemoTree.browse "closed" "docs/guide" None))
         DemoTree.world)
  = json (fileJson backend DemoTree.browser "docs/guide" b2 (bufferFrom "two")) 200.
Proof.
  refine (proj1 (proj2 (contents_resolves backend DemoTree.browser
                          (DemoTree.browse "closed" "docs/guide" None) DemoTree.world
                          privateRepo DemoTree.mainBranch DemoTree.firstCommit
                          DemoTree.rootTree ["docs"] "guide" DemoTree.docsTree
                          (DemoTree.entry "100644" "guide" "blob" b2) _ _ _ _)
                        (bufferFrom "two") _ _)).
  - apply (demo_reachesRoot "closed" "docs/guide"). now right.
  - reflexivity.
  - eapply leadsTo_down; [reflexivity | vm_compute; reflexivity | apply leadsTo_here].
  - reflexivity.
  - discriminate.
  - vm_compute. reflexivity.
Defined.

(** [README] is a file: nothing is below it. *)
Lemma contents_path_through_file_witness :
  fst (served backend
         (contents backend DemoTree.browser (DemoTree.browse "open" "README/x" None))
         DemoTree.world)
  = jsonError "Path not found" 404.
Proof.
  apply (contents_path_through_file backend DemoTree.browser
           (DemoTree.browse "open" "README/x" None) DemoTree.world publicRepo
           DemoTree.mainBranch DemoTree.firstCommit DemoTree.rootTree
           [] "README" ["x"] DemoTree.rootTree).
  - apply (demo_reachesRoot "open" "README/x"). now left.
  - reflexivity.
  - discriminate.
  - apply leadsTo_here.
  - reflexivity.
Defined.

(** A fetch without [want] line, and one with a [want] and a [have]. *)
Lemma uploadPack_response_witness :
  uploadPack specCodec backend (fetch "open" None [have c1]) world
  = (Val (response (createPktLine specCodec "NAK") uploadPackResult), world,
     [GetRepositoryByName alice "open"])
  /\ uploadPack specCodec backend (fetch "open" None [want c2; have c1]) world
     = (Val (response
               (createPktLine specCodec "NAK"
                ++ bufferFrom "PACK"
                ++ concat (map bufferFrom (closureMinusHaves backend store [c2] [c1])))
               uploadPackResultNoCache),
        world,
        [GetRepositoryByName alice "open"; GetReachableObjects "0x01" c2;
         CreatePackfile "0x01" (closureMinusHaves backend store [c2] [c1])]).
Proof.
  split.
  - refine (proj1 (uploadPack_response specCodec backend
                     (fetch "open" None [have c1]) world publicRepo [have c1]
                     eq_refl eq_refl _) _).
    + vm_compute. reflexivity.
    + repeat constructor.
  - refine (proj1 (proj2 (uploadPack_response specCodec backend
                            (fetch "open" None [want c2; have c1]) world publicRepo
                            [want c2; have c1] eq_refl eq_refl _)) _ _ _).
    + vm_compute. reflexivity.
    + left. reflexivity.
    + reflexivity.
Defined.

(** The pushed commit [c3] is not in the store before the push; the pack
    brings it, and the update of [main] counts three commits: the walk
    from [c3] runs in the store that [extractPackfile] left. *)
Lemma receivePack_store_before_link_witness :
  let req := push "open" (Some alice) DemoUnpack.newTip in
  let run := receivePack specCodec DemoUnpack.backend req DemoUnpack.world in
  let packData := snd (splitBody (arrayBuffer req)) in
  (store !! c3 = None
   /\ fst (extractPackfile DemoUnpack.backend (objects DemoUnpack.world "0x01") packData)
      !! c3
      = Some (commit c3 DemoUnpack.t3 [c2] "third"))
  /\ exists repo,
       getRepositoryByName DemoUnpack.backend (manager DemoUnpack.world)
         (param_owner req) (param_name req) = Some repo
       /\ In (ExtractPackfile (repoId repo) packData)
            [GetRepositoryByName alice "open"; HasWriteAccess "0x01" alice;
             ExtractPackfile "0x01" (bufferFrom "PACK"); WalkCommits "0x01" c3 100]
       /\ snd (extractPackfile DemoUnpack.backend
                 (objects DemoUnpack.world (repoId repo)) packData) = None
       /\ Forall (fun e => isExtractPackfile e = false)
            [TrackGitContribution alice "0x01" "open" "commit" "main" 3 "third"]
       /\ objects (finalWorld run) (repoId repo)
          = fst (extractPackfile DemoUnpack.backend
                   (objects DemoUnpack.world (repoId repo)) packData)
       /\ exists branch new old,
            PushBranch "0x01" "main" c3 (Some c1) 3 alice
            = PushBranch (repoId repo) branch new old
                (Z.of_nat
                   (length
                      (walkCommits DemoUnpack.backend
                         (fst (extractPackfile DemoUnpack.backend
                                 (objects DemoUnpack.world (repoId repo)) packData))
                         new 100)))
                (default EmptyString (header_address req)).
Proof.
  intros req run packData. split; [split; vm_compute; reflexivity |].
  apply (proj1 (proj2 (proj2 (receivePack_store_before_link specCodec DemoUnpack.backend
                                req DemoUnpack.world)))
           [GetRepositoryByName alice "open"; HasWriteAccess "0x01" alice;
            ExtractPackfile "0x01" (bufferFrom "PACK"); WalkCommits "0x01" c3 100]
           (PushBranch "0x01" "main" c3 (Some c1) 3 alice)
           [TrackGitContribution alice "0x01" "open" "commit" "main" 3 "third"]).
  - vm_compute. reflexivity.
  - reflexivity.
Defined.


(** The push of [main] to [c2], whose history has two commits. *)
Lemma push_commit_count_witness :
  let run := receivePack specCodec backend (push "open" (Some alice) goodPush) world in
  In (WalkCommits "0x01" c2 100) (calls run)
  /\ In (PushBranch "0x01" "main" c2 (Some c1) 2 alice) (calls run)
  /\ In (TrackGitContribution alice "0x01" "open" "commit" "main" 2 "second") (calls run)
  /\ 0 <= 2 <= 100.
Proof.
  intros run.
  destruct (proj1 (push_commit_count specCodec pack
                     (push "open" (Some alice) goodPush) world)
              (response (createPktLines specCodec ["unpack ok"; "ok refs/heads/main"])
                 receivePackResult))
    as (repo & lines & Hrepo & Hparse & Hall).
  - vm_compute. reflexivity.
  - reflexivity.
  - vm_compute in Hrepo. injection Hrepo as <-.
    vm_compute in Hparse. injection Hparse as <-.
    exact (Hall {| oldOid := c1; newOid := c2; refName := "refs/heads/main" |}
             (or_introl eq_refl) eq_refl).
Defined.

End Runs.
